(** * mpd.Duration: the XML Duration codec of go-dash (mpd/segment.go)

    A shallow embedding of the [Duration] value type, its formatter
    [String] (with the helpers [fmtFrac] and [fmtInt]), its parser
    [parseDuration], the attribute hooks [MarshalXMLAttr] and
    [UnmarshalXMLAttr], and [Truncate], followed by the properties
    proved about them. *)

From Stdlib Require Import ZArith List Bool Ascii String Lia.
From Stdlib Require Import Floats.SpecFloat.
Import ListNotations.

Local Open Scope string_scope.
Local Open Scope Z_scope.

(* ================================================================== *)
(** * Machine integers *)

(** Go's [int64] and [uint64] are modelled as [Z] with the wrap-around
    written out. *)

Definition int64_min : Z := - 2 ^ 63.
Definition int64_max : Z := 2 ^ 63 - 1.

Definition is_int64 (z : Z) : Prop := int64_min <= z <= int64_max.
Definition is_uint64 (z : Z) : Prop := 0 <= z < 2 ^ 64.

(** Conversion of any integer to [int64]: two's complement wrap. *)
Definition to_int64 (z : Z) : Z := (z + 2 ^ 63) mod 2 ^ 64 - 2 ^ 63.

(** Conversion of any integer to [uint64]. *)
Definition to_uint64 (z : Z) : Z := z mod 2 ^ 64.

(** [byte(x) + '0'] and friends: arithmetic on bytes is modulo 256. *)
Definition to_byte (z : Z) : ascii := ascii_of_N (Z.to_N (z mod 256)).

(* ================================================================== *)
(** * The Duration type and the unit ladder *)

(** [type Duration time.Duration], a signed 64-bit nanosecond count. *)
Definition Duration : Type := Z.

Definition Nanosecond  : Duration := 1.
Definition Microsecond : Duration := 1000 * Nanosecond.
Definition Millisecond : Duration := 1000 * Microsecond.
Definition Second      : Duration := 1000 * Millisecond.
Definition Minute      : Duration := 60 * Second.
Definition Hour        : Duration := 60 * Minute.

(* ================================================================== *)
(** * The formatting buffer *)

(** The three ways a Go computation modelled here can end: with a value,
    with a run-time panic (an index or a slice bound out of range), or,
    in the model only, with the iteration budget of a [for] loop
    exhausted. *)
Inductive outcome (A : Type) : Type :=
| Done (a : A)
| Panic
| OutOfFuel.
Arguments Done {A} a.
Arguments Panic {A}.
Arguments OutOfFuel {A}.

(** [var buf [32]byte]: the backing array.  Every slice [buf[:w]] the
    code passes around aliases this one array, so the array is threaded
    as state and a slice is represented by its length. *)
Definition buffer : Type := list ascii.

Definition buf_cap : Z := 32.

Definition new_buf : buffer := repeat zero (Z.to_nat buf_cap).

Definition M (A : Type) : Type := buffer -> outcome (A * buffer).

Definition ret {A} (a : A) : M A := fun b => Done (a, b).

Definition bind {A B} (m : M A) (k : A -> M B) : M B :=
  fun b =>
    match m b with
    | Done (a, b') => k a b'
    | Panic => Panic
    | OutOfFuel => OutOfFuel
    end.

Notation "x <- m ;; k" := (bind m (fun x => k))
  (at level 61, m at next level, right associativity).
Notation "m ;;; k" := (bind m (fun _ => k))
  (at level 61, right associativity).

Fixpoint update (i : nat) (c : ascii) (b : buffer) : buffer :=
  match b, i with
  | [], _ => []
  | _ :: t, O => c :: t
  | h :: t, S i' => h :: update i' c t
  end.

(** [s[w] = c] for a slice [s] of length [len] over the array: a panic
    unless [0 <= w < len]. *)
Definition store (len w : Z) (c : ascii) : M unit :=
  fun b =>
    if (0 <=? w) && (w <? len)
    then Done (tt, update (Z.to_nat w) c b)
    else Panic.

(** [buf[:w]]: a panic unless [0 <= w <= cap(buf)]; the value is the
    length of the new slice. *)
Definition slice_to (w : Z) : M Z :=
  fun b => if (0 <=? w) && (w <=? buf_cap) then Done (w, b) else Panic.

(** [string(buf[w:])] *)
Definition string_from (w : Z) : M string :=
  fun b =>
    if (0 <=? w) && (w <=? buf_cap)
    then Done (string_of_list_ascii (skipn (Z.to_nat w) b), b)
    else Panic.

Definition run {A} (m : M A) : outcome A :=
  match m new_buf with
  | Done (a, _) => Done a
  | Panic => Panic
  | OutOfFuel => OutOfFuel
  end.

(* ================================================================== *)
(** * fmtFrac and fmtInt *)

(** The body of [for i := 0; i < prec; i++] in [fmtFrac], iterated [n]
    times over the loop state [(w, print, v)]. *)
Fixpoint fmtFrac_loop (n : nat) (len w : Z) (print : bool) (v : Z)
  : M (Z * bool * Z) :=
  match n with
  | O => ret (w, print, v)
  | S n' =>
      let digit := v mod 10 in
      let print := print || negb (digit =? 0) in
      w' <- (if print
             then store len (w - 1) (to_byte (digit + 48)) ;;; ret (w - 1)
             else ret w) ;;
      fmtFrac_loop n' len w' print (v / 10)
  end.

(** [func fmtFrac(buf []byte, v uint64, prec int) (nw int, nv uint64)];
    [len] is [len(buf)]. *)
Definition fmtFrac (len : Z) (v : Z) (prec : Z) : M (Z * Z) :=
  let w := len in
  r <- fmtFrac_loop (Z.to_nat prec) len w false v ;;
  let '(w, print, v) := r in
  w <- (if print : bool
        then store len (w - 1) "."%char ;;; ret (w - 1)
        else ret w) ;;
  ret (w, v).

(** The loop [for v > 0 { ... }] of [fmtInt]. *)
Fixpoint fmtInt_loop (fuel : nat) (len w v : Z) : M Z :=
  if 0 <? v then
    match fuel with
    | O => fun _ => OutOfFuel
    | S fuel' =>
        store len (w - 1) (to_byte (v mod 10 + 48)) ;;;
        fmtInt_loop fuel' len (w - 1) (v / 10)
    end
  else ret w.

(** A [uint64] has at most 20 decimal digits. *)
Definition fmtInt_fuel : nat := 20.

(** [func fmtInt(buf []byte, v uint64) int] *)
Definition fmtInt (len : Z) (v : Z) : M Z :=
  let w := len in
  if v =? 0 then
    store len (w - 1) "0"%char ;;; ret (w - 1)
  else
    fmtInt_loop fmtInt_fuel len w v.

(* ================================================================== *)
(** * The Go library functions the parser calls *)

(** Go strings are byte sequences; [len(str)] counts bytes. *)
Definition len (s : string) : Z := Z.of_nat (String.length s).

Module strings.

(** [strings.Contains(s, substr)] *)
Fixpoint Contains (s substr : string) : bool :=
  String.prefix substr s ||
  match s with
  | EmptyString => false
  | String _ s' => Contains s' substr
  end.

(** Whether the byte [c] occurs in [cutset]. *)
Fixpoint mem (c : ascii) (cutset : string) : bool :=
  match cutset with
  | EmptyString => false
  | String a rest => Ascii.eqb a c || mem c rest
  end.

(** [strings.TrimRight(s, cutset)]: [s] without its trailing bytes that
    occur in [cutset]. *)
Fixpoint TrimRight (s cutset : string) : string :=
  match s with
  | EmptyString => EmptyString
  | String c s' =>
      match TrimRight s' cutset with
      | EmptyString => if mem c cutset then EmptyString else String c EmptyString
      | t => String c t
      end
  end.

End strings.

Module strconv.

(** The two causes a [*strconv.NumError] reports. *)
Inductive NumError : Type := ErrSyntax | ErrRange.

(** The ASCII decimal digits ['0'] to ['9'] and their values. *)
Definition is_digit (c : ascii) : bool :=
  let n := N_of_ascii c in (48 <=? n)%N && (n <=? 57)%N.

Definition digit_val (c : ascii) : Z := Z.of_N (N_of_ascii c) - 48.

Fixpoint all_digits (s : string) : bool :=
  match s with
  | EmptyString => true
  | String c s' => is_digit c && all_digits s'
  end.

(** The number a run of decimal digits denotes, most significant
    first, continuing from [acc]. *)
Fixpoint decimal (acc : Z) (s : string) : Z :=
  match s with
  | EmptyString => acc
  | String c s' => decimal (10 * acc + digit_val c) s'
  end.

(** [strconv.Atoi(s)] on a platform whose [int] has 64 bits: an
    optional sign and a non-empty run of decimal digits; [ErrRange]
    when the number does not fit. *)
Definition Atoi (s : string) : Z + NumError :=
  let '(neg, ds) :=
    match s with
    | String c r =>
        if Ascii.eqb c "-" then (true, r)
        else if Ascii.eqb c "+" then (false, r)
        else (false, s)
    | EmptyString => (false, s)
    end in
  match ds with
  | EmptyString => inr ErrSyntax
  | _ =>
      if all_digits ds then
        let n := if neg : bool then - decimal 0 ds else decimal 0 ds in
        if (int64_min <=? n) && (n <=? int64_max) then inl n
        else inr ErrRange
      else inr ErrSyntax
  end.

(** [float64]: IEEE 754 binary64, through the standard library's
    executable specification ([prec = 53], [emax = 1024]). *)
Definition float64 : Type := spec_float.

Definition prec : Z := 53.
Definition emax : Z := 1024.

(** [float64(n)] for an integer constant that is exactly representable. *)
Definition float64_of_Z (n : Z) : float64 := binary_normalize prec emax n 0 false.

(** The binary64 nearest to [n / 10^k] (ties to even), for [0 <= n]:
    [SFdiv] rounds the exact quotient of the two integers once. *)
Definition round_decimal (n : Z) (k : nat) : float64 :=
  match n with
  | Zpos p =>
      SFdiv prec emax (S754_finite false p 0)
                      (S754_finite false (Z.to_pos (10 ^ Z.of_nat k)) 0)
  | _ => S754_zero false
  end.

(** The text before the first ['.'] and, when there is one, the text
    after it. *)
Fixpoint split_dot (s : string) : string * option string :=
  match s with
  | EmptyString => (EmptyString, None)
  | String c s' =>
      if Ascii.eqb c "."%char then (EmptyString, Some s')
      else let '(i, f) := split_dot s' in (String c i, f)
  end.

(** [strconv.ParseFloat(s, 64)] on the unsigned decimal numerals
    without exponent: digits with at most one ['.'] and at least one
    digit, correctly rounded; [ErrRange] when the value rounds to an
    infinity.  [parseDuration] passes it text over the alphabet
    [0-9.] only (the seconds field of a match, less its ['S']); the signs,
    exponents, hexadecimal forms and special values that strconv also
    reads all need a byte outside that alphabet and are answered here
    with [ErrSyntax]. *)
Definition ParseFloat (s : string) : float64 + NumError :=
  let '(ip, fo) := split_dot s in
  let fp := match fo with Some f => f | None => EmptyString end in
  if all_digits ip && all_digits fp && negb (String.eqb (ip ++ fp) EmptyString)
  then
    match round_decimal (decimal 0 (ip ++ fp)) (String.length fp) with
    | S754_infinity _ => inr ErrRange
    | f => inl f
    end
  else inr ErrSyntax.

End strconv.

(** [x * y] on [float64]. *)
Definition float64_mul (x y : strconv.float64) : strconv.float64 :=
  SFmul strconv.prec strconv.emax x y.

(** [int64(f)]: the fraction is discarded (truncation toward zero).
    For a value outside [int64], an infinity or a NaN the Go
    specification leaves the result to the implementation; the model
    takes what amd64 produces, the smallest [int64]. *)
Definition float64_to_int64 (f : strconv.float64) : Z :=
  match f with
  | S754_zero _ => 0
  | S754_finite s m e =>
      let a := if 0 <=? e then Zpos m * 2 ^ e else Zpos m / 2 ^ (- e) in
      let v := if s then - a else a in
      if (int64_min <=? v) && (v <=? int64_max) then v else int64_min
  | _ => int64_min
  end.

(* ================================================================== *)
(** * Regular expressions *)

(** The fragment of Go's [regexp] syntax that [xmlDurationRegex] uses:
    the anchors, literal bytes, the classes [\d] and [[...]], [x+] on a
    class, [x?], concatenation, capturing groups [( )] and
    non-capturing groups [(?: )].  Every byte the pattern can match is
    ASCII, so matching bytes and matching runes agree. *)
Module regexp.

(** A character class as a list of inclusive ranges. *)
Definition CharClass : Type := list (ascii * ascii).

Definition in_class (cls : CharClass) (c : ascii) : bool :=
  existsb (fun '(lo, hi) =>
             (N_of_ascii lo <=? N_of_ascii c)%N && (N_of_ascii c <=? N_of_ascii hi)%N)
          cls.

(** [\d], which in Go is [[0-9]]. *)
Definition digit : CharClass := [("0"%char, "9"%char)].

Inductive Regexp : Type :=
| Empty                          (* matches the empty text *)
| Bol                            (* ^ : at the beginning of the text *)
| Eol                            (* $ : at the end of the text *)
| Lit (c : ascii)
| Class (cls : CharClass)
| Plus (cls : CharClass)         (* x+ for a class x, greedy *)
| Opt (r : Regexp)               (* x?, preferring one x *)
| Cat (r1 r2 : Regexp)
| Cap (n : nat) (r : Regexp).    (* the n-th capturing group *)

(** ** Parsing a pattern *)

(** A group under construction: its capture index ([None] for the top
    level and for [(?: )]) and the pieces read so far, last first. *)
Definition frame : Type := (option nat * list Regexp)%type.

Definition push (r : Regexp) (f : frame) : frame := (fst f, r :: snd f).

Definition close (f : frame) : Regexp :=
  let body :=
    match snd f with
    | [] => Empty
    | r :: before => fold_left (fun acc x => Cat x acc) before r
    end in
  match fst f with
  | Some n => Cap n body
  | None => body
  end.

(** One pass over the pattern.  [ncap] counts the capturing groups
    opened so far (groups are numbered by their opening parenthesis),
    [cur] is the innermost open group, [stack] the enclosing ones and
    [cls] the ranges of a bracket class being read, if any. *)
Fixpoint parse (pat : string) (ncap : nat) (cls : option CharClass)
         (cur : frame) (stack : list frame) : option Regexp :=
  match pat with
  | EmptyString =>
      match cls, stack with
      | None, [] => Some (close cur)
      | _, _ => None
      end
  | String c rest =>
      match cls with
      | Some acc =>
          match c with
          | "]"%char => parse rest ncap None (push (Class acc) cur) stack
          | "\"%char =>
              match rest with
              | String "d"%char rest' => parse rest' ncap (Some (acc ++ digit)%list) cur stack
              | _ => None
              end
          | _ => parse rest ncap (Some (acc ++ [(c, c)])%list) cur stack
          end
      | None =>
          match c with
          | "^"%char => parse rest ncap None (push Bol cur) stack
          | "$"%char => parse rest ncap None (push Eol cur) stack
          | "["%char => parse rest ncap (Some []) cur stack
          | "\"%char =>
              match rest with
              | String "d"%char rest' => parse rest' ncap None (push (Class digit) cur) stack
              | _ => None
              end
          | "("%char =>
              match rest with
              | String "?"%char (String ":"%char rest') =>
                  parse rest' ncap None (None, []) (cur :: stack)
              | _ => parse rest (S ncap) None (Some (S ncap), []) (cur :: stack)
              end
          | ")"%char =>
              match stack with
              | parent :: stack' => parse rest ncap None (push (close cur) parent) stack'
              | [] => None
              end
          | "+"%char =>
              match snd cur with
              | Class x :: before => parse rest ncap None (fst cur, Plus x :: before) stack
              | _ => None
              end
          | "?"%char =>
              match snd cur with
              | x :: before => parse rest ncap None (fst cur, Opt x :: before) stack
              | [] => None
              end
          | _ => parse rest ncap None (push (Lit c) cur) stack
          end
      end
  end.

(** [regexp.Compile] *)
Definition Compile (pat : string) : option Regexp :=
  parse pat 0 None (None, []) [].

(** [regexp.MustCompile] panics, at package initialisation, on a
    pattern that does not compile; the model then yields the
    expression that matches nothing. *)
Definition MustCompile (pat : string) : Regexp :=
  match Compile pat with
  | Some r => r
  | None => Class []
  end.

(** [re.NumSubexp()] *)
Fixpoint NumSubexp (r : Regexp) : nat :=
  match r with
  | Opt r' => NumSubexp r'
  | Cat r1 r2 => (NumSubexp r1 + NumSubexp r2)%nat
  | Cap _ r' => S (NumSubexp r')
  | _ => O
  end.

(** ** Matching *)

(** The text of each group; a group that took no part in the match
    has the empty text, as in the result of [FindStringSubmatch]. *)
Definition caps : Type := nat -> string.

Definition no_caps : caps := fun _ => EmptyString.

Definition set_cap (n : nat) (txt : string) (c : caps) : caps :=
  fun i => if Nat.eqb i n then txt else c i.

Section Matcher.
Context {A : Type}.

(** [x*] after the first [x] of an [x+]: as many as possible first. *)
Fixpoint star (cls : CharClass) (pos : nat) (s : string)
         (k : nat -> string -> option A) : option A :=
  match s with
  | String a s' =>
      if in_class cls a then
        match star cls (S pos) s' k with
        | Some res => Some res
        | None => k pos s
        end
      else k pos s
  | EmptyString => k pos s
  end.

(** A backtracking matcher in continuation-passing style, with the
    leftmost-first preference of Go's [regexp]: [pos] is the offset
    of [s] in the whole text, [k] matches what follows. *)
Fixpoint rmatch (r : Regexp) (pos : nat) (s : string) (c : caps)
         (k : nat -> string -> caps -> option A) : option A :=
  match r with
  | Empty => k pos s c
  | Bol => if Nat.eqb pos 0 then k pos s c else None
  | Eol => match s with EmptyString => k pos s c | _ => None end
  | Lit a =>
      match s with
      | String b s' => if Ascii.eqb a b then k (S pos) s' c else None
      | EmptyString => None
      end
  | Class cls =>
      match s with
      | String b s' => if in_class cls b then k (S pos) s' c else None
      | EmptyString => None
      end
  | Plus cls =>
      match s with
      | String b s' =>
          if in_class cls b then star cls (S pos) s' (fun p t => k p t c) else None
      | EmptyString => None
      end
  | Opt r' =>
      match rmatch r' pos s c k with
      | Some res => Some res
      | None => k pos s c
      end
  | Cat r1 r2 => rmatch r1 pos s c (fun p t c' => rmatch r2 p t c' k)
  | Cap n r' =>
      rmatch r' pos s c
             (fun p t c' => k p t (set_cap n (substring 0 (p - pos) s) c'))
  end.
End Matcher.

(** The leftmost match: the start offsets are tried from left to
    right, the whole match being group 0. *)
Fixpoint find (r : Regexp) (pos : nat) (s : string) : option caps :=
  match rmatch (Cap 0 r) pos s no_caps (fun _ _ c => Some c) with
  | Some c => Some c
  | None =>
      match s with
      | String _ s' => find r (S pos) s'
      | EmptyString => None
      end
  end.

(** [re.Match(b)] *)
Definition Match (r : Regexp) (b : string) : bool :=
  match find r 0 b with
  | Some _ => true
  | None => false
  end.

(** [re.FindStringSubmatch(s)]: the whole match and the text of each
    group, or [nil] when there is no match. *)
Definition FindStringSubmatch (r : Regexp) (s : string) : list string :=
  match find r 0 s with
  | Some c => map c (seq 0 (S (NumSubexp r)))
  | None => []
  end.

End regexp.

(* ================================================================== *)
(** * The grammar of the accepted text *)

(** The pattern pieces, byte for byte as in the source (a Go
    interpreted string writes the backslash twice). *)
Definition rStart   : string := "^P".
Definition rDays    : string := "(\d+D)?".
Definition rTime    : string := "(?:T".
Definition rHours   : string := "(\d+H)?".
Definition rMinutes : string := "(\d+M)?".
Definition rSeconds : string := "([\d.]+S)?".
Definition rEnd     : string := ")?$".

Definition xmlDurationRegex : regexp.Regexp :=
  regexp.MustCompile (rStart ++ rDays ++ rTime ++ rHours ++ rMinutes ++ rSeconds ++ rEnd).

(* ================================================================== *)
(** * parseDuration *)

(** The fields of the grammar, to name the one whose conversion failed. *)
Inductive Field : Type := Days | Hours | Minutes | Seconds.

(** The errors of [parseDuration], one constructor per message. *)
Inductive ParseError : Type :=
| ErrTooShort
    (* "At least one number and designator are required" *)
| ErrNegative
    (* "Duration cannot be negative" *)
| ErrFormat
    (* "Duration must be in the format: P[nD][T[nH][nM][nS]]" *)
| ErrField (f : Field) (cause : strconv.NumError).
    (* "Error parsing Days: ...", "Error parsing Hours: ...", ... *)

(** The pair [(time.Duration, error)] the function returns: either a
    duration with a nil error, or an error (beside which the code
    returns the zero duration). *)
Inductive result : Type :=
| Ok (d : Z)
| Err (e : ParseError).

(** [time.Hour], [time.Minute] and [time.Second] of package [time]. *)
Definition time_Second : Z := 1000000000.
Definition time_Minute : Z := 60 * time_Second.
Definition time_Hour   : Z := 60 * time_Minute.

(** [parts[i]]; the indices used are within the five elements a match
    of [xmlDurationRegex] yields. *)
Definition part (parts : list string) (i : nat) : string :=
  nth i parts EmptyString.

(** [func parseDuration(str string) (time.Duration, error)].  The sums
    and products are those of [int64]. *)
Definition parseDuration (str : string) : result :=
  if len str <? 3 then Err ErrTooShort
  else if strings.Contains str "-" then Err ErrNegative
  else if negb (regexp.Match xmlDurationRegex str) then Err ErrFormat
  else
    let parts := regexp.FindStringSubmatch xmlDurationRegex str in
    let total := 0 in
    match
      (if String.eqb (part parts 1) "" then inl total
       else match strconv.Atoi (strings.TrimRight (part parts 1) "D") with
            | inr e => inr (ErrField Days e)
            | inl days =>
                inl (to_int64 (total + to_int64 (to_int64 (days * time_Hour) * 24)))
            end)
    with
    | inr e => Err e
    | inl total =>
    match
      (if String.eqb (part parts 2) "" then inl total
       else match strconv.Atoi (strings.TrimRight (part parts 2) "H") with
            | inr e => inr (ErrField Hours e)
            | inl hours => inl (to_int64 (total + to_int64 (hours * time_Hour)))
            end)
    with
    | inr e => Err e
    | inl total =>
    match
      (if String.eqb (part parts 3) "" then inl total
       else match strconv.Atoi (strings.TrimRight (part parts 3) "M") with
            | inr e => inr (ErrField Minutes e)
            | inl mins => inl (to_int64 (total + to_int64 (mins * time_Minute)))
            end)
    with
    | inr e => Err e
    | inl total =>
    match
      (if String.eqb (part parts 4) "" then inl total
       else match strconv.ParseFloat (strings.TrimRight (part parts 4) "S") with
            | inr e => inr (ErrField Seconds e)
            | inl secs =>
                inl (to_int64
                       (total + float64_to_int64
                                  (float64_mul secs (strconv.float64_of_Z time_Second))))
            end)
    with
    | inr e => Err e
    | inl total => Ok total
    end end end end.

(* ================================================================== *)
(** * The methods of Duration *)

(** [xml.Name] and [xml.Attr] of package [encoding/xml]. *)
Record xml_Name : Type := { Space : string; Local : string }.
Record xml_Attr : Type := { Name : xml_Name; Value : string }.

Module Duration.

(** [func (d Duration) Nanoseconds() int64] *)
Definition Nanoseconds (d : Duration) : Z := d.

(** [func (d Duration) Truncate(m Duration) Duration].  Go's [%] on
    signed integers truncates toward zero ([Z.rem]); the subtraction
    is a 64-bit one. *)
Definition Truncate (d m : Duration) : Duration :=
  if m <=? 0 then d
  else to_int64 (d - Z.rem d m).

(** [func (d *Duration) UnmarshalXMLAttr(attr xml.Attr) error].  The
    receiver is a pointer: the function maps the duration stored
    there before the call to the one stored after it, beside the
    returned error ([None] for nil). *)
Definition UnmarshalXMLAttr (d : Duration) (attr : xml_Attr)
  : Duration * option ParseError :=
  match parseDuration (Value attr) with
  | Err err => (d, Some err)
  | Ok dur => (dur, None)
  end.

(** [func (d *Duration) String() string].  The inner block yields
    [inl s] when it has executed [return s] and [inr w] when control
    reaches the sign handling. *)
Definition String (d : Duration) : outcome string :=
  let w := buf_cap in
  let u := to_uint64 d in
  let neg := d <? 0 in
  let u := if neg then to_uint64 (- u) else u in
  run (
    r <- (if u <? to_uint64 time_Second then
            let prec := 0 in
            let w := w - 1 in
            store buf_cap w "S"%char ;;;
            let w := w - 1 in
            if u =? 0 then ret (inl "PT0S")
            else
              l <- slice_to w ;;
              wu <- fmtFrac l u prec ;;
              let '(w, u) := wu in
              l <- slice_to w ;;
              w <- fmtInt l u ;;
              ret (inr w)
          else
            let w := w - 1 in
            store buf_cap w "S"%char ;;;
            l <- slice_to w ;;
            wu <- fmtFrac l u 9 ;;
            let '(w, u) := wu in
            l <- slice_to w ;;
            w <- fmtInt l (u mod 60) ;;
            let u := u / 60 in
            if 0 <? u then
              let w := w - 1 in
              store buf_cap w "M"%char ;;;
              l <- slice_to w ;;
              w <- fmtInt l (u mod 60) ;;
              let u := u / 60 in
              if 0 <? u then
                let w := w - 1 in
                store buf_cap w "H"%char ;;;
                l <- slice_to w ;;
                w <- fmtInt l u ;;
                ret (inr w)
              else ret (inr w)
            else ret (inr w)) ;;
    match r with
    | inl s => ret s
    | inr w =>
        w <- (if neg
              then store buf_cap (w - 1) "-"%char ;;; ret (w - 1)
              else ret w) ;;
        s <- string_from w ;;
        ret ("PT" ++ s)
    end).

(** [func (d Duration) MarshalXMLAttr(name xml.Name) (xml.Attr, error)];
    the error is always nil. *)
Definition MarshalXMLAttr (d : Duration) (name : xml_Name) : outcome xml_Attr :=
  match String d with
  | Done s => Done {| Name := name; Value := s |}
  | Panic => Panic
  | OutOfFuel => OutOfFuel
  end.

End Duration.

(* ================================================================== *)
(** * Vocabulary of the statements *)

(** What [parseDuration] makes of the text [String] produced. *)
Definition parse_back (d : Duration) : option result :=
  match Duration.String d with
  | Done s => Some (parseDuration s)
  | _ => None
  end.

(** The byte the second [w--] of the sub-second branch skips over. *)
Definition NUL : string := String zero "".

(** [safe n tail m Q]: started on a buffer of the declared size whose
    bytes from index [n] on are [tail], [m] runs to completion without a
    panic and within its iteration budget, leaves the buffer at that
    size and those bytes in place, and returns a value satisfying [Q]. *)
Definition safe (n : Z) (tail : list ascii) {A} (m : M A) (Q : A -> Prop) : Prop :=
  forall b : buffer,
    List.length b = Z.to_nat buf_cap ->
    skipn (Z.to_nat n) b = tail ->
    exists a b',
      m b = Done (a, b') /\
      List.length b' = Z.to_nat buf_cap /\
      skipn (Z.to_nat n) b' = tail /\
      Q a.

(** The part of [String] that writes the fields: it either returns
    ["PT0S"] at once, for the zero duration only, or leaves the cursor
    at least eight bytes into the buffer, so that the sign still fits. *)
Definition fields_post (u : Z) (r : string + Z) : Prop :=
  match r with
  | inl s => s = "PT0S" /\ u = 0
  | inr w => 8 <= w <= 31
  end.

(** Every byte of [s] belongs to the class. *)
Fixpoint all_in (cls : regexp.CharClass) (s : string) : bool :=
  match s with
  | EmptyString => true
  | String a s' => regexp.in_class cls a && all_in cls s'
  end.

(** [denote r pos s1 s2 c c']: at offset [pos], followed by the text
    [s2], the expression [r] can match the text [s1], turning the
    group texts [c] into [c']. *)
Fixpoint denote (r : regexp.Regexp) (pos : nat) (s1 s2 : string)
         (c c' : regexp.caps) : Prop :=
  match r with
  | regexp.Empty => s1 = "" /\ c' = c
  | regexp.Bol => pos = O /\ s1 = "" /\ c' = c
  | regexp.Eol => s1 = "" /\ s2 = "" /\ c' = c
  | regexp.Lit a => s1 = String a "" /\ c' = c
  | regexp.Class cls =>
      exists a, regexp.in_class cls a = true /\ s1 = String a "" /\ c' = c
  | regexp.Plus cls => s1 <> "" /\ all_in cls s1 = true /\ c' = c
  | regexp.Opt r' => denote r' pos s1 s2 c c' \/ (s1 = "" /\ c' = c)
  | regexp.Cat r1 r2 =>
      exists a b c1,
        s1 = a ++ b /\
        denote r1 pos a (b ++ s2) c c1 /\
        denote r2 (pos + String.length a) b s2 c1 c'
  | regexp.Cap n r' =>
      exists c0, denote r' pos s1 s2 c c0 /\ c' = regexp.set_cap n s1 c0
  end.

(** The class [[\d.]] of the seconds field. *)
Definition digit_or_dot : regexp.CharClass :=
  [("0"%char, "9"%char); ("."%char, "."%char)].

(** A field as it is written: a non-empty run of bytes of the class
    followed by the designator. *)
Definition rField (n : nat) (cls : regexp.CharClass) (des : ascii) : regexp.Regexp :=
  regexp.Opt (regexp.Cap n (regexp.Cat (regexp.Plus cls) (regexp.Lit des))).

(** A field is absent, or is a non-empty run of bytes of its class
    followed by its designator. *)
Definition field (cls : regexp.CharClass) (des : ascii) (x : string) : Prop :=
  x = "" \/
  exists body, body <> "" /\ all_in cls body = true /\ x = body ++ String des "".

(** [P], then the optional days field, then optionally [T] followed by
    the optional hours, minutes and seconds fields in this order. *)
Definition duration_text (str dd hh mm ss : string) : Prop :=
  field regexp.digit "D" dd /\
  field regexp.digit "H" hh /\
  field regexp.digit "M" mm /\
  field digit_or_dot "S" ss /\
  ((str = "P" ++ dd /\ hh = "" /\ mm = "" /\ ss = "") \/
   str = "P" ++ dd ++ "T" ++ hh ++ mm ++ ss).

(** The number of ['.'] bytes in a text. *)
Fixpoint count_dots (s : string) : nat :=
  match s with
  | EmptyString => O
  | String c s' => ((if Ascii.eqb c "." then 1 else 0) + count_dots s')%nat
  end.

(** Whether a text has a decimal digit. *)
Fixpoint has_digit (s : string) : bool :=
  match s with
  | EmptyString => false
  | String c s' => strconv.is_digit c || has_digit s'
  end.

(** The digits of a text, in their order. *)
Fixpoint digits_of (s : string) : string :=
  match s with
  | EmptyString => EmptyString
  | String c s' =>
      if strconv.is_digit c then String c (digits_of s') else digits_of s'
  end.

(** The number of digits behind the first ['.'] of a text, none when
    it has no ['.']. *)
Fixpoint decimals (s : string) : nat :=
  match s with
  | EmptyString => O
  | String c s' =>
      if Ascii.eqb c "." then String.length (digits_of s') else decimals s'
  end.

(** The number a field of digits denotes, zero for an absent field. *)
Definition field_number (des : ascii) (x : string) : Z :=
  if String.eqb x "" then 0
  else strconv.decimal 0 (strings.TrimRight x (String des "")).

(** [math.MaxInt], the largest [int], where [int] has 64 bits. *)
Definition MaxInt : Z := int64_max.

(** An integer field whose number is within [int]. *)
Definition int_field_fits (des : ascii) (x : string) : Prop :=
  field_number des x <= MaxInt.

(** A seconds field that is absent, or is a numeral within [float64]:
    at most one ['.'], at least one digit, and a value, the number its
    digits make over [10] to the number of its decimals, below
    [2^1024 - 2^970], where rounding to [float64] gives an infinity. *)
Definition seconds_field_plain (x : string) : Prop :=
  x = "" \/
  ((count_dots x <= 1)%nat /\ has_digit x = true /\
   strconv.decimal 0 (digits_of x) <
     (2 ^ 1024 - 2 ^ 970) * 10 ^ Z.of_nat (decimals x)).

(** A run of [n] zero digits. *)
Fixpoint zeros (n : nat) : string :=
  match n with
  | O => EmptyString
  | S n' => String "0" (zeros n')
  end.

(** The buffer whose first [w] bytes are still the zero bytes it was
    declared with and whose bytes from the cursor [w] on are [txt]. *)
Definition buf_of (w : Z) (txt : string) : buffer :=
  (repeat zero (Z.to_nat w) ++ list_ascii_of_string txt)%list.

(** [s] is the decimal numeral of [v]: digits, not empty, without a
    leading zero unless it is the single digit. *)
Definition numeral (v : Z) (s : string) : Prop :=
  strconv.all_digits s = true /\
  strconv.decimal 0 s = v /\
  match s with
  | EmptyString => False
  | String c r => c <> "0"%char \/ r = ""
  end.

(** [f] is the fraction [r / 10^p] as [fmtFrac] writes it: nothing
    when [r] is zero, else a point and the [p] decimals of [r] without
    their trailing zeros. *)
Definition fraction (p : nat) (r : Z) (f : string) : Prop :=
  (r = 0 /\ f = "") \/
  (exists ds c,
      f = "." ++ ds ++ String c "" /\
      strconv.all_digits (ds ++ String c "") = true /\
      c <> "0"%char /\
      (String.length (ds ++ String c "") <= p)%nat /\
      strconv.decimal 0 (ds ++ String c "") *
        10 ^ Z.of_nat (p - String.length (ds ++ String c "")) = r).

(** The hours and minutes fields [String] writes for [q] whole
    minutes: none when [q] is zero; else the minutes [q mod 60], behind
    the hours [q / 60] when these are not zero. *)
Definition hours_minutes (q : Z) (hm : string) : Prop :=
  (q = 0 /\ hm = "") \/
  (0 < q /\
   exists hs ms,
     hm = hs ++ ms ++ "M" /\
     numeral (q mod 60) ms /\
     ((q / 60 = 0 /\ hs = "") \/
      (0 < q / 60 /\ exists h, hs = h ++ "H" /\ numeral (q / 60) h))).

(** The text of a list of pieces, each a run of bytes and the
    designator that ends it. *)
Fixpoint flatten (l : list (string * ascii)) : string :=
  match l with
  | [] => ""
  | (body, des) :: rest => body ++ String des (flatten rest)
  end.

(** The piece a field makes: none when it is absent. *)
Definition piece (des : ascii) (x : string) : list (string * ascii) :=
  if String.eqb x "" then []
  else [(strings.TrimRight x (String des ""), des)].

(** The run of bytes that ends with the designator [des], if any. *)
Fixpoint lookup (des : ascii) (l : list (string * ascii)) : option string :=
  match l with
  | [] => None
  | (body, d) :: rest => if Ascii.eqb d des then Some body else lookup des rest
  end.

(** Pieces over the bytes [0-9.] with designators outside them. *)
Definition good_piece (p : string * ascii) : Prop :=
  all_in digit_or_dot (fst p) = true /\ regexp.in_class digit_or_dot (snd p) = false.


(** The [float64] that is the integer [z], for [0 < z < 2^53]: the
    mantissa of 53 bits and the exponent that goes with it. *)
Definition exact_float (z : Z) : strconv.float64 :=
  S754_finite false (Z.to_pos (z * 2 ^ (53 - Zdigits2 z))) (Zdigits2 z - 53).

(** The [float64] that holds the integer [z] exactly, for
    [|z| < 2^53]. *)
Definition signed_float (z : Z) : strconv.float64 :=
  match z with
  | Z0 => S754_zero false
  | Zpos _ => exact_float z
  | Zneg p => SFopp (exact_float (Zpos p))
  end.

(* ================================================================== *)
(** * The floating-point accessors *)

(** [x + y] and [x / y] on [float64]. *)
Definition float64_add (x y : strconv.float64) : strconv.float64 :=
  SFadd strconv.prec strconv.emax x y.

Definition float64_div (x y : strconv.float64) : strconv.float64 :=
  SFdiv strconv.prec strconv.emax x y.

(** The methods that return a [float64].  Go's [/] and [%] on [int64]
    truncate toward zero ([Z.quot], [Z.rem]); [float64(x)] rounds the
    integer to the nearest [float64]; the constants [1e9], [60*1e9] and
    [60*60*1e9] are exact. *)
Module Float64.

(** [func (d Duration) Seconds() float64] *)
Definition Seconds (d : Duration) : strconv.float64 :=
  let sec := Z.quot d Second in
  let nsec := Z.rem d Second in
  float64_add (strconv.float64_of_Z sec)
              (float64_div (strconv.float64_of_Z nsec)
                           (strconv.float64_of_Z (10 ^ 9))).

(** [func (d Duration) Minutes() float64] *)
Definition Minutes (d : Duration) : strconv.float64 :=
  let min := Z.quot d Minute in
  let nsec := Z.rem d Minute in
  float64_add (strconv.float64_of_Z min)
              (float64_div (strconv.float64_of_Z nsec)
                           (strconv.float64_of_Z (60 * 10 ^ 9))).

(** [func (d Duration) Hours() float64] *)
Definition Hours (d : Duration) : strconv.float64 :=
  let hour := Z.quot d Hour in
  let nsec := Z.rem d Hour in
  float64_add (strconv.float64_of_Z hour)
              (float64_div (strconv.float64_of_Z nsec)
                           (strconv.float64_of_Z (60 * 60 * 10 ^ 9))).

End Float64.

(* ================================================================== *)
(** * Properties *)

(** ** Machine integers *)

Ltac range_lia :=
  unfold is_int64, is_uint64, int64_min, int64_max in *; lia.

Lemma to_int64_id (z : Z) : is_int64 z -> to_int64 z = z.
Proof.
  unfold is_int64, int64_min, int64_max, to_int64. intros H.
  rewrite Z.mod_small; lia.
Qed.

Lemma to_uint64_id (z : Z) : is_uint64 z -> to_uint64 z = z.
Proof.
  unfold is_uint64, to_uint64. intros H. apply Z.mod_small. exact H.
Qed.

(** ** Strings *)

Lemma append_nil_r (s : string) : s ++ "" = s.
Proof. induction s as [| a s IH]; simpl; [reflexivity | rewrite IH; reflexivity]. Qed.

Lemma append_assoc (s t u : string) : (s ++ t) ++ u = s ++ t ++ u.
Proof. induction s as [| a s IH]; simpl; [reflexivity | rewrite IH; reflexivity]. Qed.

Lemma length_append (s t : string) :
  String.length (s ++ t) = (String.length s + String.length t)%nat.
Proof. induction s as [| a s IH]; simpl; [reflexivity | rewrite IH; reflexivity]. Qed.

Lemma substring_prefix (s t : string) :
  substring 0 (String.length s) (s ++ t) = s.
Proof.
  induction s as [| a s IH]; simpl.
  - destruct t; reflexivity.
  - rewrite IH. reflexivity.
Qed.

(** ** Truncate *)

Lemma rem_between (d m : Z) :
  0 < m -> Z.min d 0 <= d - Z.rem d m <= Z.max d 0.
Proof.
  intros Hm.
  destruct (Z.le_gt_cases 0 d) as [Hd | Hd].
  - pose proof (Z.rem_bound_pos d m Hd Hm).
    pose proof (Z.rem_le d m Hd Hm). lia.
  - assert (Hd' : 0 <= - d) by lia.
    pose proof (Z.rem_bound_pos (- d) m Hd' Hm).
    pose proof (Z.rem_opp_l' d m).
    pose proof (Z.rem_le (- d) m Hd' Hm). lia.
Qed.

(** C8. [Truncate] leaves [d] unchanged when the unit [m] is zero or
    negative; for a positive unit it yields [m * (d ÷ m)], the multiple
    of [m] obtained by rounding [d] toward zero: it lies between zero
    and [d] and is less than [m] away from [d].  In particular
    truncating 90 seconds to the minute gives exactly 60 seconds. *)
Theorem Truncate_rounds_toward_zero (d m : Duration) :
  is_int64 d ->
  (m <= 0 -> Duration.Truncate d m = d) /\
  (0 < m ->
     Duration.Truncate d m = m * (d ÷ m) /\
     Z.abs (Duration.Truncate d m) <= Z.abs d /\
     Z.abs (d - Duration.Truncate d m) < m /\
     0 <= Duration.Truncate d m * d) /\
  Duration.Truncate (90 * Second) Minute = 60 * Second.
Proof.
  intros Hd. unfold Duration.Truncate. repeat split.
  - intros Hm. apply Z.leb_le in Hm. rewrite Hm. reflexivity.
  - destruct (Z.leb_spec m 0); [lia|].
    pose proof (rem_between d m H).
    rewrite to_int64_id by range_lia.
    pose proof (Z.quot_rem' d m). lia.
  - destruct (Z.leb_spec m 0); [lia|].
    pose proof (rem_between d m H).
    rewrite to_int64_id by range_lia. lia.
  - destruct (Z.leb_spec m 0); [lia|].
    pose proof (rem_between d m H).
    rewrite to_int64_id by range_lia.
    pose proof (Z.rem_opp_l' d m).
    destruct (Z.le_gt_cases 0 d) as [Hd' | Hd'].
    + pose proof (Z.rem_bound_pos d m Hd' H). lia.
    + pose proof (Z.rem_bound_pos (- d) m ltac:(lia) H). lia.
  - destruct (Z.leb_spec m 0); [lia|].
    pose proof (rem_between d m H).
    rewrite to_int64_id by range_lia. nia.
Qed.

Lemma Truncate_rounds_toward_zero_witness :
  Duration.Truncate (-90 * Second) Minute = Minute * ((-90 * Second) ÷ Minute) /\
  Duration.Truncate (-90 * Second) 0 = -90 * Second.
Proof.
  assert (H : is_int64 (-90 * Second)) by (vm_compute; split; discriminate).
  split.
  - apply (Truncate_rounds_toward_zero (-90 * Second) Minute H). reflexivity.
  - apply (Truncate_rounds_toward_zero (-90 * Second) 0 H). lia.
Defined.

(** ** UnmarshalXMLAttr *)

(** C10. [UnmarshalXMLAttr] is atomic on failure: when [parseDuration]
    rejects the attribute value the call returns that very error and the
    receiver keeps the duration it held before the call; the receiver is
    overwritten, and nil returned, only when parsing succeeds. *)
Theorem UnmarshalXMLAttr_atomic (d : Duration) (attr : xml_Attr) :
  (forall e, parseDuration (Value attr) = Err e ->
             Duration.UnmarshalXMLAttr d attr = (d, Some e)) /\
  (forall dur, parseDuration (Value attr) = Ok dur ->
               Duration.UnmarshalXMLAttr d attr = (dur, None)) /\
  (forall d', fst (Duration.UnmarshalXMLAttr d attr) = d' -> d' <> d ->
              parseDuration (Value attr) = Ok d' /\
              snd (Duration.UnmarshalXMLAttr d attr) = None).
Proof.
  unfold Duration.UnmarshalXMLAttr. split; [| split].
  - intros e He. rewrite He. reflexivity.
  - intros dur Hd. rewrite Hd. reflexivity.
  - intros d' Hfst Hneq.
    destruct (parseDuration (Value attr)) as [dur | e]; simpl in *.
    + subst d'. split; reflexivity.
    + congruence.
Qed.

Lemma UnmarshalXMLAttr_atomic_witness :
  Duration.UnmarshalXMLAttr 7 {| Name := {| Space := ""; Local := "duration" |};
                                 Value := "P1Y" |} = (7, Some ErrFormat) /\
  parseDuration "PT1M30S" = Ok 90000000000.
Proof.
  split.
  - apply (proj1 (UnmarshalXMLAttr_atomic 7 _)). reflexivity.
  - apply (proj2 (proj2 (UnmarshalXMLAttr_atomic 7
             {| Name := {| Space := ""; Local := "duration" |}; Value := "PT1M30S" |}))
             90000000000).
    + reflexivity.
    + discriminate.
Defined.

(** ** Rejected inputs *)

Lemma prefix_empty (s : string) : String.prefix "" s = true.
Proof. destruct s; reflexivity. Qed.

Lemma Contains_char (c : ascii) (s : string) :
  In c (list_ascii_of_string s) -> strings.Contains s (String c "") = true.
Proof.
  induction s as [| a s IH]; simpl.
  - intros [].
  - intros [Heq | Hin].
    + subst a. destruct (ascii_dec c c) as [_ | Hn]; [| congruence].
      rewrite prefix_empty. reflexivity.
    + rewrite (IH Hin). apply orb_true_r.
Qed.




(** C6. Each of the inputs [""], ["1H"], ["P-1D"], ["P1Y"] and
    ["PT1M1H"] makes [parseDuration] fail with an error of its
    validation stage, and none yields a duration: the first two fail
    the length check, the third the sign check, the last two the
    grammar check. *)
Theorem parseDuration_rejection_set :
  parseDuration "" = Err ErrTooShort /\
  parseDuration "1H" = Err ErrTooShort /\
  parseDuration "P-1D" = Err ErrNegative /\
  parseDuration "P1Y" = Err ErrFormat /\
  parseDuration "PT1M1H" = Err ErrFormat.
Proof. repeat split; vm_compute; reflexivity. Qed.

(** ** Formatting and parsing back, on the literal cases *)

(** C2, as the claim states it, fails: an hour and a half is rendered
    with its seconds field, not as ["PT1H30M"]. *)
Lemma String_hour_and_a_half_has_seconds :
  Duration.String (Hour + 30 * Minute) <> Done "PT1H30M".
Proof. vm_compute. discriminate. Qed.

(** C2 (amended). On the four literal cases formatting followed by
    parsing is the identity, tick for tick: [0] formats as ["PT0S"],
    ninety seconds as ["PT1M30S"], 3661 seconds as ["PT1H1M1S"], and an
    hour and a half as ["PT1H30M0S"], the seconds field being always
    written; each text parses back to the value it came from. *)
Theorem String_parseDuration_roundtrip_cases :
  (Duration.String 0 = Done "PT0S" /\ parse_back 0 = Some (Ok 0)) /\
  (Duration.String (90 * Second) = Done "PT1M30S" /\
   parse_back (90 * Second) = Some (Ok (90 * Second))) /\
  (Duration.String (3661 * Second) = Done "PT1H1M1S" /\
   parse_back (3661 * Second) = Some (Ok (3661 * Second))) /\
  (Duration.String (Hour + 30 * Minute) = Done "PT1H30M0S" /\
   parse_back (Hour + 30 * Minute) = Some (Ok (Hour + 30 * Minute))).
Proof. repeat split; vm_compute; reflexivity. Qed.

(** ** Formatting never leaves the buffer *)

Ltac cap_lia := unfold buf_cap in *; lia.

Lemma update_length (i : nat) (c : ascii) (b : buffer) :
  List.length (update i c b) = List.length b.
Proof.
  revert i. induction b as [| h t IH]; intros [| i]; simpl; auto.
Qed.

Lemma skipn_update (i : nat) (c : ascii) (b : buffer) :
  (i < List.length b)%nat -> skipn i (update i c b) = c :: skipn (S i) b.
Proof.
  revert i. induction b as [| h t IH]; intros [| i] Hi; simpl in *; try lia.
  - reflexivity.
  - apply IH. lia.
Qed.

(** A store below index [n] leaves the bytes from [n] on as they were. *)
Lemma skipn_update_above (i n : nat) (c : ascii) (b : buffer) :
  (i < n)%nat -> skipn n (update i c b) = skipn n b.
Proof.
  revert i n. induction b as [| h t IH]; intros [| i] [| n] Hi; simpl; try lia; auto.
  apply IH. lia.
Qed.

Lemma string_of_list_ascii_app (l1 l2 : list ascii) :
  string_of_list_ascii (l1 ++ l2)%list =
  string_of_list_ascii l1 ++ string_of_list_ascii l2.
Proof.
  induction l1 as [| a l1 IH]; simpl; [reflexivity | rewrite IH; reflexivity].
Qed.

(** The text from the cursor on ends with the bytes kept in place. *)
Lemma skipn_split (w n : nat) (b : buffer) :
  (w <= n)%nat -> skipn w b = (firstn (n - w) (skipn w b) ++ skipn n b)%list.
Proof.
  intros Hw. rewrite <- (firstn_skipn (n - w) (skipn w b)) at 1.
  rewrite skipn_skipn. replace (n - w + w)%nat with n by lia. reflexivity.
Qed.

Section Safe.

Variable n : Z.
Variable tail : list ascii.

Lemma safe_ret {A} (a : A) (Q : A -> Prop) : Q a -> safe n tail (ret a) Q.
Proof. intros Ha b Hb Ht. exists a, b. auto. Qed.

Lemma safe_bind {A B} (m : M A) (k : A -> M B) (Q : A -> Prop) (R : B -> Prop) :
  safe n tail m Q -> (forall a, Q a -> safe n tail (k a) R) ->
  safe n tail (bind m k) R.
Proof.
  intros Hm Hk b Hb Ht. unfold bind.
  destruct (Hm b Hb Ht) as (a & b' & -> & Hb' & Ht' & Ha).
  exact (Hk a Ha b' Hb' Ht').
Qed.

Lemma safe_weaken {A} (m : M A) (Q R : A -> Prop) :
  safe n tail m Q -> (forall a, Q a -> R a) -> safe n tail m R.
Proof.
  intros Hm HQR b Hb Ht. destruct (Hm b Hb Ht) as (a & b' & E & Hb' & Ht' & Ha).
  exists a, b'. auto.
Qed.

Lemma safe_store (len w : Z) (c : ascii) :
  0 <= w < len -> len <= n -> safe n tail (store len w c) (fun _ => True).
Proof.
  intros Hw Hn b Hb Ht. unfold store.
  replace ((0 <=? w) && (w <? len)) with true
    by (symmetry; apply andb_true_iff; split; [apply Z.leb_le | apply Z.ltb_lt]; lia).
  exists tt, (update (Z.to_nat w) c b).
  rewrite update_length, skipn_update_above by lia. auto.
Qed.

Lemma safe_slice_to (w : Z) :
  0 <= w <= buf_cap -> safe n tail (slice_to w) (fun l => l = w).
Proof.
  intros Hw b Hb Ht. unfold slice_to.
  replace ((0 <=? w) && (w <=? buf_cap)) with true
    by (symmetry; apply andb_true_iff; split; apply Z.leb_le; lia).
  exists w, b. auto.
Qed.

(** A write just below the cursor, as in [w--; buf[w] = c]. *)
Lemma safe_push (len w : Z) (c : ascii) :
  1 <= w <= len -> len <= n ->
  safe n tail (store len (w - 1) c ;;; ret (w - 1)) (fun w' => w' = w - 1).
Proof.
  intros Hw Hn. eapply safe_bind.
  - apply safe_store; lia.
  - intros _ _. apply safe_ret. reflexivity.
Qed.

Lemma safe_fmtFrac_loop (k : nat) :
  forall (len w : Z) (print : bool) (v : Z),
    Z.of_nat k <= w <= len -> len <= n ->
    safe n tail (fmtFrac_loop k len w print v)
         (fun r => w - Z.of_nat k <= fst (fst r) <= w /\
                   snd r = v / 10 ^ Z.of_nat k).
Proof.
  induction k as [| k IH]; intros len w print v Hw Hn.
  - apply safe_ret. simpl. rewrite Z.div_1_r. lia.
  - cbn [fmtFrac_loop].
    eapply safe_bind with (Q := fun w' => w - 1 <= w' <= w).
    + destruct (print || negb (v mod 10 =? 0)).
      * eapply safe_weaken; [apply safe_push; lia |]. simpl. intros; lia.
      * apply safe_ret. lia.
    + intros w' Hw'. eapply safe_weaken; [apply IH; lia |].
      intros [[w2 p2] v2]. cbn [fst snd]. intros [Hw2 Hv2]. split; [lia |].
      rewrite Hv2, Nat2Z.inj_succ, Z.pow_succ_r by lia.
      rewrite Z.div_div by lia. reflexivity.
Qed.

Lemma safe_fmtFrac (len v prec : Z) :
  0 <= prec -> prec + 1 <= len -> len <= n ->
  safe n tail (fmtFrac len v prec)
       (fun r => len - prec - 1 <= fst r <= len /\ snd r = v / 10 ^ prec).
Proof.
  intros Hp Hlen Hn. unfold fmtFrac.
  eapply safe_bind.
  - apply safe_fmtFrac_loop; lia.
  - intros [[w pr] v'] [Hw Hv]. simpl in Hw, Hv. rewrite Z2Nat.id in * by lia.
    eapply safe_bind with (Q := fun w' => w - 1 <= w' <= w).
    + destruct pr.
      * eapply safe_weaken; [apply safe_push; lia |]. simpl. intros; lia.
      * apply safe_ret. lia.
    + intros w' Hw'. apply safe_ret. simpl. split; [lia | exact Hv].
Qed.

Lemma fmtInt_loop_unfold (fuel : nat) (len w v : Z) :
  fmtInt_loop fuel len w v =
  if 0 <? v then
    match fuel with
    | O => fun _ => OutOfFuel
    | S fuel' =>
        store len (w - 1) (to_byte (v mod 10 + 48)) ;;;
        fmtInt_loop fuel' len (w - 1) (v / 10)
    end
  else ret w.
Proof. destruct fuel; reflexivity. Qed.

(** [k] iterations, hence [k] units of fuel and [k] bytes of room, are
    enough for a number of at most [k] decimal digits. *)
Lemma safe_fmtInt_loop (fuel : nat) :
  forall (k : nat) (len w v : Z),
    (k <= fuel)%nat -> 0 <= v < 10 ^ Z.of_nat k -> Z.of_nat k <= w <= len ->
    len <= n ->
    safe n tail (fmtInt_loop fuel len w v) (fun w' => w - Z.of_nat k <= w' <= w).
Proof.
  induction fuel as [| fuel IH]; intros k len w v Hk Hv Hw Hn;
    rewrite fmtInt_loop_unfold; destruct (Z.ltb_spec 0 v) as [Hpos | Hzero];
    try (apply safe_ret; lia).
  - assert (k = O) by lia. subst k. simpl in Hv. lia.
  - destruct k as [| k]; [simpl in Hv; lia |].
    rewrite Nat2Z.inj_succ, Z.pow_succ_r in Hv by lia.
    eapply safe_bind.
    + apply safe_store; lia.
    + intros _ _. eapply safe_weaken.
      * apply (IH k); [lia | | lia | lia].
        split; [apply Z.div_pos; lia | apply Z.div_lt_upper_bound; lia].
      * simpl. intros; lia.
Qed.

Lemma safe_fmtInt (k : nat) (len v : Z) :
  (1 <= k <= fmtInt_fuel)%nat -> 0 <= v < 10 ^ Z.of_nat k -> Z.of_nat k <= len ->
  len <= n ->
  safe n tail (fmtInt len v) (fun w' => len - Z.of_nat k <= w' <= len).
Proof.
  intros Hk Hv Hlen Hn. unfold fmtInt.
  destruct (Z.eqb_spec v 0).
  - eapply safe_weaken; [apply safe_push; lia |]. simpl. intros; lia.
  - apply safe_fmtInt_loop; lia.
Qed.

(** The sign handling and the final conversion to a string: the text
    is ["PT"], the sign if any, what the fields wrote, and the bytes
    kept in place. *)
Lemma safe_sign_and_prefix (neg : bool) (w : Z) :
  1 <= w <= n -> n <= buf_cap ->
  safe n tail
       (w' <- (if neg
               then store buf_cap (w - 1) "-"%char ;;; ret (w - 1)
               else ret w) ;;
        s <- string_from w' ;;
        ret ("PT" ++ s))
       (fun t => exists s,
            t = "PT" ++ (if neg then "-" else "") ++ s ++ string_of_list_ascii tail).
Proof.
  intros Hw Hn b Hb Ht. destruct neg; unfold bind, store, string_from, ret.
  - replace ((0 <=? w - 1) && (w - 1 <? buf_cap)) with true
      by (symmetry; apply andb_true_iff; split; [apply Z.leb_le | apply Z.ltb_lt]; lia).
    replace ((0 <=? w - 1) && (w - 1 <=? buf_cap)) with true
      by (symmetry; apply andb_true_iff; split; apply Z.leb_le; lia).
    eexists _, _. split; [reflexivity |]. rewrite update_length.
    split; [exact Hb |].
    split; [rewrite skipn_update_above by lia; exact Ht |].
    rewrite skipn_update by lia.
    replace (S (Z.to_nat (w - 1))) with (Z.to_nat w) by lia.
    rewrite (skipn_split (Z.to_nat w) (Z.to_nat n) b) by lia.
    rewrite Ht. cbn [string_of_list_ascii]. rewrite string_of_list_ascii_app.
    eexists. reflexivity.
  - replace ((0 <=? w) && (w <=? buf_cap)) with true
      by (symmetry; apply andb_true_iff; split; apply Z.leb_le; lia).
    eexists _, _. split; [reflexivity |]. split; [exact Hb |]. split; [exact Ht |].
    rewrite (skipn_split (Z.to_nat w) (Z.to_nat n) b) by lia.
    rewrite Ht, string_of_list_ascii_app.
    eexists. reflexivity.
Qed.

End Safe.

Lemma new_buf_length : List.length new_buf = Z.to_nat buf_cap.
Proof. apply repeat_length. Qed.

(** A whole run, on the fresh buffer. *)
Lemma safe_run {A} (m : M A) (Q : A -> Prop) :
  safe buf_cap [] m Q -> exists a, run m = Done a /\ Q a.
Proof.
  intros Hm. unfold run.
  destruct (Hm new_buf new_buf_length eq_refl) as (a & b' & -> & _ & _ & Ha).
  exists a. auto.
Qed.

(** The magnitude [String] formats. *)
Lemma magnitude (d : Duration) :
  is_int64 d ->
  (if d <? 0 then to_uint64 (- to_uint64 d) else to_uint64 d) = Z.abs d.
Proof.
  intros Hd. unfold to_uint64. destruct (Z.ltb_spec d 0) as [Hneg | Hpos].
  - assert (Hm : d mod 2 ^ 64 = d + 2 ^ 64).
    { symmetry. apply (Z.mod_unique d (2 ^ 64) (-1)); range_lia. }
    rewrite Hm. symmetry. apply (Z.mod_unique _ (2 ^ 64) (-1)); range_lia.
  - rewrite Z.mod_small; range_lia.
Qed.

(** Every call of [String] returns: the text begins with ["PT"], and
    for a negative duration the sign comes next. *)
Lemma String_shape (d : Duration) :
  is_int64 d ->
  exists s, Duration.String d = Done ("PT" ++ (if d <? 0 then "-" else "") ++ s).
Proof.
  intros Hd. unfold Duration.String. rewrite (magnitude d Hd).
  set (u := Z.abs d).
  assert (Hu : 0 <= u < 2 ^ 64) by (subst u; range_lia).
  assert (Hu0 : u = 0 -> (d <? 0) = false) by (intros H0; apply Z.ltb_ge; lia).
  change (to_uint64 time_Second) with 1000000000.
  match goal with
  | |- exists s, run ?m = Done _ =>
      destruct (safe_run m (fun t => exists s, t = "PT" ++ (if d <? 0 then "-" else "") ++ s))
        as (t & Ht & s & ->); [| exists s; exact Ht]
  end.
  eapply safe_bind with (Q := fields_post u).
  - destruct (Z.ltb_spec u 1000000000) as [Hsmall | Hbig].
    + (* below one second *)
      eapply safe_bind; [apply safe_store; cap_lia | intros _ _].
      destruct (Z.eqb_spec u 0); [apply safe_ret; split; [reflexivity | assumption] |].
      eapply safe_bind; [apply safe_slice_to; cap_lia | intros l ->].
      eapply safe_bind; [apply safe_fmtFrac; cap_lia |].
      intros [w1 u1] [Hw1 Hu1]. cbn [fst snd] in Hw1, Hu1. cbv beta iota.
      rewrite Z.pow_0_r, Z.div_1_r in Hu1. subst u1.
      eapply safe_bind; [apply safe_slice_to; cap_lia | intros l ->].
      eapply safe_bind;
        [apply (safe_fmtInt _ _ 9); [unfold fmtInt_fuel; lia | lia | cap_lia | cap_lia] |].
      intros w2 Hw2. apply safe_ret. unfold fields_post. cap_lia.
    + (* one second or more *)
      eapply safe_bind; [apply safe_store; cap_lia | intros _ _].
      eapply safe_bind; [apply safe_slice_to; cap_lia | intros l ->].
      eapply safe_bind; [apply safe_fmtFrac; cap_lia |].
      intros [w1 u1] [Hw1 Hu1]. cbn [fst snd] in Hw1, Hu1. cbv beta iota.
      assert (Hu1' : 0 <= u1 < 18446744074).
      { subst u1. split; [apply Z.div_pos; lia | apply Z.div_lt_upper_bound; lia]. }
      assert (Hmin : 0 <= u1 / 60 < 307445735).
      { split; [apply Z.div_pos; lia | apply Z.div_lt_upper_bound; lia]. }
      assert (Hhour : 0 <= u1 / 60 / 60 < 10 ^ 7).
      { split; [apply Z.div_pos; lia | apply Z.div_lt_upper_bound; lia]. }
      pose proof (Z.mod_pos_bound u1 60 ltac:(lia)) as Hs60.
      pose proof (Z.mod_pos_bound (u1 / 60) 60 ltac:(lia)) as Hm60.
      eapply safe_bind; [apply safe_slice_to; cap_lia | intros l ->].
      eapply safe_bind;
        [apply (safe_fmtInt _ _ 2); [unfold fmtInt_fuel; lia | lia | cap_lia | cap_lia] |].
      intros w2 Hw2.
      destruct (0 <? u1 / 60); [| apply safe_ret; unfold fields_post; cap_lia].
      eapply safe_bind; [apply safe_store; cap_lia | intros _ _].
      eapply safe_bind; [apply safe_slice_to; cap_lia | intros l ->].
      eapply safe_bind;
        [apply (safe_fmtInt _ _ 2); [unfold fmtInt_fuel; lia | lia | cap_lia | cap_lia] |].
      intros w3 Hw3.
      destruct (0 <? u1 / 60 / 60); [| apply safe_ret; unfold fields_post; cap_lia].
      eapply safe_bind; [apply safe_store; cap_lia | intros _ _].
      eapply safe_bind; [apply safe_slice_to; cap_lia | intros l ->].
      eapply safe_bind;
        [apply (safe_fmtInt _ _ 7); [unfold fmtInt_fuel; lia | lia | cap_lia | cap_lia] |].
      intros w4 Hw4. apply safe_ret. unfold fields_post. cap_lia.
  - intros [s | w] Hr; unfold fields_post in Hr.
    + destruct Hr as [-> H0]. rewrite (Hu0 H0).
      apply safe_ret. exists "0S". reflexivity.
    + eapply safe_weaken; [apply safe_sign_and_prefix; cap_lia |].
      intros t (s & ->). exists s. cbn [string_of_list_ascii].
      rewrite append_nil_r. reflexivity.
Qed.

(** C9. Formatting is total: for every signed 64-bit tick count
    [String] returns a text (beginning with ["PT"]); no store into the
    32-byte buffer and no slicing of it by [String], [fmtFrac] or
    [fmtInt] is out of bounds, and the digit loop of [fmtInt] ends
    within its budget. *)
Theorem String_total (d : Duration) :
  is_int64 d -> exists s, Duration.String d = Done ("PT" ++ s).
Proof.
  intros Hd. destruct (String_shape d Hd) as [s Hs].
  eexists. exact Hs.
Qed.

Lemma String_total_witness :
  exists s, Duration.String int64_min = Done ("PT" ++ s).
Proof.
  apply (String_total int64_min). unfold is_int64, int64_min, int64_max. lia.
Defined.

(** C5, on the code.  For every negative duration the sign is written
    into the buffer and ["PT"] is then prepended to the buffer's text,
    so the ['-'] follows the prefix instead of leading the string; minus
    one second gives ["PT-1S"], not ["-PT1S"]. *)
Theorem String_negative_sign_after_prefix (d : Duration) :
  is_int64 d -> d < 0 ->
  (exists s, Duration.String d = Done ("PT-" ++ s)) /\
  Duration.String (- Second) = Done "PT-1S".
Proof.
  intros Hd Hneg. split.
  - destruct (String_shape d Hd) as [s Hs].
    apply Z.ltb_lt in Hneg. rewrite Hneg in Hs. exists s. exact Hs.
  - vm_compute. reflexivity.
Qed.

Lemma String_negative_sign_after_prefix_witness :
  (exists s, Duration.String (-1) = Done ("PT-" ++ s)) /\
  Duration.String (- Second) = Done "PT-1S".
Proof.
  apply (String_negative_sign_after_prefix (-1)); range_lia.
Defined.

(** ** Formatting below one second *)

(** The first store of the sub-second branch, on the fresh buffer. *)
Lemma run_after_store {A B} (w : Z) (c : ascii) (k : unit -> M A) (fin : A -> M B) :
  0 <= w < buf_cap ->
  run (bind (bind (store buf_cap w c) k) fin) =
  match bind (k tt) fin (update (Z.to_nat w) c new_buf) with
  | Done (a, _) => Done a
  | Panic => Panic
  | OutOfFuel => OutOfFuel
  end.
Proof.
  intros Hw. unfold run, bind, store.
  replace ((0 <=? w) && (w <? buf_cap)) with true
    by (symmetry; apply andb_true_iff; split; [apply Z.leb_le | apply Z.ltb_lt]; lia).
  reflexivity.
Qed.

(** C1, on the code.  For a duration of less than a second, other than
    zero, [String] does not write a fraction: with [prec] left at zero
    [fmtFrac] writes nothing and [fmtInt] writes the whole nanosecond
    count, and the byte between the count and the ['S'], skipped by the
    second [w--], is never written.  Half a second gives
    ["PT500000000"], a NUL byte and ["S"], not ["PT0.5S"].  The zero
    duration does give ["PT0S"]. *)
Theorem String_subsecond_renders_tick_count (d : Duration) :
  is_int64 d -> 0 < Z.abs d < Second ->
  (exists t, Duration.String d = Done ("PT" ++ t ++ NUL ++ "S")) /\
  Duration.String (500 * Millisecond) = Done ("PT500000000" ++ NUL ++ "S") /\
  Duration.String (500 * Millisecond) <> Done "PT0.5S" /\
  Duration.String 0 = Done "PT0S".
Proof.
  intros Hd Habs.
  split;
    [| split; [vm_compute; reflexivity
              | split; [vm_compute; discriminate | vm_compute; reflexivity]]].
  unfold Duration.String. rewrite (magnitude d Hd).
  set (u := Z.abs d) in *. change Second with 1000000000 in Habs.
  change (to_uint64 time_Second) with 1000000000.
  destruct (Z.ltb_spec u 1000000000) as [_ | Hbig]; [| lia].
  destruct (Z.eqb_spec u 0) as [H0 | _]; [lia |].
  rewrite run_after_store by cap_lia. cbv beta.
  match goal with
  | |- exists t, match ?x with _ => _ end = _ =>
      lazymatch x with
      | ?m ?b =>
          assert (Hs : safe 30 [zero; "S"%char] m
                            (fun r => exists t, r = "PT" ++ t ++ NUL ++ "S"));
          [| destruct (Hs b) as (r & b' & Heq & _ & _ & t & ->);
             [rewrite update_length; apply new_buf_length
             | reflexivity
             | rewrite Heq; exists t; reflexivity]]
      end
  end.
  eapply safe_bind
    with (Q := fun r => match r with inl _ => False | inr w => 1 <= w <= 30 end).
  - eapply safe_bind; [apply safe_slice_to; cap_lia | intros l ->].
    eapply safe_bind; [apply safe_fmtFrac; cap_lia |].
    intros [w1 u1] [Hw1 Hu1]. cbn [fst snd] in Hw1, Hu1. cbv beta iota.
    rewrite Z.pow_0_r, Z.div_1_r in Hu1. subst u1.
    eapply safe_bind; [apply safe_slice_to; cap_lia | intros l ->].
    eapply safe_bind;
      [apply (safe_fmtInt _ _ 9); [unfold fmtInt_fuel; lia | lia | cap_lia | cap_lia] |].
    intros w2 Hw2. apply safe_ret. cap_lia.
  - intros [s | w] Hr; [destruct Hr |].
    eapply safe_weaken; [apply safe_sign_and_prefix; cap_lia |].
    intros t (s & ->). exists ((if d <? 0 then "-" else "") ++ s).
    rewrite append_assoc. reflexivity.
Qed.

Lemma String_subsecond_renders_tick_count_witness :
  (exists t, Duration.String (500 * Millisecond) = Done ("PT" ++ t ++ NUL ++ "S")) /\
  Duration.String (500 * Millisecond) = Done ("PT500000000" ++ NUL ++ "S") /\
  Duration.String (500 * Millisecond) <> Done "PT0.5S" /\
  Duration.String 0 = Done "PT0S".
Proof.
  apply (String_subsecond_renders_tick_count (500 * Millisecond)).
  - vm_compute. split; discriminate.
  - vm_compute. split; reflexivity.
Defined.

(* ================================================================== *)
(** * What a match of the grammar looks like *)

(** ** The texts a regular expression matches *)

Lemma star_sound {A} (cls : regexp.CharClass) (s : string) :
  forall (pos : nat) (k : nat -> string -> option A) (res : A),
    regexp.star cls pos s k = Some res ->
    exists s1 s2,
      s = s1 ++ s2 /\ all_in cls s1 = true /\
      k (pos + String.length s1)%nat s2 = Some res.
Proof.
  induction s as [| a s IH]; intros pos k res H; simpl in H.
  - exists "", "". rewrite Nat.add_0_r. auto.
  - destruct (regexp.in_class cls a) eqn:Ha.
    + destruct (regexp.star cls (S pos) s k) as [r |] eqn:Hs.
      * injection H as ->.
        destruct (IH _ _ _ Hs) as (s1 & s2 & -> & Hall & Hk).
        exists (String a s1), s2. simpl. rewrite Ha, Hall.
        rewrite Nat.add_succ_r. auto.
      * exists "", (String a s). rewrite Nat.add_0_r. auto.
    + exists "", (String a s). rewrite Nat.add_0_r. auto.
Qed.

(** Soundness of the matcher: a successful run splits the text into
    what the expression matched and what the continuation accepted. *)
Lemma rmatch_sound {A} (r : regexp.Regexp) :
  forall (pos : nat) (s : string) (c : regexp.caps)
         (k : nat -> string -> regexp.caps -> option A) (res : A),
    regexp.rmatch r pos s c k = Some res ->
    exists s1 s2 c',
      s = s1 ++ s2 /\ denote r pos s1 s2 c c' /\
      k (pos + String.length s1)%nat s2 c' = Some res.
Proof.
  induction r as [| | | a | cls | cls | r IH | r1 IH1 r2 IH2 | n r IH];
    intros pos s c k res H; simpl in H.
  - exists "", s, c. rewrite Nat.add_0_r. simpl. repeat split; auto.
  - destruct pos as [| pos]; [| discriminate].
    exists "", s, c. simpl. repeat split; auto.
  - destruct s; [| discriminate].
    exists "", "", c. rewrite Nat.add_0_r. simpl. repeat split; auto.
  - destruct s as [| b s]; [discriminate |].
    destruct (Ascii.eqb_spec a b) as [<- |]; [| discriminate].
    exists (String a ""), s, c. simpl. rewrite Nat.add_1_r. repeat split; auto.
  - destruct s as [| b s]; [discriminate |].
    destruct (regexp.in_class cls b) eqn:Hb; [| discriminate].
    exists (String b ""), s, c. simpl. rewrite Nat.add_1_r. repeat split; eauto.
  - destruct s as [| b s]; [discriminate |].
    destruct (regexp.in_class cls b) eqn:Hb; [| discriminate].
    destruct (star_sound _ _ _ _ _ H) as (s1 & s2 & -> & Hall & Hk).
    exists (String b s1), s2, c. simpl. rewrite Hb, Hall.
    rewrite Nat.add_succ_r. repeat split; auto. discriminate.
  - destruct (regexp.rmatch r pos s c k) as [x |] eqn:Hr.
    + injection H as ->.
      destruct (IH _ _ _ _ _ Hr) as (s1 & s2 & c' & -> & Hd & Hk).
      exists s1, s2, c'. simpl. repeat split; auto.
    + exists "", s, c. rewrite Nat.add_0_r. simpl. repeat split; auto.
  - destruct (IH1 _ _ _ _ _ H) as (a & t & c1 & -> & Hd1 & H2).
    destruct (IH2 _ _ _ _ _ H2) as (b & s2 & c' & -> & Hd2 & Hk).
    exists (a ++ b), s2, c'. rewrite append_assoc, length_append, Nat.add_assoc.
    simpl. repeat split; auto. exists a, b, c1. auto.
  - destruct (IH _ _ _ _ _ H) as (s1 & s2 & c0 & -> & Hd & Hk).
    replace (pos + String.length s1 - pos)%nat with (String.length s1) in Hk by lia.
    rewrite substring_prefix in Hk.
    exists s1, s2, (regexp.set_cap n s1 c0). simpl. repeat split; eauto.
Qed.

(** ** The compiled pattern *)

(** The pattern compiles, to [^P(\d+D)?(?:T(\d+H)?(\d+M)?([\d.]+S)?)?$]
    read as a tree. *)
Lemma xmlDurationRegex_eq :
  xmlDurationRegex =
  regexp.Cat regexp.Bol
    (regexp.Cat (regexp.Lit "P")
       (regexp.Cat (rField 1 regexp.digit "D")
          (regexp.Cat
             (regexp.Opt
                (regexp.Cat (regexp.Lit "T")
                   (regexp.Cat (rField 2 regexp.digit "H")
                      (regexp.Cat (rField 3 regexp.digit "M")
                                  (rField 4 digit_or_dot "S")))))
             regexp.Eol))).
Proof. reflexivity. Qed.

Lemma NumSubexp_xmlDurationRegex : regexp.NumSubexp xmlDurationRegex = 4%nat.
Proof. reflexivity. Qed.

(** ** The leftmost match of an anchored pattern starts at offset 0 *)

Lemma find_anchored_later (r : regexp.Regexp) (s : string) :
  forall pos, regexp.find (regexp.Cat regexp.Bol r) (S pos) s = None.
Proof.
  induction s as [| a s IH]; intros pos; simpl; [reflexivity | apply IH].
Qed.

Lemma find_anchored (r : regexp.Regexp) (s : string) (c : regexp.caps) :
  regexp.find (regexp.Cat regexp.Bol r) 0 s = Some c ->
  regexp.rmatch (regexp.Cap 0 (regexp.Cat regexp.Bol r)) 0 s regexp.no_caps
                (fun _ _ c => Some c) = Some c.
Proof.
  intros H. destruct s as [| a s]; cbn [regexp.find] in H.
  - destruct (regexp.rmatch _ _ _ _ _); [exact H | discriminate].
  - destruct (regexp.rmatch _ _ _ _ _); [exact H |].
    rewrite find_anchored_later in H. discriminate.
Qed.

(** ** The grammar, in the words of its description *)

(** [field] and [duration_text] above spell the grammar out; a match
    of one written field is such a field, and sets its group. *)
Lemma denote_rField (n : nat) (cls : regexp.CharClass) (des : ascii)
      (pos : nat) (s1 s2 : string) (c c' : regexp.caps) :
  denote (rField n cls des) pos s1 s2 c c' ->
  field cls des s1 /\
  ((s1 = "" /\ c' = c) \/ c' = regexp.set_cap n s1 c).
Proof.
  unfold rField. simpl.
  intros [(c0 & (a & b & c1 & -> & (Hne & Hall & ->) & -> & ->) & ->) | [-> ->]].
  - split; [right; exists a; auto | right; reflexivity].
  - split; [left; reflexivity | left; auto].
Qed.

Lemma field_absent (cls : regexp.CharClass) (des : ascii) : field cls des "".
Proof. left. reflexivity. Qed.

Local Opaque rField.

(** A match of [xmlDurationRegex] is a match of the whole text, the
    text has the layout of the grammar, and groups 1 to 4 hold its
    days, hours, minutes and seconds fields. *)
Lemma find_duration_text (str : string) (c : regexp.caps) :
  regexp.find xmlDurationRegex 0 str = Some c ->
  c 0%nat = str /\ duration_text str (c 1%nat) (c 2%nat) (c 3%nat) (c 4%nat).
Proof.
  rewrite xmlDurationRegex_eq. intros H.
  apply find_anchored, rmatch_sound in H.
  destruct H as (s1 & s2 & c' & -> & Hd & Hk). injection Hk as <-.
  cbn [denote] in Hd.
  repeat match goal with
         | H : exists _, _ |- _ => destruct H
         | H : _ /\ _ |- _ => destruct H
         | H : denote (rField _ _ _) _ _ _ _ _ |- _ => apply denote_rField in H
         | H : _ \/ _ |- _ => destruct H
         end; subst;
  unfold regexp.set_cap, regexp.no_caps; cbn [Nat.eqb];
  rewrite ?append_nil_r; cbn [append]; rewrite ?append_nil_r;
  (split; [reflexivity |]); unfold duration_text;
  repeat (split; [solve [assumption | apply field_absent] |]);
  cbn [append]; rewrite ?append_nil_r;
  solve [right; reflexivity | left; repeat split; reflexivity].
Qed.

Local Transparent rField.

(** The slice [FindStringSubmatch] returns after a successful [Match]. *)
Lemma Match_parts (str : string) :
  regexp.Match xmlDurationRegex str = true ->
  exists dd hh mm ss,
    regexp.FindStringSubmatch xmlDurationRegex str = [str; dd; hh; mm; ss] /\
    duration_text str dd hh mm ss.
Proof.
  unfold regexp.Match, regexp.FindStringSubmatch.
  destruct (regexp.find xmlDurationRegex 0 str) as [c |] eqn:Hf; [| discriminate].
  intros _. destruct (find_duration_text _ _ Hf) as [H0 Ht].
  exists (c 1%nat), (c 2%nat), (c 3%nat), (c 4%nat).
  rewrite NumSubexp_xmlDurationRegex. simpl. rewrite H0. auto.
Qed.

(** C4, as the claim states it, fails: a [T] followed by no time field
    is accepted after a days field. *)
Lemma parseDuration_accepts_bare_T :
  parseDuration "P1DT" = Ok (24 * Hour).
Proof. vm_compute. reflexivity. Qed.

(** C4 (amended). [parseDuration] accepts a text only when it is [P],
    then the optional days field, then optionally [T] followed by the
    optional hours, minutes and seconds fields, in this order; so the
    [T] marker stands before the time fields whenever one of them is
    present.  When none is present the [T] may be there or not: a [T]
    with no time field after it, as in ["P1DT"], is accepted. *)
Theorem parseDuration_accepts_only_grammar :
  (forall (str : string) (d : Z),
     parseDuration str = Ok d ->
     exists dd hh mm ss,
       duration_text str dd hh mm ss /\
       (hh <> "" \/ mm <> "" \/ ss <> "" ->
        str = "P" ++ dd ++ "T" ++ hh ++ mm ++ ss)) /\
  parseDuration "P1DT" = Ok (24 * Hour).
Proof.
  split; [| vm_compute; reflexivity].
  intros str d. unfold parseDuration.
  destruct (len str <? 3); [discriminate |].
  destruct (strings.Contains str "-"); [discriminate |].
  destruct (regexp.Match xmlDurationRegex str) eqn:Hm; [| discriminate].
  intros _. destruct (Match_parts str Hm) as (dd & hh & mm & ss & _ & Ht).
  exists dd, hh, mm, ss. split; [exact Ht |].
  destruct Ht as (_ & _ & _ & _ & [(_ & -> & -> & ->) | Hlay]).
  - intros [H | [H | H]]; congruence.
  - intros _. exact Hlay.
Qed.

Lemma parseDuration_accepts_only_grammar_witness :
  exists dd hh mm ss,
    duration_text "P3DT4H" dd hh mm ss /\
    (hh <> "" \/ mm <> "" \/ ss <> "" -> "P3DT4H" = "P" ++ dd ++ "T" ++ hh ++ mm ++ ss).
Proof.
  apply (proj1 parseDuration_accepts_only_grammar "P3DT4H" (76 * Hour)).
  vm_compute. reflexivity.
Defined.

(* ================================================================== *)
(** * The conversions of the matched fields *)

(** ** Classes and designators *)

Lemma in_class_digit (c : ascii) :
  regexp.in_class regexp.digit c = strconv.is_digit c.
Proof.
  unfold regexp.in_class, regexp.digit, strconv.is_digit. simpl.
  apply orb_false_r.
Qed.

Lemma in_class_digit_or_dot (c : ascii) :
  regexp.in_class digit_or_dot c = strconv.is_digit c || Ascii.eqb c ".".
Proof.
  unfold regexp.in_class, digit_or_dot, strconv.is_digit. simpl.
  rewrite orb_false_r. f_equal.
  destruct (Ascii.eqb_spec c ".") as [-> | Hne]; [reflexivity |].
  apply andb_false_iff.
  destruct (N.leb_spec 46 (N_of_ascii c)); [| left; reflexivity].
  destruct (N.leb_spec (N_of_ascii c) 46); [| right; reflexivity].
  exfalso. apply Hne.
  rewrite <- (ascii_N_embedding c).
  replace (N_of_ascii c) with 46%N by lia. reflexivity.
Qed.

Lemma all_in_digit (s : string) : all_in regexp.digit s = strconv.all_digits s.
Proof.
  induction s as [| a s IH]; cbn [all_in strconv.all_digits]; [reflexivity |].
  rewrite in_class_digit, IH. reflexivity.
Qed.

(** A byte of a class is not a byte outside the class. *)
Lemma class_excludes (cls : regexp.CharClass) (des c : ascii) :
  regexp.in_class cls des = false -> regexp.in_class cls c = true ->
  Ascii.eqb des c = false.
Proof.
  intros Hdes Hc. destruct (Ascii.eqb_spec des c) as [-> |]; congruence.
Qed.

(** ** TrimRight takes the designator off a field *)

Lemma TrimRight_field (cls : regexp.CharClass) (des : ascii) (body : string) :
  regexp.in_class cls des = false -> all_in cls body = true ->
  strings.TrimRight (body ++ String des "") (String des "") = body.
Proof.
  intros Hdes.
  induction body as [| a b IH];
    cbn [all_in append strings.TrimRight strings.mem].
  - intros _. rewrite Ascii.eqb_refl. reflexivity.
  - intros Hall. apply andb_true_iff in Hall. destruct Hall as [Ha Hb].
    rewrite (IH Hb). destruct b.
    + rewrite (class_excludes _ _ _ Hdes Ha). reflexivity.
    + reflexivity.
Qed.

(** ** The value of a run of digits *)

Lemma digit_val_range (c : ascii) :
  strconv.is_digit c = true -> 0 <= strconv.digit_val c <= 9.
Proof.
  unfold strconv.is_digit, strconv.digit_val. intros H.
  apply andb_true_iff in H. destruct H as [H1 H2].
  apply N.leb_le in H1, H2. lia.
Qed.

Lemma decimal_range (s : string) :
  forall acc, 0 <= acc -> strconv.all_digits s = true ->
              0 <= strconv.decimal acc s < (acc + 1) * 10 ^ Z.of_nat (String.length s).
Proof.
  induction s as [| a s IH]; intros acc Hacc Hall.
  - simpl. lia.
  - cbn [strconv.all_digits] in Hall. apply andb_true_iff in Hall.
    destruct Hall as [Ha Hs]. pose proof (digit_val_range a Ha) as Hv.
    cbn [strconv.decimal String.length].
    specialize (IH (10 * acc + strconv.digit_val a) ltac:(lia) Hs).
    rewrite Nat2Z.inj_succ, Z.pow_succ_r by lia.
    assert (0 < 10 ^ Z.of_nat (String.length s)) by (apply Z.pow_pos_nonneg; lia).
    nia.
Qed.

(** ** Rounding to float64 *)

Lemma digits2_pos_size (p : positive) : digits2_pos p = Pos.size p.
Proof. induction p as [p IH | p IH |]; simpl; congruence. Qed.

Lemma Zdigits2_log2 (m : Z) : 0 < m -> Zdigits2 m = Z.log2 m + 1.
Proof.
  destruct m as [| p | p]; try lia. intros _.
  destruct p as [p | p |]; simpl; rewrite ?digits2_pos_size; lia.
Qed.

(** [m] has at most [b] binary digits exactly when [m < 2^b]. *)
Lemma Zdigits2_le_iff (m b : Z) :
  0 <= m -> 0 <= b -> (Zdigits2 m <= b <-> m < 2 ^ b).
Proof.
  intros Hm Hb. destruct (Z.eq_dec m 0) as [-> | Hne].
  - simpl. split; intros _; [apply Z.pow_pos_nonneg |]; lia.
  - rewrite Zdigits2_log2 by lia. rewrite (Z.log2_lt_pow2 m b) by lia. lia.
Qed.

Lemma fexp64 (x : Z) :
  fexp strconv.prec strconv.emax x = Z.max (x - 53) (-1074).
Proof. reflexivity. Qed.

Lemma shr_1_half (mrs : shr_record) :
  0 <= shr_m mrs -> shr_m (shr_1 mrs) = shr_m mrs / 2.
Proof.
  destruct mrs as [m r s]. simpl. intros Hm.
  rewrite <- Z.div2_div.
  destruct m as [| [p | p |] | p]; try reflexivity; lia.
Qed.

Lemma iter_shr_1 (p : positive) :
  forall mrs, 0 <= shr_m mrs ->
              shr_m (iter_pos shr_1 p mrs) = shr_m mrs / 2 ^ Zpos p.
Proof.
  assert (Hnn : forall a b, 0 <= a -> 0 < b -> 0 <= a / b)
    by (intros; apply Z.div_pos; lia).
  induction p as [p IH | p IH |]; intros mrs Hm; cbn [iter_pos].
  - assert (H1 : 0 <= shr_m (shr_1 mrs)) by (rewrite shr_1_half; auto with zarith).
    assert (H2 : 0 <= shr_m (iter_pos shr_1 p (shr_1 mrs)))
      by (rewrite IH by exact H1; apply Hnn; [exact H1 | apply Z.pow_pos_nonneg; lia]).
    rewrite IH by exact H2. rewrite IH by exact H1. rewrite shr_1_half by exact Hm.
    assert (Hp : 0 < 2 ^ Zpos p) by (apply Z.pow_pos_nonneg; lia).
    rewrite !Z.div_div by lia. f_equal.
    rewrite Pos2Z.inj_xI.
    replace (2 * Zpos p + 1) with (1 + Zpos p + Zpos p) by lia.
    rewrite !Z.pow_add_r by lia. rewrite Z.pow_1_r. ring.
  - assert (H2 : 0 <= shr_m (iter_pos shr_1 p mrs))
      by (rewrite IH by exact Hm; apply Hnn; [exact Hm | apply Z.pow_pos_nonneg; lia]).
    rewrite IH by exact H2. rewrite IH by exact Hm.
    assert (Hp : 0 < 2 ^ Zpos p) by (apply Z.pow_pos_nonneg; lia).
    rewrite Z.div_div by lia. f_equal.
    replace (Zpos p~0) with (Zpos p + Zpos p) by lia.
    rewrite Z.pow_add_r by lia. reflexivity.
  - rewrite shr_1_half by exact Hm. reflexivity.
Qed.

Lemma shr_m_of_loc (m : Z) (l : location) : shr_m (shr_record_of_loc m l) = m.
Proof. destruct l as [| []]; reflexivity. Qed.

(** [shr_fexp] moves the exponent up to the one the format asks for and
    divides the mantissa accordingly. *)
Lemma shr_fexp_spec (m e : Z) (l : location) :
  0 <= m ->
  exists mrs e',
    shr_fexp strconv.prec strconv.emax m e l = (mrs, e') /\
    e' = Z.max e (fexp strconv.prec strconv.emax (Zdigits2 m + e)) /\
    shr_m mrs = m / 2 ^ (e' - e).
Proof.
  intros Hm. unfold shr_fexp, shr.
  destruct (fexp strconv.prec strconv.emax (Zdigits2 m + e) - e) as [| p | p] eqn:Hn.
  - eexists _, _. split; [reflexivity |]. split; [lia |].
    rewrite shr_m_of_loc, Z.sub_diag, Z.div_1_r. reflexivity.
  - eexists _, _. split; [reflexivity |]. split; [lia |].
    rewrite iter_shr_1 by (rewrite shr_m_of_loc; exact Hm).
    rewrite shr_m_of_loc. f_equal. f_equal. lia.
  - eexists _, _. split; [reflexivity |]. split; [lia |].
    rewrite shr_m_of_loc, Z.sub_diag, Z.div_1_r. reflexivity.
Qed.

Lemma round_nearest_even_range (mx : Z) (l : location) :
  mx <= round_nearest_even mx l <= mx + 1.
Proof.
  destruct l as [| []]; simpl; try lia. destruct (Z.even mx); lia.
Qed.

(** Rounding a mantissa below [2^(1023 - e)] at exponent [e] never
    gives an infinity. *)
Lemma binary_round_aux_finite (s : bool) (m e : Z) (l : location) :
  0 <= m -> e <= 971 -> m < 2 ^ (1023 - e) ->
  forall b, binary_round_aux strconv.prec strconv.emax s m e l <> S754_infinity b.
Proof.
  intros Hm He Hlt b. unfold binary_round_aux.
  destruct (shr_fexp_spec m e l Hm) as (mrs & e1 & -> & He1 & Hm1).
  assert (Hdig : Zdigits2 m + e <= 1023)
    by (apply (Zdigits2_le_iff m (1023 - e)) in Hlt; lia).
  rewrite fexp64 in He1.
  assert (Hpow : 0 < 2 ^ (e1 - e)) by (apply Z.pow_pos_nonneg; lia).
  assert (Hshr : 0 <= shr_m mrs < 2 ^ (1023 - e1)).
  { rewrite Hm1. split; [apply Z.div_pos; lia |].
    apply Z.div_lt_upper_bound; [lia |].
    rewrite <- Z.pow_add_r by lia.
    replace (e1 - e + (1023 - e1)) with (1023 - e) by lia. exact Hlt. }
  pose proof (round_nearest_even_range (shr_m mrs) (loc_of_shr_record mrs)) as Hr.
  set (m1 := round_nearest_even (shr_m mrs) (loc_of_shr_record mrs)) in *.
  destruct (shr_fexp_spec m1 e1 loc_Exact ltac:(lia)) as (mrs2 & e2 & -> & He2 & _).
  assert (Hm1lt : m1 < 2 ^ (1024 - e1)).
  { replace (1024 - e1) with (Z.succ (1023 - e1)) by lia.
    rewrite Z.pow_succ_r by lia. lia. }
  apply (Zdigits2_le_iff m1 (1024 - e1)) in Hm1lt; [| lia | lia].
  rewrite fexp64 in He2.
  destruct (shr_m mrs2); try discriminate.
  replace (e2 <=? strconv.emax - strconv.prec) with true; [discriminate |].
  symmetry. apply Z.leb_le. unfold strconv.emax, strconv.prec. lia.
Qed.

(** ** The parts of a numeral *)

Lemma count_dots_app (s t : string) :
  count_dots (s ++ t) = (count_dots s + count_dots t)%nat.
Proof. induction s as [| a s IH]; simpl; [reflexivity | rewrite IH; lia]. Qed.

Lemma has_digit_app (s t : string) :
  has_digit (s ++ t) = has_digit s || has_digit t.
Proof.
  induction s as [| a s IH]; simpl; [reflexivity |].
  rewrite IH. apply orb_assoc.
Qed.

Lemma all_digits_app (s t : string) :
  strconv.all_digits (s ++ t) = strconv.all_digits s && strconv.all_digits t.
Proof.
  induction s as [| a s IH]; simpl; [reflexivity |].
  rewrite IH. apply andb_assoc.
Qed.

Lemma no_dots_digits (s : string) :
  all_in digit_or_dot s = true -> count_dots s = O -> strconv.all_digits s = true.
Proof.
  induction s as [| a s IH]; cbn [all_in count_dots strconv.all_digits]; [reflexivity |].
  intros Hall Hdots. apply andb_true_iff in Hall. destruct Hall as [Ha Hs].
  rewrite in_class_digit_or_dot in Ha.
  destruct (Ascii.eqb a "."); [simpl in Hdots; lia |].
  rewrite orb_false_r in Ha. rewrite Ha, IH; auto.
Qed.

Lemma split_dot_spec (s : string) :
  all_in digit_or_dot s = true ->
  exists ip fo,
    strconv.split_dot s = (ip, fo) /\
    strconv.all_digits ip = true /\
    match fo with
    | Some f => s = ip ++ "." ++ f /\ all_in digit_or_dot f = true
    | None => s = ip
    end.
Proof.
  induction s as [| a s IH]; cbn [all_in strconv.split_dot].
  - intros _. exists "", None. auto.
  - intros Hall. apply andb_true_iff in Hall. destruct Hall as [Ha Hs].
    rewrite in_class_digit_or_dot in Ha.
    destruct (Ascii.eqb_spec a ".") as [-> | Hne].
    + exists "", (Some s). auto.
    + rewrite orb_false_r in Ha.
      destruct (IH Hs) as (ip & fo & -> & Hip & Hfo).
      exists (String a ip), fo. cbn [strconv.all_digits]. rewrite Ha, Hip.
      repeat split. destruct fo as [f |].
      * destruct Hfo as [-> Hf]. auto.
      * subst s. reflexivity.
Qed.

(** ** A field is not empty *)

Lemma field_not_empty (body : string) (des : ascii) :
  String.eqb (body ++ String des "") "" = false.
Proof. destruct body; reflexivity. Qed.

(* ================================================================== *)
(** * Further properties of the codec *)

(** ** Truncate, once more *)

(** Truncating twice to the same unit is truncating once, and the
    durations [Truncate] leaves alone are the multiples of the unit. *)
Theorem Truncate_idempotent_fixpoints (d m : Duration) :
  is_int64 d -> 0 < m ->
  Duration.Truncate (Duration.Truncate d m) m = Duration.Truncate d m /\
  (Duration.Truncate d m = d <-> Z.rem d m = 0).
Proof.
  intros Hd Hm.
  destruct (Truncate_rounds_toward_zero d m Hd) as (_ & Hpos & _).
  destruct (Hpos Hm) as (Heq & Habs & _).
  assert (Hd' : is_int64 (Duration.Truncate d m)) by range_lia.
  destruct (Truncate_rounds_toward_zero (Duration.Truncate d m) m Hd') as (_ & Hpos' & _).
  destruct (Hpos' Hm) as (Heq' & _).
  split.
  - rewrite Heq'.
    assert (Hq : Duration.Truncate d m ÷ m = d ÷ m)
      by (rewrite Heq, Z.mul_comm; apply Z.quot_mul; lia).
    rewrite Hq. symmetry. exact Heq.
  - rewrite Heq. pose proof (Z.quot_rem' d m). lia.
Qed.

Lemma Truncate_idempotent_fixpoints_witness :
  Duration.Truncate (Duration.Truncate (90 * Second) Minute) Minute =
  Duration.Truncate (90 * Second) Minute /\
  (Duration.Truncate (90 * Second) Minute = 90 * Second <->
   Z.rem (90 * Second) Minute = 0).
Proof.
  apply (Truncate_idempotent_fixpoints (90 * Second) Minute).
  - vm_compute. split; discriminate.
  - reflexivity.
Defined.

(** ** A negative duration does not survive the attribute *)

(** Marshalling a negative duration gives an attribute that
    [UnmarshalXMLAttr] rejects as negative, leaving its receiver alone;
    so does [parseDuration] on the text of [String]. *)
Theorem negative_duration_not_read_back (d d0 : Duration) (name : xml_Name) :
  is_int64 d -> d < 0 ->
  exists attr,
    Duration.MarshalXMLAttr d name = Done attr /\
    Name attr = name /\
    parseDuration (Value attr) = Err ErrNegative /\
    Duration.UnmarshalXMLAttr d0 attr = (d0, Some ErrNegative).
Proof.
  intros Hd Hneg.
  destruct (String_shape d Hd) as [s Hs].
  apply Z.ltb_lt in Hneg. rewrite Hneg in Hs.
  unfold Duration.MarshalXMLAttr. rewrite Hs.
  eexists. split; [reflexivity |]. split; [reflexivity |].
  assert (Hp : parseDuration ("PT" ++ "-" ++ s) = Err ErrNegative).
  { unfold parseDuration.
    replace (len ("PT" ++ "-" ++ s) <? 3) with false
      by (symmetry; apply Z.ltb_ge; unfold len; rewrite !length_append;
          cbn [String.length]; lia).
    rewrite Contains_char; [reflexivity |]. simpl. auto. }
  split; [exact Hp |].
  unfold Duration.UnmarshalXMLAttr. cbn [Value]. rewrite Hp. reflexivity.
Qed.

Lemma negative_duration_not_read_back_witness :
  exists attr,
    Duration.MarshalXMLAttr (-90 * Second) {| Space := ""; Local := "duration" |}
      = Done attr /\
    Name attr = {| Space := ""; Local := "duration" |} /\
    parseDuration (Value attr) = Err ErrNegative /\
    Duration.UnmarshalXMLAttr 5 attr = (5, Some ErrNegative).
Proof.
  apply (negative_duration_not_read_back (-90 * Second) 5).
  - vm_compute. split; discriminate.
  - reflexivity.
Defined.

(* ================================================================== *)
(** * What String writes *)

(** ** Digit bytes *)

Lemma to_byte_digit (x : Z) :
  0 <= x <= 9 ->
  strconv.is_digit (to_byte (x + 48)) = true /\
  strconv.digit_val (to_byte (x + 48)) = x.
Proof.
  intros Hx. unfold strconv.is_digit, strconv.digit_val, to_byte.
  rewrite Z.mod_small by lia.
  rewrite N_ascii_embedding by lia.
  split; [apply andb_true_iff; split; apply N.leb_le |]; lia.
Qed.

Lemma to_byte_nonzero (x : Z) : 1 <= x <= 9 -> to_byte (x + 48) <> "0"%char.
Proof.
  intros Hx Heq. destruct (to_byte_digit x ltac:(lia)) as [_ Hv].
  rewrite Heq in Hv. vm_compute in Hv. lia.
Qed.

Lemma decimal_snoc (s : string) (c : ascii) :
  forall acc,
    strconv.decimal acc (s ++ String c "") =
    10 * strconv.decimal acc s + strconv.digit_val c.
Proof.
  induction s as [| a s IH]; intros acc; cbn [append strconv.decimal];
    [reflexivity | apply IH].
Qed.

Lemma all_digits_snoc (s : string) (c : ascii) :
  strconv.all_digits (s ++ String c "") =
  strconv.all_digits s && strconv.is_digit c.
Proof.
  rewrite all_digits_app. cbn [strconv.all_digits].
  rewrite andb_true_r. reflexivity.
Qed.

(** ** The buffer, byte by byte *)

Lemma update_repeat (k : nat) (c : ascii) (l : list ascii) :
  update k c (repeat zero (S k) ++ l)%list = (repeat zero k ++ c :: l)%list.
Proof.
  induction k as [| k IH]; [reflexivity |].
  change (repeat zero (S (S k)) ++ l)%list with (zero :: (repeat zero (S k) ++ l))%list.
  cbn [update]. rewrite IH. reflexivity.
Qed.

(** [w--; buf[w] = c] puts [c] in front of the text. *)
Lemma store_buf_of (len w : Z) (c : ascii) (txt : string) :
  1 <= w <= len ->
  store len (w - 1) c (buf_of w txt) = Done (tt, buf_of (w - 1) (String c txt)).
Proof.
  intros Hw. unfold store, buf_of.
  replace ((0 <=? w - 1) && (w - 1 <? len)) with true
    by (symmetry; apply andb_true_iff; split; [apply Z.leb_le | apply Z.ltb_lt]; lia).
  replace (Z.to_nat w) with (S (Z.to_nat (w - 1))) by lia.
  rewrite update_repeat. reflexivity.
Qed.

(** [w--] alone leaves a zero byte in front of the text. *)
Lemma buf_of_skip (w : Z) (txt : string) :
  1 <= w -> buf_of w txt = buf_of (w - 1) (String zero txt).
Proof.
  intros Hw. unfold buf_of.
  replace (Z.to_nat w) with (Z.to_nat (w - 1) + 1)%nat by lia.
  rewrite repeat_app, <- app_assoc. reflexivity.
Qed.

Lemma string_from_buf_of (w : Z) (txt : string) :
  0 <= w <= buf_cap ->
  string_from w (buf_of w txt) = Done (txt, buf_of w txt).
Proof.
  intros Hw. unfold string_from, buf_of.
  replace ((0 <=? w) && (w <=? buf_cap)) with true
    by (symmetry; apply andb_true_iff; split; apply Z.leb_le; lia).
  rewrite skipn_app, skipn_all2 by (rewrite repeat_length; lia).
  rewrite repeat_length, Nat.sub_diag. cbn [skipn app].
  rewrite string_of_list_ascii_of_string. reflexivity.
Qed.

Lemma slice_to_ok (w : Z) (b : buffer) :
  0 <= w <= buf_cap -> slice_to w b = Done (w, b).
Proof.
  intros Hw. unfold slice_to.
  replace ((0 <=? w) && (w <=? buf_cap)) with true
    by (symmetry; apply andb_true_iff; split; apply Z.leb_le; lia).
  reflexivity.
Qed.

Lemma bind_done {A B} (m : M A) (k : A -> M B) (b b' : buffer) (a : A) :
  m b = Done (a, b') -> bind m k b = k a b'.
Proof. intros H. unfold bind. rewrite H. reflexivity. Qed.

(** ** fmtInt writes the decimal numeral *)

(** The loop of [fmtInt], on a number of at most [k] digits with [k]
    units of fuel and [k] bytes of room: it puts the digits of [v] in
    front of the text, most significant first and none for zero. *)
Lemma fmtInt_loop_digits (fuel : nat) :
  forall (k : nat) (n w v : Z) (txt : string),
    (k <= fuel)%nat -> 0 <= v < 10 ^ Z.of_nat k -> Z.of_nat k <= w <= n ->
    exists s,
      fmtInt_loop fuel n w v (buf_of w txt) =
        Done (w - len s, buf_of (w - len s) (s ++ txt)) /\
      strconv.all_digits s = true /\
      strconv.decimal 0 s = v /\
      (String.length s <= k)%nat /\
      match s with
      | EmptyString => v = 0
      | String c _ => c <> "0"%char
      end.
Proof.
  induction fuel as [| fuel IH]; intros k n w v txt Hk Hv Hw;
    rewrite fmtInt_loop_unfold; destruct (Z.ltb_spec 0 v) as [Hpos | Hzero].
  - assert (k = O) by lia. subst k. simpl in Hv. lia.
  - exists "". unfold ret, len. cbn [String.length append Z.of_nat].
    rewrite Z.sub_0_r. cbn [strconv.decimal]. repeat split; lia.
  - destruct k as [| k]; [simpl in Hv; lia |].
    rewrite Nat2Z.inj_succ, Z.pow_succ_r in Hv by lia.
    pose proof (Z.mod_pos_bound v 10 ltac:(lia)) as Hd.
    destruct (to_byte_digit (v mod 10) ltac:(lia)) as [Hdig Hval].
    set (c := to_byte (v mod 10 + 48)) in *.
    rewrite (bind_done _ _ _ _ _ (store_buf_of n w c txt ltac:(lia))).
    destruct (IH k n (w - 1) (v / 10) (String c txt) ltac:(lia)) as (s & Hrun & Hall & Hdec & Hlen & Hlead).
    { split; [apply Z.div_pos; lia | apply Z.div_lt_upper_bound; lia]. }
    { lia. }
    exists (s ++ String c "").
    assert (Hl : len (s ++ String c "") = len s + 1)
      by (unfold len; rewrite length_append; cbn [String.length]; lia).
    rewrite Hrun, Hl, append_assoc. cbn [append].
    replace (w - 1 - len s) with (w - (len s + 1)) by lia.
    split; [reflexivity |].
    split; [rewrite all_digits_snoc, Hall, Hdig; reflexivity |].
    split; [rewrite decimal_snoc, Hdec, Hval; pose proof (Z.div_mod v 10); lia |].
    split; [rewrite length_append; cbn [String.length]; lia |].
    destruct s as [| a s]; cbn [append].
    + subst c. apply to_byte_nonzero.
      assert (v / 10 = 0) by exact Hlead.
      pose proof (Z.div_mod v 10). lia.
    + exact Hlead.
  - exists "". unfold ret, len. cbn [String.length append Z.of_nat].
    rewrite Z.sub_0_r. cbn [strconv.decimal]. repeat split; lia.
Qed.

(** [fmtInt] on a number of at most [k <= 20] digits, with [k] bytes of
    room in the slice: it puts the numeral of [v] in front of the text
    and returns the index of its first digit. *)
Lemma fmtInt_digits (k : nat) (n v : Z) (txt : string) :
  (1 <= k <= fmtInt_fuel)%nat -> 0 <= v < 10 ^ Z.of_nat k -> Z.of_nat k <= n ->
  exists s,
    fmtInt n v (buf_of n txt) = Done (n - len s, buf_of (n - len s) (s ++ txt)) /\
    numeral v s /\ (String.length s <= k)%nat.
Proof.
  intros Hk Hv Hn. unfold fmtInt. destruct (Z.eqb_spec v 0) as [-> | Hne].
  - exists "0".
    rewrite (bind_done _ _ _ _ _ (store_buf_of n n "0" txt ltac:(lia))).
    unfold ret, numeral, len. cbn [String.length Z.of_nat].
    repeat split; auto; lia.
  - destruct (fmtInt_loop_digits fmtInt_fuel k n n v txt ltac:(lia) Hv ltac:(lia))
      as (s & Hrun & Hall & Hdec & Hlen & Hlead).
    exists s. split; [exact Hrun |]. split; [| exact Hlen].
    unfold numeral. repeat split; auto.
    destruct s; [congruence | left; exact Hlead].
Qed.

(** [fmtInt] on any [uint64], with the twenty bytes of room its longest
    numeral takes: it puts the decimal numeral of [v], without leading
    zeros, in front of the text and returns the index of its first
    digit; the bytes before that index stay zero. *)
Theorem fmtInt_writes_numeral (n v : Z) (txt : string) :
  is_uint64 v -> 20 <= n ->
  exists s,
    fmtInt n v (buf_of n txt) = Done (n - len s, buf_of (n - len s) (s ++ txt)) /\
    numeral v s /\ 1 <= len s <= 20.
Proof.
  intros Hv Hn.
  destruct (fmtInt_digits 20 n v txt) as (s & Hrun & Hnum & Hlen).
  - unfold fmtInt_fuel. lia.
  - unfold is_uint64 in Hv. change (10 ^ Z.of_nat 20) with 100000000000000000000. lia.
  - lia.
  - exists s. split; [exact Hrun |]. split; [exact Hnum |].
    destruct Hnum as (_ & _ & Hne). unfold len.
    destruct s; [contradiction | cbn [String.length] in *; lia].
Qed.

Lemma fmtInt_writes_numeral_witness :
  exists s,
    fmtInt 31 90 (buf_of 31 "S") = Done (31 - len s, buf_of (31 - len s) (s ++ "S")) /\
    numeral 90 s /\ 1 <= len s <= 20.
Proof.
  apply (fmtInt_writes_numeral 31 90 "S"); [unfold is_uint64 |]; lia.
Defined.

(** ** fmtFrac writes the fraction without its trailing zeros *)

Lemma mod_pow_succ (v : Z) (k : nat) :
  v mod 10 ^ Z.of_nat (S k) = v mod 10 + 10 * ((v / 10) mod 10 ^ Z.of_nat k).
Proof.
  rewrite Nat2Z.inj_succ, Z.pow_succ_r by lia.
  apply Z.rem_mul_r; [lia | apply Z.pow_pos_nonneg; lia].
Qed.

Lemma div_pow_succ (v : Z) (k : nat) :
  v / 10 / 10 ^ Z.of_nat k = v / 10 ^ Z.of_nat (S k).
Proof.
  rewrite Nat2Z.inj_succ, Z.pow_succ_r by lia.
  apply Z.div_div; [lia | apply Z.pow_pos_nonneg; lia].
Qed.

(** Once a digit has been printed every further digit is. *)
Lemma fmtFrac_loop_printing (k : nat) :
  forall (n w v : Z) (txt : string),
    Z.of_nat k <= w <= n ->
    exists ds,
      fmtFrac_loop k n w true v (buf_of w txt) =
        Done ((w - Z.of_nat k, true, v / 10 ^ Z.of_nat k),
              buf_of (w - Z.of_nat k) (ds ++ txt)) /\
      strconv.all_digits ds = true /\
      String.length ds = k /\
      strconv.decimal 0 ds = v mod 10 ^ Z.of_nat k.
Proof.
  induction k as [| k IH]; intros n w v txt Hw.
  - exists "". cbn [fmtFrac_loop Z.of_nat]. unfold ret.
    rewrite Z.sub_0_r, Z.pow_0_r, Z.div_1_r, Z.mod_1_r. repeat split.
  - cbn [fmtFrac_loop orb].
    pose proof (Z.mod_pos_bound v 10 ltac:(lia)) as Hd.
    destruct (to_byte_digit (v mod 10) ltac:(lia)) as [Hdig Hval].
    set (c := to_byte (v mod 10 + 48)) in *.
    rewrite (bind_done _ _ _ _ _
               (bind_done _ _ _ _ _ (store_buf_of n w c txt ltac:(lia)))).
    cbv beta.
    destruct (IH n (w - 1) (v / 10) (String c txt) ltac:(lia))
      as (ds & Hrun & Hall & Hlen & Hdec).
    exists (ds ++ String c "").
    rewrite Hrun, append_assoc, div_pow_succ. cbn [append].
    replace (w - 1 - Z.of_nat k) with (w - Z.of_nat (S k)) by lia.
    split; [reflexivity |].
    split; [rewrite all_digits_snoc, Hall, Hdig; reflexivity |].
    split; [rewrite length_append, Hlen; cbn [String.length]; lia |].
    rewrite decimal_snoc, Hdec, Hval, mod_pow_succ. lia.
Qed.

(** Before that, zero digits are passed over: after [k] iterations
    either all [k] digits were zero and nothing is written, or the
    digits down to the last non-zero one are. *)
Lemma fmtFrac_loop_skipping (k : nat) :
  forall (n w v : Z) (txt : string),
    Z.of_nat k <= w <= n ->
    (v mod 10 ^ Z.of_nat k = 0 /\
     fmtFrac_loop k n w false v (buf_of w txt) =
       Done ((w, false, v / 10 ^ Z.of_nat k), buf_of w txt)) \/
    (exists ds c,
        c <> "0"%char /\
        strconv.all_digits (ds ++ String c "") = true /\
        (String.length (ds ++ String c "") <= k)%nat /\
        strconv.decimal 0 (ds ++ String c "") *
          10 ^ Z.of_nat (k - String.length (ds ++ String c "")) =
          v mod 10 ^ Z.of_nat k /\
        fmtFrac_loop k n w false v (buf_of w txt) =
          Done ((w - len (ds ++ String c ""), true, v / 10 ^ Z.of_nat k),
                buf_of (w - len (ds ++ String c "")) ((ds ++ String c "") ++ txt))).
Proof.
  induction k as [| k IH]; intros n w v txt Hw.
  - left. cbn [fmtFrac_loop Z.of_nat]. unfold ret.
    rewrite Z.pow_0_r, Z.div_1_r, Z.mod_1_r. split; reflexivity.
  - cbn [fmtFrac_loop orb].
    pose proof (Z.mod_pos_bound v 10 ltac:(lia)) as Hd.
    destruct (Z.eqb_spec (v mod 10) 0) as [H0 | Hne]; cbn [negb].
    + (* a zero digit, not printed *)
      rewrite (bind_done _ _ (buf_of w txt) (buf_of w txt) w eq_refl).
      destruct (IH n w (v / 10) txt ltac:(lia))
        as [[Hz Hrun] | (ds & c & Hc & Hall & Hlen & Hdec & Hrun)].
      * left. rewrite Hrun, div_pow_succ, mod_pow_succ, Hz. split; [lia | reflexivity].
      * right. exists ds, c. rewrite Hrun, div_pow_succ, mod_pow_succ, <- Hdec.
        repeat split; auto.
        replace (Z.of_nat (S k - String.length (ds ++ String c "")))
          with (Z.succ (Z.of_nat (k - String.length (ds ++ String c "")))) by lia.
        rewrite Z.pow_succ_r by lia. lia.
    + (* the last non-zero digit: printing starts *)
      destruct (to_byte_digit (v mod 10) ltac:(lia)) as [Hdig Hval].
      pose proof (to_byte_nonzero (v mod 10) ltac:(lia)) as Hnz.
      set (c := to_byte (v mod 10 + 48)) in *.
      rewrite (bind_done _ _ _ _ _
                 (bind_done _ _ _ _ _ (store_buf_of n w c txt ltac:(lia)))).
      cbv beta.
      destruct (fmtFrac_loop_printing k n (w - 1) (v / 10) (String c txt) ltac:(lia))
        as (ds & Hrun & Hall & Hlen & Hdec).
      right. exists ds, c.
      assert (Hl : String.length (ds ++ String c "") = S k)
        by (rewrite length_append, Hlen; cbn [String.length]; lia).
      unfold len. rewrite Hrun, Hl, append_assoc, div_pow_succ. cbn [append].
      replace (w - 1 - Z.of_nat k) with (w - Z.of_nat (S k)) by lia.
      split; [exact Hnz |].
      split; [rewrite all_digits_snoc, Hall, Hdig; reflexivity |].
      split; [lia |].
      split; [| reflexivity].
      rewrite Nat.sub_diag, Z.mul_1_r, decimal_snoc, Hdec, Hval, mod_pow_succ. lia.
Qed.

(** [fmtFrac] with [prec] decimals and [prec + 1] bytes of room: it
    returns [v / 10^prec] and puts the fraction [(v mod 10^prec) /
    10^prec] in front of the text: nothing when it is zero, else the
    point and the decimals up to the last non-zero one. *)
Lemma fmtFrac_decimals (n v prec : Z) (txt : string) :
  0 <= prec -> prec + 1 <= n ->
  exists f,
    fmtFrac n v prec (buf_of n txt) =
      Done ((n - len f, v / 10 ^ prec), buf_of (n - len f) (f ++ txt)) /\
    fraction (Z.to_nat prec) (v mod 10 ^ prec) f.
Proof.
  intros Hp Hn. unfold fmtFrac.
  destruct (fmtFrac_loop_skipping (Z.to_nat prec) n n v txt ltac:(lia))
    as [[Hz Hrun] | (ds & c & Hc & Hall & Hlen & Hdec & Hrun)];
    rewrite Z2Nat.id in * by lia.
  - exists "". rewrite (bind_done _ _ _ _ _ Hrun). cbv beta iota.
    rewrite (bind_done _ _ (buf_of n txt) (buf_of n txt) n eq_refl).
    unfold ret, len. cbn [String.length Z.of_nat append]. rewrite Z.sub_0_r.
    split; [reflexivity | left; auto].
  - exists ("." ++ ds ++ String c "").
    rewrite (bind_done _ _ _ _ _ Hrun). cbv beta iota.
    assert (Hroom : 1 <= n - len (ds ++ String c "") <= n) by (unfold len; lia).
    rewrite (bind_done _ _ _ _ _
               (bind_done _ _ _ _ _ (store_buf_of n _ "." _ Hroom))).
    unfold ret.
    replace (len ("." ++ ds ++ String c "")) with (len (ds ++ String c "") + 1)
      by (unfold len; cbn [append String.length]; lia).
    replace (n - (len (ds ++ String c "") + 1)) with (n - len (ds ++ String c "") - 1) by lia.
    split; [reflexivity |].
    right. exists ds, c. repeat split; auto.
Qed.


(** ** The text String returns *)

Lemma new_buf_is_empty : new_buf = buf_of buf_cap "".
Proof. unfold buf_of, new_buf. cbn [list_ascii_of_string]. rewrite app_nil_r. reflexivity. Qed.

Lemma fraction_len (p : nat) (r : Z) (f : string) :
  fraction p r f -> 0 <= len f <= Z.of_nat p + 1.
Proof.
  unfold len. intros [[_ ->] | (ds & c & -> & _ & _ & Hlen & _)];
    cbn [append String.length]; lia.
Qed.

Lemma fraction_zero_decimals (r : Z) (f : string) : fraction 0 r f -> f = "".
Proof.
  intros [[_ ->] | (ds & c & _ & _ & _ & Hlen & _)]; [reflexivity |].
  rewrite length_append in Hlen. cbn [String.length] in Hlen. lia.
Qed.

Lemma digit_val_zero (c : ascii) :
  strconv.is_digit c = true -> c <> "0"%char -> 1 <= strconv.digit_val c.
Proof.
  intros Hd Hc. pose proof (digit_val_range c Hd) as Hr.
  destruct (Z.eq_dec (strconv.digit_val c) 0) as [H0 | ]; [| lia].
  exfalso. apply Hc. unfold strconv.digit_val in H0.
  assert (HN : N_of_ascii c = 48%N) by lia.
  rewrite <- (ascii_N_embedding c), HN. reflexivity.
Qed.

Lemma fraction_whole (p : nat) (f : string) : fraction p 0 f -> f = "".
Proof.
  intros [[_ ->] | (ds & c & _ & Hall & Hc & _ & Hv)]; [reflexivity |].
  exfalso. rewrite all_digits_snoc in Hall. apply andb_true_iff in Hall.
  destruct Hall as [Hds Hcd].
  rewrite decimal_snoc in Hv.
  pose proof (decimal_range ds 0 ltac:(lia) Hds) as [H0 _].
  pose proof (digit_val_zero c Hcd Hc) as H1.
  assert (Hpow : 0 < 10 ^ Z.of_nat (p - String.length (ds ++ String c "")))
    by (apply Z.pow_pos_nonneg; lia).
  nia.
Qed.

(** [fmtFrac] with [prec] decimals and [prec + 1] bytes of room: it
    returns [v / 10^prec] and puts the fraction [(v mod 10^prec) /
    10^prec] in front of the text: nothing exactly when the fraction is
    zero, else the point and the decimals up to the last non-zero one,
    at most [prec + 1] bytes. *)
Theorem fmtFrac_writes_fraction (n v prec : Z) (txt : string) :
  0 <= prec -> prec + 1 <= n ->
  exists f,
    fmtFrac n v prec (buf_of n txt) =
      Done ((n - len f, v / 10 ^ prec), buf_of (n - len f) (f ++ txt)) /\
    fraction (Z.to_nat prec) (v mod 10 ^ prec) f /\
    0 <= len f <= prec + 1 /\
    (f = "" <-> v mod 10 ^ prec = 0).
Proof.
  intros Hp Hn.
  destruct (fmtFrac_decimals n v prec txt Hp Hn) as (f & Hrun & Hf).
  exists f. split; [exact Hrun |]. split; [exact Hf |].
  split; [pose proof (fraction_len _ _ _ Hf); lia |].
  split.
  - intros ->. destruct Hf as [[H0 _] | (ds & c & E & _)]; [exact H0 |].
    discriminate E.
  - intros H0. rewrite H0 in Hf. exact (fraction_whole _ _ Hf).
Qed.

Lemma fmtFrac_writes_fraction_witness :
  exists f,
    fmtFrac 31 1500000000 9 (buf_of 31 "S") =
      Done ((31 - len f, 1500000000 / 10 ^ 9), buf_of (31 - len f) (f ++ "S")) /\
    fraction (Z.to_nat 9) (1500000000 mod 10 ^ 9) f /\
    0 <= len f <= 9 + 1 /\
    (f = "" <-> 1500000000 mod 10 ^ 9 = 0).
Proof.
  apply (fmtFrac_writes_fraction 31 1500000000 9 "S"); lia.
Defined.

(** The sign and the prefix, once the fields are written. *)
Lemma sign_and_prefix_text (neg : bool) (w : Z) (txt : string) :
  1 <= w <= buf_cap ->
  exists b',
    (w' <- (if neg
            then store buf_cap (w - 1) "-"%char ;;; ret (w - 1)
            else ret w) ;;
     s <- string_from w' ;;
     ret ("PT" ++ s)) (buf_of w txt) =
    Done ("PT" ++ (if neg then "-" else "") ++ txt, b').
Proof.
  intros Hw. destruct neg.
  - rewrite (bind_done _ _ _ _ _
               (bind_done _ _ _ _ _ (store_buf_of buf_cap w "-" txt ltac:(lia)))).
    cbv beta.
    rewrite (bind_done _ _ _ _ _ (string_from_buf_of (w - 1) _ ltac:(lia))).
    eexists. reflexivity.
  - rewrite (bind_done _ _ (buf_of w txt) (buf_of w txt) w eq_refl).
    rewrite (bind_done _ _ _ _ _ (string_from_buf_of w _ ltac:(lia))).
    eexists. reflexivity.
Qed.

Ltac step_store :=
  match goal with
  | |- context [bind (store ?n (?w - 1) ?c) _ (buf_of ?w ?txt)] =>
      rewrite (bind_done _ _ _ _ _ (store_buf_of n w c txt ltac:(cap_lia)))
  end.

Ltac step_slice :=
  match goal with
  | |- context [bind (slice_to ?w) _ ?b] =>
      rewrite (bind_done _ _ _ _ _ (slice_to_ok w b ltac:(cap_lia)))
  end.

(** Below one second, zero apart: the nanosecond count, a zero byte
    and ['S']. *)
Lemma String_below_second (d : Duration) :
  is_int64 d -> 0 < Z.abs d < 10 ^ 9 ->
  exists ns,
    numeral (Z.abs d) ns /\
    Duration.String d =
      Done ("PT" ++ (if d <? 0 then "-" else "") ++ ns ++ NUL ++ "S").
Proof.
  intros Hd Hu. unfold Duration.String. rewrite (magnitude d Hd).
  set (u := Z.abs d) in *.
  change (to_uint64 time_Second) with 1000000000.
  destruct (Z.ltb_spec u 1000000000) as [_ | Hbig]; [| lia].
  destruct (Z.eqb_spec u 0) as [H0 | _]; [lia |].
  unfold run. rewrite new_buf_is_empty.
  match goal with
  | |- context [bind ?blk ?fin (buf_of buf_cap "")] =>
      assert (Hblk : exists ns w,
                 numeral u ns /\ 1 <= w <= buf_cap /\
                 blk (buf_of buf_cap "") =
                   Done (inr w, buf_of w (ns ++ NUL ++ "S")))
  end.
  { step_store. cbv beta.
    rewrite (buf_of_skip (buf_cap - 1) "S") by cap_lia.
    step_slice. cbv beta.
    destruct (fmtFrac_decimals (buf_cap - 1 - 1) u 0 (String zero "S")
                ltac:(lia) ltac:(cap_lia)) as (f & Hrun & Hf).
    apply fraction_zero_decimals in Hf. subst f.
    unfold len in Hrun. cbn [String.length Z.of_nat append] in Hrun.
    rewrite Z.sub_0_r, Z.pow_0_r, Z.div_1_r in Hrun.
    rewrite (bind_done _ _ _ _ _ Hrun). cbv beta iota.
    step_slice. cbv beta.
    destruct (fmtInt_digits 9 (buf_cap - 1 - 1) u (String zero "S"))
      as (ns & Hint & Hnum & Hlen);
      [unfold fmtInt_fuel; lia | lia | cap_lia |].
    rewrite (bind_done _ _ _ _ _ Hint). cbv beta.
    exists ns, (buf_cap - 1 - 1 - len ns).
    split; [exact Hnum |]. split; [unfold len; cap_lia | reflexivity]. }
  destruct Hblk as (ns & w & Hnum & Hw & Hblk).
  rewrite (bind_done _ _ _ _ _ Hblk). cbv beta iota.
  destruct (sign_and_prefix_text (d <? 0) w (ns ++ NUL ++ "S") Hw) as [b' Hfin].
  rewrite Hfin. exists ns. split; [exact Hnum | reflexivity].
Qed.

Lemma numeral_len (v : Z) (s : string) : numeral v s -> 1 <= len s.
Proof.
  unfold len. intros (_ & _ & H). destruct s; [contradiction |].
  cbn [String.length]. lia.
Qed.

(** From one second on: hours and minutes when there are any, the
    seconds, their fraction, and ['S']. *)
Lemma String_from_second (d : Duration) :
  is_int64 d -> 10 ^ 9 <= Z.abs d ->
  exists hm secs frac,
    hours_minutes (Z.abs d / 10 ^ 9 / 60) hm /\
    numeral ((Z.abs d / 10 ^ 9) mod 60) secs /\
    fraction 9 (Z.abs d mod 10 ^ 9) frac /\
    Duration.String d =
      Done ("PT" ++ (if d <? 0 then "-" else "") ++ hm ++ secs ++ frac ++ "S").
Proof.
  intros Hd Hu. unfold Duration.String. rewrite (magnitude d Hd).
  set (u := Z.abs d) in *.
  assert (Hu64 : 0 <= u < 2 ^ 64) by (subst u; range_lia).
  change (to_uint64 time_Second) with 1000000000.
  destruct (Z.ltb_spec u 1000000000) as [Hsmall | _]; [lia |].
  unfold run. rewrite new_buf_is_empty.
  set (u1 := u / 10 ^ 9).
  assert (Hu1 : 0 <= u1 < 18446744074).
  { subst u1. split; [apply Z.div_pos; lia | apply Z.div_lt_upper_bound; lia]. }
  assert (Hmin : 0 <= u1 / 60 < 307445735).
  { split; [apply Z.div_pos; lia | apply Z.div_lt_upper_bound; lia]. }
  assert (Hhour : 0 <= u1 / 60 / 60 < 10 ^ 7).
  { split; [apply Z.div_pos; lia | apply Z.div_lt_upper_bound; lia]. }
  pose proof (Z.mod_pos_bound u1 60 ltac:(lia)) as Hs60.
  pose proof (Z.mod_pos_bound (u1 / 60) 60 ltac:(lia)) as Hm60.
  match goal with
  | |- context [bind ?blk ?fin (buf_of buf_cap "")] =>
      assert (Hblk : exists hm secs frac w,
                 hours_minutes (u1 / 60) hm /\
                 numeral (u1 mod 60) secs /\
                 fraction 9 (u mod 10 ^ 9) frac /\
                 1 <= w <= buf_cap /\
                 blk (buf_of buf_cap "") =
                   Done (inr w, buf_of w (hm ++ secs ++ frac ++ "S")))
  end.
  { step_store. cbv beta. step_slice. cbv beta.
    destruct (fmtFrac_decimals (buf_cap - 1) u 9 "S" ltac:(lia) ltac:(cap_lia))
      as (frac & Hrun & Hfrac).
    pose proof (fraction_len _ _ _ Hfrac) as Hfl.
    rewrite (bind_done _ _ _ _ _ Hrun). cbv beta iota. fold u1.
    step_slice. cbv beta.
    destruct (fmtInt_digits 2 (buf_cap - 1 - len frac) (u1 mod 60) (frac ++ "S"))
      as (secs & Hsec & Hsecn & Hsecl);
      [unfold fmtInt_fuel; lia | lia | cap_lia |].
    rewrite (bind_done _ _ _ _ _ Hsec). cbv beta zeta.
    set (w2 := buf_cap - 1 - len frac - len secs).
    assert (Hw2 : 19 <= w2 <= 30)
      by (pose proof (numeral_len _ _ Hsecn); subst w2; unfold len in *; cap_lia).
    destruct (Z.ltb_spec 0 (u1 / 60)) as [Hq | Hq].
    - (* minutes *)
      step_store. cbv beta. step_slice. cbv beta.
      destruct (fmtInt_digits 2 (w2 - 1) (u1 / 60 mod 60)
                  (String "M" (secs ++ frac ++ "S")))
        as (ms & Hms & Hmsn & Hmsl);
        [unfold fmtInt_fuel; lia | lia | lia |].
      rewrite (bind_done _ _ _ _ _ Hms). cbv beta zeta.
      set (w3 := w2 - 1 - len ms).
      assert (Hw3 : 16 <= w3 <= 28)
        by (pose proof (numeral_len _ _ Hmsn); subst w3; unfold len in *; lia).
      destruct (Z.ltb_spec 0 (u1 / 60 / 60)) as [Hh | Hh].
      + (* hours *)
        step_store. cbv beta. step_slice. cbv beta.
        destruct (fmtInt_digits 7 (w3 - 1) (u1 / 60 / 60)
                    (String "H" (ms ++ String "M" (secs ++ frac ++ "S"))))
          as (h & Hh' & Hhn & Hhl);
          [unfold fmtInt_fuel; lia | lia | lia |].
        rewrite (bind_done _ _ _ _ _ Hh'). cbv beta.
        exists ((h ++ "H") ++ ms ++ "M"), secs, frac, (w3 - 1 - len h).
        split.
        { right. split; [exact Hq |]. exists (h ++ "H"), ms.
          split; [reflexivity |]. split; [exact Hmsn |].
          right. split; [exact Hh |]. exists h. split; [reflexivity | exact Hhn]. }
        split; [exact Hsecn |]. split; [exact Hfrac |].
        split; [unfold len in *; cap_lia |].
        unfold ret. rewrite !append_assoc. cbn [append]. reflexivity.
      + exists ("" ++ ms ++ "M"), secs, frac, w3.
        split.
        { right. split; [exact Hq |]. exists "", ms.
          split; [reflexivity |]. split; [exact Hmsn |].
          left. split; [lia | reflexivity]. }
        split; [exact Hsecn |]. split; [exact Hfrac |].
        split; [cap_lia |].
        unfold ret. cbn [append]. rewrite !append_assoc. cbn [append]. reflexivity.
    - exists "", secs, frac, w2.
      split; [left; split; [lia | reflexivity] |].
      split; [exact Hsecn |]. split; [exact Hfrac |].
      split; [cap_lia | reflexivity]. }
  destruct Hblk as (hm & secs & frac & w & Hhm & Hsecn & Hfrac & Hw & Hblk).
  rewrite (bind_done _ _ _ _ _ Hblk). cbv beta iota.
  destruct (sign_and_prefix_text (d <? 0) w (hm ++ secs ++ frac ++ "S") Hw) as [b' Hfin].
  rewrite Hfin. exists hm, secs, frac.
  split; [exact Hhm |]. split; [exact Hsecn |]. split; [exact Hfrac | reflexivity].
Qed.

(** [String] on every duration: ["PT0S"] for zero; below one second
    the nanosecond count, a zero byte and ['S']; from one second on the
    hours and minutes when there are any, the seconds with their
    fraction, and ['S']; behind ["PT"] and, for a negative duration,
    the sign. *)
Theorem String_text (d : Duration) :
  is_int64 d ->
  (d = 0 -> Duration.String d = Done "PT0S") /\
  (0 < Z.abs d < 10 ^ 9 ->
   exists ns,
     numeral (Z.abs d) ns /\
     Duration.String d =
       Done ("PT" ++ (if d <? 0 then "-" else "") ++ ns ++ NUL ++ "S")) /\
  (10 ^ 9 <= Z.abs d ->
   exists hm secs frac,
     hours_minutes (Z.abs d / 10 ^ 9 / 60) hm /\
     numeral ((Z.abs d / 10 ^ 9) mod 60) secs /\
     fraction 9 (Z.abs d mod 10 ^ 9) frac /\
     Duration.String d =
       Done ("PT" ++ (if d <? 0 then "-" else "") ++ hm ++ secs ++ frac ++ "S")).
Proof.
  intros Hd. split; [| split].
  - intros ->. vm_compute. reflexivity.
  - apply String_below_second. exact Hd.
  - apply String_from_second. exact Hd.
Qed.

Lemma String_text_witness :
  exists hm secs frac,
    hours_minutes (Z.abs (-1500 * Millisecond) / 10 ^ 9 / 60) hm /\
    numeral ((Z.abs (-1500 * Millisecond) / 10 ^ 9) mod 60) secs /\
    fraction 9 (Z.abs (-1500 * Millisecond) mod 10 ^ 9) frac /\
    Duration.String (-1500 * Millisecond) =
      Done ("PT" ++ (if -1500 * Millisecond <? 0 then "-" else "")
                 ++ hm ++ secs ++ frac ++ "S").
Proof.
  apply (String_text (-1500 * Millisecond)).
  - vm_compute. split; discriminate.
  - vm_compute. discriminate.
Defined.

(* ================================================================== *)
(** * The grammar check, both ways *)

(** ** The matcher finds every match *)

Lemma star_tries_none {A} (cls : regexp.CharClass) (s : string) (pos : nat)
      (k : nat -> string -> option A) :
  k pos s <> None -> regexp.star cls pos s k <> None.
Proof.
  intros Hk. destruct s as [| a s]; cbn [regexp.star]; [exact Hk |].
  destruct (regexp.in_class cls a); [| exact Hk].
  destruct (regexp.star cls (S pos) s k); [discriminate | exact Hk].
Qed.

Lemma star_complete {A} (cls : regexp.CharClass) (s1 : string) :
  forall (pos : nat) (s2 : string) (k : nat -> string -> option A),
    all_in cls s1 = true ->
    k (pos + String.length s1)%nat s2 <> None ->
    regexp.star cls pos (s1 ++ s2) k <> None.
Proof.
  induction s1 as [| a s1 IH]; intros pos s2 k Hall Hk.
  - cbn [append]. apply star_tries_none.
    cbn [String.length] in Hk. rewrite Nat.add_0_r in Hk. exact Hk.
  - cbn [all_in] in Hall. apply andb_true_iff in Hall. destruct Hall as [Ha Hall].
    cbn [append regexp.star]. rewrite Ha.
    specialize (IH (S pos) s2 k Hall).
    cbn [String.length] in Hk. rewrite Nat.add_succ_r in Hk.
    destruct (regexp.star cls (S pos) (s1 ++ s2) k); [discriminate |].
    exfalso. apply IH; [exact Hk | reflexivity].
Qed.

(** Completeness of the matcher: when the expression can match a
    prefix after which the continuation succeeds, the search succeeds. *)
Lemma rmatch_complete {A} (r : regexp.Regexp) :
  forall (pos : nat) (s1 s2 : string) (c c' : regexp.caps)
         (k : nat -> string -> regexp.caps -> option A),
    denote r pos s1 s2 c c' ->
    k (pos + String.length s1)%nat s2 c' <> None ->
    regexp.rmatch r pos (s1 ++ s2) c k <> None.
Proof.
  induction r as [| | | a | cls | cls | r IH | r1 IH1 r2 IH2 | n r IH];
    intros pos s1 s2 c c' k Hd Hk; cbn [denote] in Hd; cbn [regexp.rmatch].
  - destruct Hd as [-> ->]. rewrite Nat.add_0_r in Hk. exact Hk.
  - destruct Hd as (-> & -> & ->). exact Hk.
  - destruct Hd as (-> & -> & ->). rewrite Nat.add_0_r in Hk. exact Hk.
  - destruct Hd as [-> ->]. cbn [append]. rewrite Ascii.eqb_refl.
    cbn [String.length] in Hk. rewrite Nat.add_1_r in Hk. exact Hk.
  - destruct Hd as (a & Ha & -> & ->). cbn [append]. rewrite Ha.
    cbn [String.length] in Hk. rewrite Nat.add_1_r in Hk. exact Hk.
  - destruct Hd as (Hne & Hall & ->).
    destruct s1 as [| b s1]; [congruence |].
    cbn [all_in] in Hall. apply andb_true_iff in Hall. destruct Hall as [Hb Hall].
    cbn [append]. rewrite Hb.
    apply star_complete; [exact Hall |].
    cbn [String.length] in Hk. rewrite Nat.add_succ_r in Hk. exact Hk.
  - destruct (regexp.rmatch r pos (s1 ++ s2) c k) eqn:Hr; [discriminate |].
    destruct Hd as [Hd | [-> ->]].
    + exfalso. exact (IH _ _ _ _ _ _ Hd Hk Hr).
    + rewrite Nat.add_0_r in Hk. exact Hk.
  - destruct Hd as (a & b & c1 & -> & Hd1 & Hd2).
    rewrite append_assoc. apply (IH1 _ _ _ _ _ _ Hd1).
    apply (IH2 _ _ _ _ _ _ Hd2).
    rewrite length_append, Nat.add_assoc in Hk. exact Hk.
  - destruct Hd as (c0 & Hd & ->).
    apply (IH _ _ _ _ _ _ Hd).
    replace (pos + String.length s1 - pos)%nat with (String.length s1) by lia.
    rewrite substring_prefix. exact Hk.
Qed.

Lemma find_complete (r : regexp.Regexp) (s : string) (c' : regexp.caps) :
  denote (regexp.Cap 0 r) 0 s "" regexp.no_caps c' ->
  regexp.find r 0 s <> None.
Proof.
  intros Hd.
  assert (H : regexp.rmatch (regexp.Cap 0 r) 0 (s ++ "") regexp.no_caps
                            (fun _ _ c => Some c) <> None)
    by (apply (rmatch_complete _ _ _ _ _ _ _ Hd); discriminate).
  rewrite append_nil_r in H.
  destruct s; cbn [regexp.find];
    destruct (regexp.rmatch _ _ _ _ _); congruence.
Qed.

(** ** Every text of the grammar matches *)

Lemma rField_denote (n : nat) (cls : regexp.CharClass) (des : ascii)
      (pos : nat) (x s2 : string) (c : regexp.caps) :
  field cls des x -> exists c', denote (rField n cls des) pos x s2 c c'.
Proof.
  intros [-> | (body & Hne & Hall & ->)]; unfold rField; cbn [denote].
  - exists c. right. auto.
  - eexists. left. eexists. split; [| reflexivity].
    exists body, (String des ""), c. repeat split; auto.
Qed.

Lemma duration_text_denote (str dd hh mm ss : string) :
  duration_text str dd hh mm ss ->
  exists c', denote (regexp.Cap 0 xmlDurationRegex) 0 str "" regexp.no_caps c'.
Proof.
  intros (Fd & Fh & Fm & Fs & Hlay). rewrite xmlDurationRegex_eq.
  assert (Htime : exists tt,
             str = "P" ++ dd ++ tt /\
             forall pos c, exists c',
               denote (regexp.Opt
                         (regexp.Cat (regexp.Lit "T")
                            (regexp.Cat (rField 2 regexp.digit "H")
                               (regexp.Cat (rField 3 regexp.digit "M")
                                  (rField 4 digit_or_dot "S")))))
                      pos tt "" c c').
  { destruct Hlay as [(-> & _) | ->].
    - exists "". split; [rewrite append_nil_r; reflexivity |].
      intros pos c. exists c. cbn [denote]. right. auto.
    - exists ("T" ++ hh ++ mm ++ ss). split; [reflexivity |].
      intros pos c.
      destruct (rField_denote 2 regexp.digit "H" (pos + 1) hh ((mm ++ ss) ++ "") c Fh)
        as [c2 H2].
      destruct (rField_denote 3 regexp.digit "M" (pos + 1 + String.length hh)
                              mm (ss ++ "") c2 Fm) as [c3 H3].
      destruct (rField_denote 4 digit_or_dot "S"
                              (pos + 1 + String.length hh + String.length mm)
                              ss "" c3 Fs) as [c4 H4].
      exists c4. cbn [denote]. left.
      exists "T", (hh ++ mm ++ ss), c. split; [reflexivity |].
      split; [split; reflexivity |].
      exists hh, (mm ++ ss), c2. split; [reflexivity |]. split; [exact H2 |].
      exists mm, ss, c3. split; [reflexivity |]. split; [exact H3 | exact H4]. }
  destruct Htime as (tt & -> & Htt).
  destruct (rField_denote 1 regexp.digit "D" 1 dd ((tt ++ "") ++ "") regexp.no_caps Fd)
    as [c1 H1].
  destruct (Htt (1 + String.length dd)%nat c1) as [c2 H2].
  eexists. cbn [denote]. eexists. split; [| reflexivity].
  exists "", ("P" ++ dd ++ tt), regexp.no_caps.
  split; [reflexivity |]. split; [repeat split |].
  exists "P", (dd ++ tt), regexp.no_caps.
  split; [reflexivity |]. split; [split; reflexivity |].
  exists dd, tt, c1.
  split; [reflexivity |]. split; [exact H1 |].
  exists tt, "", c2.
  split; [rewrite append_nil_r; reflexivity |].
  split; [exact H2 | repeat split].
Qed.

Lemma duration_text_Match (str dd hh mm ss : string) :
  duration_text str dd hh mm ss -> regexp.Match xmlDurationRegex str = true.
Proof.
  intros Ht.
  destruct (duration_text_denote _ _ _ _ _ Ht) as [c' Hd].
  unfold regexp.Match.
  pose proof (find_complete _ _ _ Hd) as Hf.
  destruct (regexp.find xmlDurationRegex 0 str); [reflexivity | congruence].
Qed.

(** The grammar check passes exactly on the texts laid out as [P], an
    optional days field and an optional [T] group of optional hours,
    minutes and seconds fields. *)
Theorem Match_iff_duration_text (str : string) :
  regexp.Match xmlDurationRegex str = true <->
  exists dd hh mm ss, duration_text str dd hh mm ss.
Proof.
  split.
  - intros Hm. destruct (Match_parts str Hm) as (dd & hh & mm & ss & _ & Ht).
    exists dd, hh, mm, ss. exact Ht.
  - intros (dd & hh & mm & ss & Ht). exact (duration_text_Match _ _ _ _ _ Ht).
Qed.

Lemma Match_iff_duration_text_witness :
  regexp.Match xmlDurationRegex "PT5M" = true.
Proof.
  apply (proj2 (Match_iff_duration_text "PT5M")).
  exists "", "", "5M", "". unfold duration_text, field.
  split; [left; reflexivity |]. split; [left; reflexivity |].
  split; [right; exists "5"; split; [discriminate | split; reflexivity] |].
  split; [left; reflexivity |]. right. reflexivity.
Defined.

(** ** A text has one reading *)

(** A run of bytes of a class is ended by the first byte outside it. *)
Lemma span_unique (cls : regexp.CharClass) (a : string) :
  forall (a' : string) (d d' : ascii) (x x' : string),
    all_in cls a = true -> all_in cls a' = true ->
    regexp.in_class cls d = false -> regexp.in_class cls d' = false ->
    a ++ String d x = a' ++ String d' x' ->
    a = a' /\ d = d' /\ x = x'.
Proof.
  induction a as [| h a IH]; intros [| h' a'] d d' x x' Ha Ha' Hd Hd' Heq;
    cbn [append all_in] in *.
  - injection Heq as -> ->. auto.
  - injection Heq as -> _. apply andb_true_iff in Ha'. destruct Ha'. congruence.
  - injection Heq as -> _. apply andb_true_iff in Ha. destruct Ha. congruence.
  - injection Heq as -> Heq.
    apply andb_true_iff in Ha, Ha'. destruct Ha as [_ Ha], Ha' as [_ Ha'].
    destruct (IH _ _ _ _ _ Ha Ha' Hd Hd' Heq) as (-> & -> & ->). auto.
Qed.

Lemma flatten_injective (l : list (string * ascii)) :
  forall l', Forall good_piece l -> Forall good_piece l' ->
             flatten l = flatten l' -> l = l'.
Proof.
  induction l as [| [b d] l IH]; intros [| [b' d'] l'] Hl Hl' Heq; cbn [flatten] in Heq.
  - reflexivity.
  - destruct b'; discriminate.
  - destruct b; discriminate.
  - inversion Hl as [| ? ? [Hb Hd] Hrest]. inversion Hl' as [| ? ? [Hb' Hd'] Hrest'].
    subst. cbn [fst snd] in *.
    destruct (span_unique _ _ _ _ _ _ _ Hb Hb' Hd Hd' Heq) as (-> & -> & Hf).
    rewrite (IH l' Hrest Hrest' Hf). reflexivity.
Qed.

Lemma all_in_digit_sub (s : string) :
  all_in regexp.digit s = true -> all_in digit_or_dot s = true.
Proof.
  induction s as [| a s IH]; cbn [all_in]; [reflexivity |].
  intros H. apply andb_true_iff in H. destruct H as [Ha Hs].
  rewrite in_class_digit in Ha. rewrite in_class_digit_or_dot, Ha, (IH Hs). reflexivity.
Qed.

Lemma lookup_piece_same (des : ascii) (x : string) (l : list (string * ascii)) :
  lookup des (piece des x ++ l)%list =
  if String.eqb x "" then lookup des l
  else Some (strings.TrimRight x (String des "")).
Proof.
  unfold piece. destruct (String.eqb x ""); cbn [app lookup]; [reflexivity |].
  rewrite Ascii.eqb_refl. reflexivity.
Qed.

Lemma lookup_piece_other (des des' : ascii) (x : string) (l : list (string * ascii)) :
  Ascii.eqb des' des = false ->
  lookup des (piece des' x ++ l)%list = lookup des l.
Proof.
  intros Hne. unfold piece. destruct (String.eqb x ""); cbn [app lookup]; [reflexivity |].
  rewrite Hne. reflexivity.
Qed.

Lemma lookup_piece_other_last (des des' : ascii) (x : string) :
  Ascii.eqb des' des = false -> lookup des (piece des' x) = None.
Proof.
  intros Hne. rewrite <- (app_nil_r (piece des' x)).
  rewrite lookup_piece_other by exact Hne. reflexivity.
Qed.

(** A field, when it is there, is its run of bytes and its designator. *)
Lemma field_piece (cls : regexp.CharClass) (des : ascii) (x : string) :
  field cls des x ->
  (forall s, all_in cls s = true -> all_in digit_or_dot s = true) ->
  regexp.in_class cls des = false ->
  regexp.in_class digit_or_dot des = false ->
  Forall good_piece (piece des x) /\
  (forall l, flatten (piece des x ++ l) = x ++ flatten l) /\
  x = match lookup des (piece des x) with
      | None => ""
      | Some body => body ++ String des ""
      end.
Proof.
  intros [-> | (body & Hne & Hall & ->)] Hsub Hdes Hdes'; unfold piece.
  - cbn. auto.
  - rewrite field_not_empty, (TrimRight_field _ _ _ Hdes Hall).
    cbn [app flatten lookup]. rewrite Ascii.eqb_refl.
    split; [constructor; [split; [apply Hsub; exact Hall | exact Hdes'] | constructor] |].
    split; [intros l; rewrite append_assoc; reflexivity | reflexivity].
Qed.

Lemma days_piece (x : string) :
  field regexp.digit "D" x ->
  Forall good_piece (piece "D" x) /\
  (forall l, flatten (piece "D" x ++ l) = x ++ flatten l) /\
  x = match lookup "D" (piece "D" x) with
      | None => "" | Some body => body ++ "D" end.
Proof. intros H. exact (field_piece _ _ _ H all_in_digit_sub eq_refl eq_refl). Qed.

Lemma hours_piece (x : string) :
  field regexp.digit "H" x ->
  Forall good_piece (piece "H" x) /\
  (forall l, flatten (piece "H" x ++ l) = x ++ flatten l) /\
  x = match lookup "H" (piece "H" x) with
      | None => "" | Some body => body ++ "H" end.
Proof. intros H. exact (field_piece _ _ _ H all_in_digit_sub eq_refl eq_refl). Qed.

Lemma minutes_piece (x : string) :
  field regexp.digit "M" x ->
  Forall good_piece (piece "M" x) /\
  (forall l, flatten (piece "M" x ++ l) = x ++ flatten l) /\
  x = match lookup "M" (piece "M" x) with
      | None => "" | Some body => body ++ "M" end.
Proof. intros H. exact (field_piece _ _ _ H all_in_digit_sub eq_refl eq_refl). Qed.

Lemma seconds_piece (x : string) :
  field digit_or_dot "S" x ->
  Forall good_piece (piece "S" x) /\
  (forall l, flatten (piece "S" x ++ l) = x ++ flatten l) /\
  x = match lookup "S" (piece "S" x) with
      | None => "" | Some body => body ++ "S" end.
Proof. intros H. exact (field_piece _ _ _ H (fun s H => H) eq_refl eq_refl). Qed.

(** The pieces of a text of the grammar, and the fields read back
    from them. *)
Lemma duration_text_pieces (str dd hh mm ss : string) :
  duration_text str dd hh mm ss ->
  exists l,
    str = "P" ++ flatten l /\ Forall good_piece l /\
    dd = match lookup "D" l with None => "" | Some b => b ++ "D" end /\
    hh = match lookup "H" l with None => "" | Some b => b ++ "H" end /\
    mm = match lookup "M" l with None => "" | Some b => b ++ "M" end /\
    ss = match lookup "S" l with None => "" | Some b => b ++ "S" end.
Proof.
  intros (Fd & Fh & Fm & Fs & Hlay).
  destruct (days_piece dd Fd) as (Gd & Ld & Ed).
  destruct (hours_piece hh Fh) as (Gh & Lh & Eh).
  destruct (minutes_piece mm Fm) as (Gm & Lm & Em).
  destruct (seconds_piece ss Fs) as (Gs & Ls & Es).
  destruct Hlay as [(-> & -> & -> & ->) | ->].
  - exists (piece "D" dd).
    pose proof (Ld []) as Ld0. rewrite app_nil_r in Ld0.
    cbn [flatten] in Ld0. rewrite append_nil_r in Ld0. rewrite Ld0.
    split; [reflexivity |]. split; [exact Gd |].
    split; [exact Ed |].
    rewrite !lookup_piece_other_last by reflexivity. auto.
  - exists (piece "D" dd ++
            ("", "T"%char) :: piece "H" hh ++ piece "M" mm ++ piece "S" ss)%list.
    rewrite Ld. cbn [flatten append]. rewrite Lh, Lm.
    rewrite <- (app_nil_r (piece "S" ss)) at 1. rewrite Ls. cbn [flatten].
    rewrite append_nil_r.
    split; [reflexivity |].
    split.
    { apply Forall_app. split; [exact Gd |].
      constructor; [split; reflexivity |].
      apply Forall_app. split; [exact Gh |].
      apply Forall_app. split; [exact Gm | exact Gs]. }
    split.
    { rewrite lookup_piece_same. unfold piece in Ed.
      destruct (String.eqb dd "") eqn:E; cbn [lookup] in Ed;
        [| rewrite Ascii.eqb_refl in Ed; exact Ed].
      cbn [lookup]. change (Ascii.eqb "T" "D") with false. cbv iota.
      rewrite !lookup_piece_other, lookup_piece_other_last by reflexivity. exact Ed. }
    split.
    { rewrite lookup_piece_other by reflexivity. cbn [lookup].
      change (Ascii.eqb "T" "H") with false. cbv iota.
      rewrite lookup_piece_same. unfold piece in Eh.
      destruct (String.eqb hh "") eqn:E; cbn [lookup] in Eh;
        [| rewrite Ascii.eqb_refl in Eh; exact Eh].
      rewrite lookup_piece_other, lookup_piece_other_last by reflexivity.
      exact Eh. }
    split.
    { rewrite lookup_piece_other by reflexivity. cbn [lookup].
      change (Ascii.eqb "T" "M") with false. cbv iota.
      rewrite lookup_piece_other by reflexivity.
      rewrite lookup_piece_same. unfold piece in Em.
      destruct (String.eqb mm "") eqn:E; cbn [lookup] in Em;
        [| rewrite Ascii.eqb_refl in Em; exact Em].
      rewrite lookup_piece_other_last by reflexivity.
      exact Em. }
    rewrite lookup_piece_other by reflexivity. cbn [lookup].
    change (Ascii.eqb "T" "S") with false. cbv iota.
    rewrite !lookup_piece_other by reflexivity. exact Es.
Qed.

(** A text of the grammar has exactly one reading. *)
Lemma duration_text_unique (str dd hh mm ss dd' hh' mm' ss' : string) :
  duration_text str dd hh mm ss -> duration_text str dd' hh' mm' ss' ->
  dd = dd' /\ hh = hh' /\ mm = mm' /\ ss = ss'.
Proof.
  intros H H'.
  destruct (duration_text_pieces _ _ _ _ _ H) as (l & Hs & Hg & -> & -> & -> & ->).
  destruct (duration_text_pieces _ _ _ _ _ H') as (l' & Hs' & Hg' & -> & -> & -> & ->).
  rewrite Hs in Hs'. injection Hs' as Heq.
  rewrite (flatten_injective l l' Hg Hg' Heq). auto.
Qed.

(** The groups of the match of a text of the grammar are its fields. *)
Lemma duration_text_parts (str dd hh mm ss : string) :
  duration_text str dd hh mm ss ->
  regexp.Match xmlDurationRegex str = true /\
  regexp.FindStringSubmatch xmlDurationRegex str = [str; dd; hh; mm; ss].
Proof.
  intros Ht.
  assert (Hm : regexp.Match xmlDurationRegex str = true)
    by exact (duration_text_Match _ _ _ _ _ Ht).
  split; [exact Hm |].
  destruct (Match_parts str Hm) as (dd' & hh' & mm' & ss' & Hparts & Ht').
  destruct (duration_text_unique _ _ _ _ _ _ _ _ _ Ht Ht') as (-> & -> & -> & ->).
  exact Hparts.
Qed.

(** A text of the grammar has one reading only, and the groups
    [FindStringSubmatch] returns for it are the whole text and the
    days, hours, minutes and seconds fields of that reading, the empty
    text standing for an absent field. *)
Theorem FindStringSubmatch_fields (str dd hh mm ss : string) :
  duration_text str dd hh mm ss ->
  regexp.FindStringSubmatch xmlDurationRegex str = [str; dd; hh; mm; ss] /\
  (forall dd' hh' mm' ss',
      duration_text str dd' hh' mm' ss' ->
      dd' = dd /\ hh' = hh /\ mm' = mm /\ ss' = ss).
Proof.
  intros Ht. split.
  - exact (proj2 (duration_text_parts _ _ _ _ _ Ht)).
  - intros dd' hh' mm' ss' Ht'.
    destruct (duration_text_unique _ _ _ _ _ _ _ _ _ Ht Ht') as (-> & -> & -> & ->).
    auto.
Qed.

Lemma FindStringSubmatch_fields_witness :
  regexp.FindStringSubmatch xmlDurationRegex "P1DT2M" = ["P1DT2M"; "1D"; ""; "2M"; ""] /\
  (forall dd' hh' mm' ss',
      duration_text "P1DT2M" dd' hh' mm' ss' ->
      dd' = "1D" /\ hh' = "" /\ mm' = "2M" /\ ss' = "").
Proof.
  apply (FindStringSubmatch_fields "P1DT2M" "1D" "" "2M" "").
  unfold duration_text, field.
  split; [right; exists "1"; split; [discriminate | split; reflexivity] |].
  split; [left; reflexivity |].
  split; [right; exists "2"; split; [discriminate | split; reflexivity] |].
  split; [left; reflexivity |]. right. reflexivity.
Defined.

(* ================================================================== *)
(** * Integers through float64 *)

Lemma shr_1_double (q : Z) :
  0 <= q ->
  shr_1 {| shr_m := 2 * q; shr_r := false; shr_s := false |} =
  {| shr_m := q; shr_r := false; shr_s := false |}.
Proof. destruct q as [| p | p]; [reflexivity | reflexivity | lia]. Qed.

(** Shifting out zero bits loses nothing. *)
Lemma iter_shr_1_exact (p : positive) :
  forall q, 0 <= q ->
    iter_pos shr_1 p {| shr_m := q * 2 ^ Zpos p; shr_r := false; shr_s := false |} =
    {| shr_m := q; shr_r := false; shr_s := false |}.
Proof.
  induction p as [p IH | p IH |]; intros q Hq; cbn [iter_pos].
  - replace (q * 2 ^ Zpos p~1) with (2 * ((q * 2 ^ Zpos p) * 2 ^ Zpos p)).
    + assert (0 < 2 ^ Zpos p) by (apply Z.pow_pos_nonneg; lia).
      rewrite shr_1_double by nia. rewrite IH by nia. apply IH. exact Hq.
    + rewrite Pos2Z.inj_xI.
      replace (2 * Zpos p + 1) with (1 + Zpos p + Zpos p) by lia.
      rewrite !Z.pow_add_r by lia. rewrite Z.pow_1_r. ring.
  - replace (q * 2 ^ Zpos p~0) with ((q * 2 ^ Zpos p) * 2 ^ Zpos p).
    + assert (0 < 2 ^ Zpos p) by (apply Z.pow_pos_nonneg; lia).
      rewrite IH by nia. apply IH. exact Hq.
    + replace (Zpos p~0) with (Zpos p + Zpos p) by lia.
      rewrite Z.pow_add_r by lia. ring.
  - rewrite Z.pow_1_r, Z.mul_comm. apply shr_1_double. exact Hq.
Qed.

Lemma Zdigits2_mul_pow2 (z k : Z) :
  0 < z -> 0 <= k -> Zdigits2 (z * 2 ^ k) = Zdigits2 z + k.
Proof.
  intros Hz Hk.
  assert (0 < 2 ^ k) by (apply Z.pow_pos_nonneg; lia).
  rewrite !Zdigits2_log2 by nia. rewrite Z.log2_mul_pow2 by lia. lia.
Qed.

Lemma Zdigits2_range (z : Z) :
  0 < z -> 1 <= Zdigits2 z /\ 2 ^ (Zdigits2 z - 1) <= z < 2 ^ Zdigits2 z.
Proof.
  intros Hz. rewrite Zdigits2_log2 by exact Hz.
  pose proof (Z.log2_nonneg z). pose proof (Z.log2_spec z Hz) as Hs.
  replace (Z.log2 z + 1 - 1) with (Z.log2 z) by lia.
  replace (Z.log2 z + 1) with (Z.succ (Z.log2 z)) by lia. lia.
Qed.

Lemma shr_fexp_exact (q n e : Z) :
  0 <= q -> 0 <= n ->
  fexp strconv.prec strconv.emax (Zdigits2 (q * 2 ^ n) + e) - e = n ->
  shr_fexp strconv.prec strconv.emax (q * 2 ^ n) e loc_Exact =
  ({| shr_m := q; shr_r := false; shr_s := false |}, e + n).
Proof.
  intros Hq Hn Hf. unfold shr_fexp, shr. rewrite Hf. cbn [shr_record_of_loc].
  destruct n as [| p | p]; [| | lia].
  - rewrite Z.pow_0_r, Z.mul_1_r, Z.add_0_r. reflexivity.
  - rewrite iter_shr_1_exact by exact Hq. reflexivity.
Qed.

(** Rounding the integer [z], given with [k] more zero bits than the 53
    of the mantissa need, gives [z] itself. *)
Lemma binary_round_aux_exact (s : bool) (z k : Z) :
  0 < z < 2 ^ 53 -> 53 - Zdigits2 z <= k ->
  binary_round_aux strconv.prec strconv.emax s (z * 2 ^ k) (- k) loc_Exact =
  S754_finite s (Z.to_pos (z * 2 ^ (53 - Zdigits2 z))) (Zdigits2 z - 53).
Proof.
  intros Hz Hk.
  destruct (Zdigits2_range z ltac:(lia)) as (Hd1 & Hlo & Hhi).
  assert (Hd53 : Zdigits2 z <= 53)
    by (apply (Zdigits2_le_iff z 53); lia).
  set (dz := Zdigits2 z) in *.
  assert (Hk0 : 0 <= k) by lia.
  unfold binary_round_aux.
  replace (z * 2 ^ k) with ((z * 2 ^ (53 - dz)) * 2 ^ (k - (53 - dz)))
    by (rewrite <- Z.mul_assoc, <- Z.pow_add_r by lia; f_equal; f_equal; lia).
  assert (Hm1 : 0 < z * 2 ^ (53 - dz))
    by (apply Z.mul_pos_pos; [lia | apply Z.pow_pos_nonneg; lia]).
  assert (Hdm1 : Zdigits2 (z * 2 ^ (53 - dz)) = 53)
    by (rewrite Zdigits2_mul_pow2 by lia; fold dz; lia).
  rewrite shr_fexp_exact; try lia.
  2:{ rewrite Zdigits2_mul_pow2, Hdm1, fexp64 by lia. lia. }
  cbn [shr_m loc_of_shr_record round_nearest_even].
  replace (z * 2 ^ (53 - dz)) with ((z * 2 ^ (53 - dz)) * 2 ^ 0) at 1
    by (rewrite Z.pow_0_r; lia).
  rewrite shr_fexp_exact; try lia.
  2:{ rewrite Z.pow_0_r, Z.mul_1_r, Hdm1, fexp64. lia. }
  cbn [shr_m].
  destruct (z * 2 ^ (53 - dz)) as [| m | m] eqn:Em; try lia.
  replace (- k + (k - (53 - dz)) + 0 <=? strconv.emax - strconv.prec) with true
    by (symmetry; apply Z.leb_le; unfold strconv.emax, strconv.prec; lia).
  cbn [Z.to_pos]. f_equal. lia.
Qed.

(** [strconv.ParseFloat] on the digits of a positive integer below
    [2^53] gives that integer. *)
Lemma round_decimal_integer (z : Z) :
  0 < z < 2 ^ 53 -> strconv.round_decimal z 0 = exact_float z.
Proof.
  intros Hz. destruct (Zdigits2_range z ltac:(lia)) as (Hd1 & Hlo & Hhi).
  assert (Hd53 : Zdigits2 z <= 53) by (apply (Zdigits2_le_iff z 53); lia).
  unfold strconv.round_decimal, exact_float.
  destruct z as [| p | p]; try lia.
  unfold SFdiv, SFdiv_core_binary.
  change (Zpos (Z.to_pos (10 ^ Z.of_nat 0))) with 1.
  change (Zdigits2 1) with 1.
  replace (Z.min (fexp strconv.prec strconv.emax (Zdigits2 (Zpos p) + 0 - (1 + 0))) (0 - 0))
    with (- (54 - Zdigits2 (Zpos p))) by (rewrite fexp64; lia).
  replace (0 - 0 - - (54 - Zdigits2 (Zpos p))) with (54 - Zdigits2 (Zpos p)) by lia.
  destruct (54 - Zdigits2 (Zpos p)) as [| s | s] eqn:Es; try lia.
  rewrite Z.shiftl_mul_pow2 by lia.
  assert (Hdiv : Z.div_eucl (Zpos p * 2 ^ Zpos s) 1 = (Zpos p * 2 ^ Zpos s, 0)).
  { pose proof (Z.div_1_r (Zpos p * 2 ^ Zpos s)) as Hq.
    pose proof (Z.mod_1_r (Zpos p * 2 ^ Zpos s)) as Hr.
    unfold Z.div, Z.modulo in Hq, Hr.
    destruct (Z.div_eucl (Zpos p * 2 ^ Zpos s) 1). congruence. }
  rewrite Hdiv. change (new_location 1 0) with loc_Exact.
  rewrite <- Es. apply binary_round_aux_exact; lia.
Qed.

(** The conversion [float64(z)] of such an integer. *)
Lemma float64_of_Z_exact (z : Z) :
  0 < z < 2 ^ 53 -> strconv.float64_of_Z z = exact_float z.
Proof.
  intros Hz. destruct (Zdigits2_range z ltac:(lia)) as (Hd1 & Hlo & Hhi).
  assert (Hd53 : Zdigits2 z <= 53) by (apply (Zdigits2_le_iff z 53); lia).
  unfold strconv.float64_of_Z, binary_normalize, exact_float.
  destruct z as [| p | p]; try lia.
  unfold binary_round, shl_align.
  change (Zpos (digits2_pos p)) with (Zdigits2 (Zpos p)).
  rewrite fexp64, Z.add_0_r.
  replace (Z.max (Zdigits2 (Zpos p) - 53) (-1074) - 0) with (- (53 - Zdigits2 (Zpos p))) by lia.
  destruct (53 - Zdigits2 (Zpos p)) as [| s | s] eqn:Es; try lia; cbn [Z.opp].
  - pose proof (binary_round_aux_exact false (Zpos p) 0 ltac:(lia) ltac:(lia)) as H.
    rewrite Z.pow_0_r, Z.mul_1_r in H. cbn [Z.opp] in H. rewrite Es in H. exact H.
  - change (Pos.iter xO p s) with (shift_pos s p).
    rewrite shift_pos_correct.
    change (Zpower_pos 2 s) with (2 ^ Zpos s). rewrite Z.mul_comm.
    replace (Z.max (Zdigits2 (Zpos p) - 53) (-1074)) with (- Zpos s) by lia.
    rewrite <- Es. apply binary_round_aux_exact; lia.
Qed.

(** The product of two such integers, when it is below [2^53] too. *)
Lemma float64_mul_exact (a b : Z) :
  0 < a -> 0 < b -> a * b < 2 ^ 53 ->
  float64_mul (exact_float a) (exact_float b) = exact_float (a * b).
Proof.
  intros Ha Hb Hab.
  destruct (Zdigits2_range a Ha) as (Hda & Hloa & Hhia).
  destruct (Zdigits2_range b Hb) as (Hdb & Hlob & Hhib).
  destruct (Zdigits2_range (a * b) ltac:(nia)) as (Hdab & Hloab & Hhiab).
  assert (Ha53 : Zdigits2 a <= 53) by (apply (Zdigits2_le_iff a 53); nia).
  assert (Hb53 : Zdigits2 b <= 53) by (apply (Zdigits2_le_iff b 53); nia).
  assert (Hdsum : Zdigits2 a + Zdigits2 b - 1 <= Zdigits2 (a * b)).
  { assert (Hp : 2 ^ (Zdigits2 a - 1 + (Zdigits2 b - 1)) <= a * b)
      by (rewrite Z.pow_add_r by lia; nia).
    assert (Hlt : 2 ^ (Zdigits2 a - 1 + (Zdigits2 b - 1)) < 2 ^ Zdigits2 (a * b)) by lia.
    apply Z.pow_lt_mono_r_iff in Hlt; lia. }
  unfold float64_mul, exact_float, SFmul. cbn [xorb].
  assert (Hpa : 0 < a * 2 ^ (53 - Zdigits2 a))
    by (apply Z.mul_pos_pos; [lia | apply Z.pow_pos_nonneg; lia]).
  assert (Hpb : 0 < b * 2 ^ (53 - Zdigits2 b))
    by (apply Z.mul_pos_pos; [lia | apply Z.pow_pos_nonneg; lia]).
  rewrite Pos2Z.inj_mul, !Z2Pos.id by lia.
  replace (a * 2 ^ (53 - Zdigits2 a) * (b * 2 ^ (53 - Zdigits2 b)))
    with ((a * b) * 2 ^ (106 - Zdigits2 a - Zdigits2 b)).
  - replace (Zdigits2 a - 53 + (Zdigits2 b - 53))
      with (- (106 - Zdigits2 a - Zdigits2 b)) by lia.
    apply binary_round_aux_exact; [nia | lia].
  - replace (106 - Zdigits2 a - Zdigits2 b)
      with ((53 - Zdigits2 a) + (53 - Zdigits2 b)) by lia.
    rewrite Z.pow_add_r by lia. ring.
Qed.

(** And back: [int64(f)] of such a float is the integer. *)
Lemma float64_to_int64_exact (z : Z) :
  0 < z < 2 ^ 53 -> float64_to_int64 (exact_float z) = z.
Proof.
  intros Hz. destruct (Zdigits2_range z ltac:(lia)) as (Hd1 & Hlo & Hhi).
  assert (Hd53 : Zdigits2 z <= 53) by (apply (Zdigits2_le_iff z 53); lia).
  assert (Hp : 0 < 2 ^ (53 - Zdigits2 z)) by (apply Z.pow_pos_nonneg; lia).
  unfold float64_to_int64, exact_float.
  rewrite Z2Pos.id by nia.
  assert (Hv : (if 0 <=? Zdigits2 z - 53
                then z * 2 ^ (53 - Zdigits2 z) * 2 ^ (Zdigits2 z - 53)
                else z * 2 ^ (53 - Zdigits2 z) / 2 ^ (- (Zdigits2 z - 53))) = z).
  { destruct (Z.leb_spec 0 (Zdigits2 z - 53)).
    - replace (Zdigits2 z) with 53 by lia. cbn. lia.
    - replace (- (Zdigits2 z - 53)) with (53 - Zdigits2 z) by lia.
      apply Z.div_mul. lia. }
  rewrite Hv.
  replace ((int64_min <=? z) && (z <=? int64_max)) with true; [reflexivity |].
  symmetry. apply andb_true_iff. split; apply Z.leb_le; range_lia.
Qed.

(* ================================================================== *)
(** * The value parseDuration returns *)

(** ** No text of the grammar has a sign *)

Lemma Contains_mem (c : ascii) (s : string) :
  strings.Contains s (String c "") = strings.mem c s.
Proof.
  induction s as [| a s IH]; cbn [strings.Contains strings.mem String.prefix];
    [reflexivity |].
  rewrite IH. destruct (ascii_dec c a) as [-> | Hne].
  - rewrite prefix_empty, Ascii.eqb_refl. reflexivity.
  - destruct (Ascii.eqb_spec a c); [congruence | reflexivity].
Qed.

Lemma mem_app (c : ascii) (s t : string) :
  strings.mem c (s ++ t) = strings.mem c s || strings.mem c t.
Proof.
  induction s as [| a s IH]; cbn [append strings.mem]; [reflexivity |].
  rewrite IH. apply orb_assoc.
Qed.

Lemma mem_class (cls : regexp.CharClass) (c : ascii) (s : string) :
  all_in cls s = true -> regexp.in_class cls c = false -> strings.mem c s = false.
Proof.
  intros Hall Hc. induction s as [| a s IH]; cbn [strings.mem]; [reflexivity |].
  cbn [all_in] in Hall. apply andb_true_iff in Hall. destruct Hall as [Ha Hs].
  rewrite (IH Hs). destruct (Ascii.eqb_spec a c); [congruence | reflexivity].
Qed.

Lemma field_mem (cls : regexp.CharClass) (des c : ascii) (x : string) :
  field cls des x -> regexp.in_class cls c = false -> Ascii.eqb des c = false ->
  strings.mem c x = false.
Proof.
  intros [-> | (body & _ & Hall & ->)] Hc Hdes; [reflexivity |].
  rewrite mem_app, (mem_class _ _ _ Hall Hc). cbn [strings.mem orb].
  rewrite Hdes. reflexivity.
Qed.

Lemma duration_text_no_minus (str dd hh mm ss : string) :
  duration_text str dd hh mm ss -> strings.Contains str "-" = false.
Proof.
  intros (Fd & Fh & Fm & Fs & Hlay). rewrite Contains_mem.
  pose proof (field_mem _ _ "-" _ Fd eq_refl eq_refl) as Hd.
  pose proof (field_mem _ _ "-" _ Fh eq_refl eq_refl) as Hh.
  pose proof (field_mem _ _ "-" _ Fm eq_refl eq_refl) as Hm.
  pose proof (field_mem _ _ "-" _ Fs eq_refl eq_refl) as Hs.
  destruct Hlay as [(-> & _) | ->].
  - rewrite mem_app, Hd. reflexivity.
  - rewrite !mem_app, Hd, Hh, Hm, Hs. reflexivity.
Qed.

(** ** The conversions, with their values *)

Lemma Atoi_digits_value (s : string) :
  s <> "" -> strconv.all_digits s = true -> strconv.decimal 0 s <= int64_max ->
  strconv.Atoi s = inl (strconv.decimal 0 s).
Proof.
  intros Hne Hall Hmax. unfold strconv.Atoi.
  destruct s as [| a s]; [congruence |].
  assert (Ha : strconv.is_digit a = true).
  { cbn [strconv.all_digits] in Hall. apply andb_true_iff in Hall. tauto. }
  destruct (Ascii.eqb_spec a "-") as [-> | _]; [discriminate Ha |].
  destruct (Ascii.eqb_spec a "+") as [-> | _]; [discriminate Ha |].
  rewrite Hall.
  pose proof (decimal_range (String a s) 0 ltac:(lia) Hall) as Hr.
  replace ((int64_min <=? strconv.decimal 0 (String a s)) &&
           (strconv.decimal 0 (String a s) <=? int64_max)) with true; [reflexivity |].
  symmetry. apply andb_true_iff. split; apply Z.leb_le; range_lia.
Qed.

Lemma split_dot_digits (s : string) :
  strconv.all_digits s = true -> strconv.split_dot s = (s, None).
Proof.
  induction s as [| a s IH]; cbn [strconv.all_digits strconv.split_dot]; [reflexivity |].
  intros H. apply andb_true_iff in H. destruct H as [Ha Hs].
  destruct (Ascii.eqb_spec a ".") as [-> | _]; [discriminate Ha |].
  rewrite (IH Hs). reflexivity.
Qed.

(** A seconds field of digits only, worth less than [2^53]
    nanoseconds, is read exactly. *)
Lemma seconds_digits_value (s : string) :
  s <> "" -> strconv.all_digits s = true ->
  strconv.decimal 0 s * 10 ^ 9 < 2 ^ 53 ->
  exists f,
    strconv.ParseFloat s = inl f /\
    float64_to_int64 (float64_mul f (strconv.float64_of_Z time_Second)) =
      strconv.decimal 0 s * time_Second.
Proof.
  intros Hne Hall Hsmall. unfold strconv.ParseFloat.
  rewrite (split_dot_digits s Hall), append_nil_r, Hall.
  destruct (String.eqb_spec s "") as [-> | _]; [congruence |].
  cbn [strconv.all_digits andb negb String.length].
  pose proof (decimal_range s 0 ltac:(lia) Hall) as [Hn0 _].
  set (z := strconv.decimal 0 s) in *.
  destruct (Z.eq_dec z 0) as [Hz | Hz].
  - rewrite Hz. cbn [strconv.round_decimal]. eexists. split; [reflexivity |].
    reflexivity.
  - rewrite (round_decimal_integer z) by lia.
    unfold exact_float at 1. eexists. split; [reflexivity |].
    fold (exact_float z).
    rewrite (float64_of_Z_exact time_Second) by (unfold time_Second; lia).
    change time_Second with (10 ^ 9).
    rewrite float64_mul_exact by lia.
    apply float64_to_int64_exact. lia.
Qed.

(** ** The fields, with their values *)

Lemma int_field_nonneg (des : ascii) (x : string) :
  field regexp.digit des x -> regexp.in_class regexp.digit des = false ->
  0 <= field_number des x.
Proof.
  unfold field_number.
  intros [-> | (body & Hne & Hall & ->)] Hdes.
  - cbn. lia.
  - rewrite field_not_empty.
    rewrite (TrimRight_field _ _ _ Hdes Hall).
    rewrite all_in_digit in Hall.
    apply (decimal_range body 0); [lia | exact Hall].
Qed.

Lemma int_field_value (des : ascii) (x : string) :
  field regexp.digit des x -> regexp.in_class regexp.digit des = false ->
  field_number des x <= int64_max ->
  (x = "" /\ field_number des x = 0) \/
  (String.eqb x "" = false /\
   strconv.Atoi (strings.TrimRight x (String des "")) = inl (field_number des x)).
Proof.
  unfold field_number.
  intros [-> | (body & Hne & Hall & ->)] Hdes Hmax.
  - cbn. left; auto.
  - rewrite field_not_empty in *.
    rewrite (TrimRight_field _ _ _ Hdes Hall) in *.
    rewrite all_in_digit in Hall.
    right. split; [reflexivity |].
    apply Atoi_digits_value; assumption.
Qed.

Lemma seconds_field_value (x : string) :
  field digit_or_dot "S" x ->
  strconv.all_digits (strings.TrimRight x "S") = true ->
  field_number "S" x * 10 ^ 9 < 2 ^ 53 ->
  0 <= field_number "S" x /\
  ((x = "" /\ field_number "S" x = 0) \/
   (String.eqb x "" = false /\
    exists f,
      strconv.ParseFloat (strings.TrimRight x "S") = inl f /\
      float64_to_int64 (float64_mul f (strconv.float64_of_Z time_Second)) =
        field_number "S" x * time_Second)).
Proof.
  unfold field_number.
  intros [-> | (body & Hne & Hall & ->)] Hdig Hsmall.
  - cbn. split; [lia | left; auto].
  - rewrite field_not_empty in *.
    rewrite (TrimRight_field digit_or_dot "S" body eq_refl Hall) in *.
    pose proof (decimal_range body 0 ltac:(lia) Hdig) as [H0 _].
    split; [exact H0 | right]. split; [reflexivity |].
    apply seconds_digits_value; assumption.
Qed.

Ltac unwrap_int64 :=
  repeat match goal with
         | |- context [to_int64 ?z] =>
             lazymatch z with
             | context [to_int64 _] => fail
             | _ => rewrite (to_int64_id z) by range_lia
             end
         end.

(** [parseDuration] on a text of the grammar, given what the
    conversion of its seconds field comes to. *)
Lemma parseDuration_total (str dd hh mm ss : string) (v : Z) :
  duration_text str dd hh mm ss ->
  3 <= len str ->
  ((ss = "" /\ v = 0) \/
   (String.eqb ss "" = false /\
    exists f,
      strconv.ParseFloat (strings.TrimRight ss "S") = inl f /\
      float64_to_int64 (float64_mul f (strconv.float64_of_Z time_Second)) = v)) ->
  0 <= v ->
  field_number "D" dd * 24 * time_Hour + field_number "H" hh * time_Hour +
  field_number "M" mm * time_Minute + v <= int64_max ->
  parseDuration str =
  Ok (field_number "D" dd * 24 * time_Hour + field_number "H" hh * time_Hour +
      field_number "M" mm * time_Minute + v).
Proof.
  intros Ht Hlen Hs Hs0 Hsum.
  destruct (duration_text_parts _ _ _ _ _ Ht) as [Hm Hparts].
  pose proof (duration_text_no_minus _ _ _ _ _ Ht) as Hneg.
  destruct Ht as (Fd & Fh & Fm & Fs & _).
  pose proof (int_field_nonneg "D" dd Fd eq_refl) as Hd0.
  pose proof (int_field_nonneg "H" hh Fh eq_refl) as Hh0.
  pose proof (int_field_nonneg "M" mm Fm eq_refl) as Hm0.
  assert (Hd : field_number "D" dd <= int64_max)
    by (unfold time_Hour, time_Minute, time_Second in Hsum; range_lia).
  assert (Hh : field_number "H" hh <= int64_max)
    by (unfold time_Hour, time_Minute, time_Second in Hsum; range_lia).
  assert (Hmi : field_number "M" mm <= int64_max)
    by (unfold time_Hour, time_Minute, time_Second in Hsum; range_lia).
  apply (int_field_value "D" dd Fd eq_refl) in Hd.
  apply (int_field_value "H" hh Fh eq_refl) in Hh.
  apply (int_field_value "M" mm Fm eq_refl) in Hmi.
  clear Fd Fh Fm Fs.
  set (days := field_number "D" dd) in *.
  set (hours := field_number "H" hh) in *.
  set (mins := field_number "M" mm) in *.
  clearbody days hours mins.
  unfold parseDuration.
  replace (len str <? 3) with false by (symmetry; apply Z.ltb_ge; lia).
  rewrite Hneg, Hm, Hparts. cbn [negb part nth].
  clear Hm Hparts Hneg Hlen.
  unfold time_Hour, time_Minute in *.
  destruct Hd as [[-> Hd] | [-> ->]]; cbn [String.eqb]; cbv beta iota;
  (destruct Hh as [[-> Hh] | [-> ->]]; cbn [String.eqb]; cbv beta iota);
  (destruct Hmi as [[-> Hmi] | [-> ->]]; cbn [String.eqb]; cbv beta iota);
  (destruct Hs as [[-> Hs] | (-> & f & -> & Hf)]; cbn [String.eqb]; cbv beta iota);
  try rewrite Hf; unfold time_Second in *; unwrap_int64; f_equal; lia.
Qed.

Lemma parseDuration_sum (str dd hh mm ss : string) :
  duration_text str dd hh mm ss ->
  3 <= len str ->
  strconv.all_digits (strings.TrimRight ss "S") = true ->
  field_number "S" ss * 10 ^ 9 < 2 ^ 53 ->
  field_number "D" dd * 24 * time_Hour + field_number "H" hh * time_Hour +
  field_number "M" mm * time_Minute + field_number "S" ss * time_Second <= int64_max ->
  parseDuration str =
  Ok (field_number "D" dd * 24 * time_Hour + field_number "H" hh * time_Hour +
      field_number "M" mm * time_Minute + field_number "S" ss * time_Second).
Proof.
  intros Ht Hlen Hdig Hsmall Hsum.
  assert (Fs : field digit_or_dot "S" ss) by (destruct Ht as (_ & _ & _ & Fs & _); exact Fs).
  destruct (seconds_field_value ss Fs Hdig Hsmall) as [Hs0 Hs].
  apply (parseDuration_total str dd hh mm ss (field_number "S" ss * time_Second));
    try assumption.
  - destruct Hs as [[-> Hs] | (Hne & f & Hf & Hv)].
    + left. split; [reflexivity |]. rewrite Hs. reflexivity.
    + right. split; [exact Hne |]. exists f. split; assumption.
  - unfold time_Second. lia.
Qed.

(** On a text of the grammar of at least three bytes whose seconds
    field has no point, [parseDuration] returns the days, hours,
    minutes and seconds added up, as long as the seconds are worth less
    than [2^53] nanoseconds and the sum fits [int64]; and
    [UnmarshalXMLAttr] stores that sum and returns no error. *)
Theorem parseDuration_value (str dd hh mm ss : string) (d0 : Duration)
        (name : xml_Name) :
  duration_text str dd hh mm ss ->
  3 <= len str ->
  strconv.all_digits (strings.TrimRight ss "S") = true ->
  field_number "S" ss * 10 ^ 9 < 2 ^ 53 ->
  field_number "D" dd * 24 * time_Hour + field_number "H" hh * time_Hour +
  field_number "M" mm * time_Minute + field_number "S" ss * time_Second <= int64_max ->
  parseDuration str =
    Ok (field_number "D" dd * 24 * time_Hour + field_number "H" hh * time_Hour +
        field_number "M" mm * time_Minute + field_number "S" ss * time_Second) /\
  Duration.UnmarshalXMLAttr d0 {| Name := name; Value := str |} =
    (field_number "D" dd * 24 * time_Hour + field_number "H" hh * time_Hour +
     field_number "M" mm * time_Minute + field_number "S" ss * time_Second, None).
Proof.
  intros Ht Hlen Hdig Hsmall Hsum.
  pose proof (parseDuration_sum _ _ _ _ _ Ht Hlen Hdig Hsmall Hsum) as Hp.
  split; [exact Hp |].
  unfold Duration.UnmarshalXMLAttr. cbn [Value]. rewrite Hp. reflexivity.
Qed.

Lemma parseDuration_value_witness :
  parseDuration "P1DT2H3M4S" = Ok 93784000000000 /\
  Duration.UnmarshalXMLAttr 7 {| Name := {| Space := ""; Local := "d" |};
                                 Value := "P1DT2H3M4S" |} =
    (93784000000000, None).
Proof.
  apply (parseDuration_value "P1DT2H3M4S" "1D" "2H" "3M" "4S" 7
                             {| Space := ""; Local := "d" |}).
  - unfold duration_text, field.
    split; [right; exists "1"; split; [discriminate | split; reflexivity] |].
    split; [right; exists "2"; split; [discriminate | split; reflexivity] |].
    split; [right; exists "3"; split; [discriminate | split; reflexivity] |].
    split; [right; exists "4"; split; [discriminate | split; reflexivity] |].
    right. reflexivity.
  - vm_compute. discriminate.
  - reflexivity.
  - vm_compute. reflexivity.
  - vm_compute. discriminate.
Defined.

(** ** Whole seconds are read back *)

Lemma numeral_field (des : ascii) (v : Z) (s : string) :
  numeral v s -> regexp.in_class regexp.digit des = false ->
  field regexp.digit des (s ++ String des "") /\
  field_number des (s ++ String des "") = v /\
  strings.TrimRight (s ++ String des "") (String des "") = s /\
  strconv.all_digits s = true.
Proof.
  intros (Hall & Hv & Hne) Hdes.
  assert (Hin : all_in regexp.digit s = true) by (rewrite all_in_digit; exact Hall).
  split; [| split; [| split]].
  - right. exists s. split; [destruct s; [contradiction | discriminate] |].
    split; [exact Hin | reflexivity].
  - unfold field_number. rewrite field_not_empty.
    rewrite (TrimRight_field _ _ _ Hdes Hin). exact Hv.
  - apply (TrimRight_field _ _ _ Hdes Hin).
  - exact Hall.
Qed.

Lemma hours_minutes_fields (q : Z) (hm : string) :
  0 <= q -> hours_minutes q hm ->
  exists hh mm,
    hm = hh ++ mm /\
    field regexp.digit "H" hh /\ field regexp.digit "M" mm /\
    field_number "H" hh = q / 60 /\ field_number "M" mm = q mod 60.
Proof.
  intros Hq [[-> ->] | (Hpos & hs & ms & -> & Hms & Hhs)].
  - exists "", "". split; [reflexivity |].
    split; [left; reflexivity |]. split; [left; reflexivity |].
    split; reflexivity.
  - destruct (numeral_field "M" _ _ Hms eq_refl) as (Fm & Vm & _).
    destruct Hhs as [[H0 ->] | (_ & h & -> & Hh)].
    + exists "", (ms ++ "M"). split; [reflexivity |].
      split; [left; reflexivity |]. split; [exact Fm |].
      split; [rewrite H0; reflexivity | exact Vm].
    + destruct (numeral_field "H" _ _ Hh eq_refl) as (Fh & Vh & _).
      exists (h ++ "H"), (ms ++ "M"). split; [reflexivity |].
      split; [exact Fh |]. split; [exact Fm |]. split; assumption.
Qed.

Lemma whole_seconds_text (d : Duration) :
  is_int64 d -> 0 <= d -> d mod Second = 0 ->
  exists s, Duration.String d = Done s /\ parseDuration s = Ok d.
Proof.
  intros Hd Hpos Hwhole. change Second with 1000000000 in Hwhole.
  destruct (Z.eq_dec d 0) as [-> | Hnz].
  { exists "PT0S". split; vm_compute; reflexivity. }
  assert (Hbig : 10 ^ 9 <= Z.abs d).
  { rewrite Z.abs_eq by lia. change (10 ^ 9) with 1000000000.
    pose proof (Z.div_mod d 1000000000 ltac:(lia)) as E.
    assert (0 < d / 1000000000); [| lia].
    destruct (Z.le_gt_cases (d / 1000000000) 0) as [Hle | ]; [| lia].
    pose proof (Z.div_pos d 1000000000 ltac:(lia) ltac:(lia)). nia. }
  destruct (String_from_second d Hd Hbig) as (hm & secs & frac & Hhm & Hsecs & Hfrac & Hs).
  rewrite Z.abs_eq in * by lia.
  replace (d <? 0) with false in Hs by (symmetry; apply Z.ltb_ge; lia).
  replace (d mod 10 ^ 9) with 0 in Hfrac by (change (10 ^ 9) with 1000000000; lia).
  apply fraction_whole in Hfrac. subst frac.
  set (u1 := d / 10 ^ 9) in *.
  assert (Hu1 : 0 <= u1) by (apply Z.div_pos; lia).
  assert (Hq : 0 <= u1 / 60) by (apply Z.div_pos; lia).
  destruct (hours_minutes_fields _ _ Hq Hhm) as (hh & mm & -> & Fh & Fm & Vh & Vm).
  destruct (numeral_field "S" _ _ Hsecs eq_refl) as (Fs0 & Vs & Ts & Ds).
  assert (Fs : field digit_or_dot "S" (secs ++ "S")).
  { right. exists secs. destruct Fs0 as [E | (b & Hb & Hall & E)].
    - destruct secs; discriminate E.
    - destruct Hsecs as (Hall' & _ & Hne).
      split; [destruct secs; [contradiction | discriminate] |].
      split; [| reflexivity].
      clear - Hall'. induction secs as [| a s IH]; [reflexivity |].
      cbn [strconv.all_digits] in Hall'. apply andb_true_iff in Hall'.
      destruct Hall' as [Ha Hs]. cbn [all_in].
      rewrite (IH Hs), andb_true_r.
      rewrite in_class_digit_or_dot. rewrite Ha. reflexivity. }
  exists ("PT" ++ "" ++ (hh ++ mm) ++ secs ++ "" ++ "S"). split; [exact Hs |].
  assert (Ht : duration_text ("PT" ++ "" ++ (hh ++ mm) ++ secs ++ "" ++ "S")
                             "" hh mm (secs ++ "S")).
  { split; [left; reflexivity |]. split; [exact Fh |]. split; [exact Fm |].
    split; [exact Fs |]. right.
    cbn [append]. rewrite !append_assoc. reflexivity. }
  pose proof (numeral_len _ _ Hsecs) as Hls.
  pose proof (Z.mod_pos_bound u1 60 ltac:(lia)) as Hs60.
  pose proof (Z.div_mod u1 60 ltac:(lia)) as E1.
  pose proof (Z.div_mod (u1 / 60) 60 ltac:(lia)) as E2.
  pose proof (Z.div_mod d (10 ^ 9) ltac:(lia)) as E3. fold u1 in E3.
  change (10 ^ 9) with 1000000000 in E3.
  assert (Hsum : field_number "D" "" * 24 * time_Hour + field_number "H" hh * time_Hour +
                 field_number "M" mm * time_Minute +
                 field_number "S" (secs ++ "S") * time_Second = d).
  { rewrite Vh, Vm, Vs. change (field_number "D" "") with 0.
    unfold time_Hour, time_Minute, time_Second. lia. }
  rewrite <- Hsum.
  apply parseDuration_sum.
  - exact Ht.
  - unfold len in *. rewrite !length_append. cbn [String.length]. lia.
  - rewrite Ts. exact Ds.
  - rewrite Vs. lia.
  - rewrite Hsum. range_lia.
Qed.

(** A duration of a whole number of seconds, zero included, survives
    the trip through the attribute: [UnmarshalXMLAttr] on what
    [MarshalXMLAttr] made stores the duration that was marshalled and
    returns no error. *)
Theorem whole_seconds_round_trip (d d0 : Duration) (name : xml_Name) :
  is_int64 d -> 0 <= d -> d mod Second = 0 ->
  exists attr,
    Duration.MarshalXMLAttr d name = Done attr /\
    Name attr = name /\
    parseDuration (Value attr) = Ok d /\
    Duration.UnmarshalXMLAttr d0 attr = (d, None).
Proof.
  intros Hd Hpos Hwhole.
  destruct (whole_seconds_text d Hd Hpos Hwhole) as (s & Hs & Hp).
  unfold Duration.MarshalXMLAttr. rewrite Hs.
  eexists. split; [reflexivity |]. split; [reflexivity |].
  cbn [Value]. split; [exact Hp |].
  unfold Duration.UnmarshalXMLAttr. cbn [Value]. rewrite Hp. reflexivity.
Qed.

Lemma whole_seconds_round_trip_witness :
  exists attr,
    Duration.MarshalXMLAttr (5025 * Second) {| Space := ""; Local := "d" |} = Done attr /\
    Name attr = {| Space := ""; Local := "d" |} /\
    parseDuration (Value attr) = Ok (5025 * Second) /\
    Duration.UnmarshalXMLAttr 7 attr = (5025 * Second, None).
Proof.
  apply (whole_seconds_round_trip (5025 * Second) 7 {| Space := ""; Local := "d" |}).
  - vm_compute. split; discriminate.
  - vm_compute. discriminate.
  - vm_compute. reflexivity.
Defined.

(** ** Below one second *)

Lemma duration_text_no_nul (str dd hh mm ss : string) :
  duration_text str dd hh mm ss -> strings.mem zero str = false.
Proof.
  intros (Fd & Fh & Fm & Fs & Hlay).
  pose proof (field_mem _ _ zero _ Fd eq_refl eq_refl) as Hd.
  pose proof (field_mem _ _ zero _ Fh eq_refl eq_refl) as Hh.
  pose proof (field_mem _ _ zero _ Fm eq_refl eq_refl) as Hm.
  pose proof (field_mem _ _ zero _ Fs eq_refl eq_refl) as Hs.
  destruct Hlay as [(-> & _) | ->].
  - rewrite mem_app, Hd. reflexivity.
  - rewrite !mem_app, Hd, Hh, Hm, Hs. reflexivity.
Qed.

Lemma subsecond_text (d : Duration) :
  0 < d < Second ->
  exists s, Duration.String d = Done s /\ strings.mem zero s = true /\
            parseDuration s = Err ErrFormat.
Proof.
  intros Hd. change Second with 1000000000 in Hd.
  assert (H64 : is_int64 d) by range_lia.
  destruct (String_below_second d H64) as (ns & Hns & Hs).
  { rewrite Z.abs_eq by lia. change (10 ^ 9) with 1000000000. lia. }
  replace (d <? 0) with false in Hs by (symmetry; apply Z.ltb_ge; lia).
  exists ("PT" ++ "" ++ ns ++ NUL ++ "S"). split; [exact Hs |].
  assert (Hnul : strings.mem zero ("PT" ++ "" ++ ns ++ NUL ++ "S") = true).
  { rewrite !mem_app. unfold NUL. cbn [strings.mem].
    rewrite Ascii.eqb_refl. cbn [orb]. rewrite !orb_true_r. reflexivity. }
  split; [exact Hnul |].
  pose proof (numeral_len _ _ Hns) as Hl.
  destruct Hns as (Hall & _ & _).
  unfold parseDuration.
  replace (len ("PT" ++ "" ++ ns ++ NUL ++ "S") <? 3) with false
    by (symmetry; apply Z.ltb_ge; unfold len in *; rewrite !length_append;
        cbn [String.length]; lia).
  assert (Hminus : strings.Contains ("PT" ++ "" ++ ns ++ NUL ++ "S") "-" = false).
  { rewrite Contains_mem, !mem_app.
    rewrite (mem_class regexp.digit "-" ns); [reflexivity | | reflexivity].
    rewrite all_in_digit. exact Hall. }
  rewrite Hminus.
  destruct (regexp.Match xmlDurationRegex ("PT" ++ "" ++ ns ++ NUL ++ "S")) eqn:Hm;
    [| reflexivity].
  exfalso. destruct (Match_parts _ Hm) as (dd & hh & mm & ss & _ & Ht).
  apply duration_text_no_nul in Ht. congruence.
Qed.

(** A positive duration below one second does not survive the trip
    through the attribute: the text [MarshalXMLAttr] gives it holds a
    zero byte, [parseDuration] rejects it as malformed and
    [UnmarshalXMLAttr] leaves its receiver as it was. *)
Theorem subsecond_duration_not_read_back (d d0 : Duration) (name : xml_Name) :
  0 < d < Second ->
  exists attr,
    Duration.MarshalXMLAttr d name = Done attr /\
    Name attr = name /\
    strings.mem zero (Value attr) = true /\
    parseDuration (Value attr) = Err ErrFormat /\
    Duration.UnmarshalXMLAttr d0 attr = (d0, Some ErrFormat).
Proof.
  intros Hd.
  destruct (subsecond_text d Hd) as (s & Hs & Hz & Hp).
  unfold Duration.MarshalXMLAttr. rewrite Hs.
  eexists. split; [reflexivity |]. split; [reflexivity |].
  cbn [Value]. split; [exact Hz |]. split; [exact Hp |].
  unfold Duration.UnmarshalXMLAttr. cbn [Value]. rewrite Hp. reflexivity.
Qed.

Lemma subsecond_duration_not_read_back_witness :
  exists attr,
    Duration.MarshalXMLAttr (500 * Millisecond) {| Space := ""; Local := "d" |} = Done attr /\
    Name attr = {| Space := ""; Local := "d" |} /\
    strings.mem zero (Value attr) = true /\
    parseDuration (Value attr) = Err ErrFormat /\
    Duration.UnmarshalXMLAttr 7 attr = (7, Some ErrFormat).
Proof.
  apply (subsecond_duration_not_read_back (500 * Millisecond) 7
                                          {| Space := ""; Local := "d" |}).
  vm_compute. split; reflexivity.
Defined.

(* ================================================================== *)
(** * The floating-point accessors *)

Lemma binary_round_exact (s : bool) (p : positive) :
  Zpos p < 2 ^ 53 ->
  binary_round strconv.prec strconv.emax s p 0 =
  S754_finite s (Z.to_pos (Zpos p * 2 ^ (53 - Zdigits2 (Zpos p))))
              (Zdigits2 (Zpos p) - 53).
Proof.
  intros Hz. destruct (Zdigits2_range (Zpos p) ltac:(lia)) as (Hd1 & Hlo & Hhi).
  assert (Hd53 : Zdigits2 (Zpos p) <= 53) by (apply (Zdigits2_le_iff (Zpos p) 53); lia).
  unfold binary_round, shl_align.
  change (Zpos (digits2_pos p)) with (Zdigits2 (Zpos p)).
  rewrite fexp64, Z.add_0_r.
  replace (Z.max (Zdigits2 (Zpos p) - 53) (-1074) - 0) with (- (53 - Zdigits2 (Zpos p))) by lia.
  destruct (53 - Zdigits2 (Zpos p)) as [| k | k] eqn:Es; try lia; cbn [Z.opp].
  - pose proof (binary_round_aux_exact s (Zpos p) 0 ltac:(lia) ltac:(lia)) as H.
    rewrite Z.pow_0_r, Z.mul_1_r in H. cbn [Z.opp] in H. rewrite Es in H. exact H.
  - change (Pos.iter xO p k) with (shift_pos k p).
    rewrite shift_pos_correct.
    change (Zpower_pos 2 k) with (2 ^ Zpos k). rewrite Z.mul_comm.
    replace (Z.max (Zdigits2 (Zpos p) - 53) (-1074)) with (- Zpos k) by lia.
    rewrite <- Es. apply binary_round_aux_exact; lia.
Qed.

(** Converting an integer below [2^53] in magnitude loses nothing. *)
Lemma float64_of_Z_signed (z : Z) :
  Z.abs z < 2 ^ 53 -> strconv.float64_of_Z z = signed_float z.
Proof.
  intros Hz. unfold strconv.float64_of_Z, binary_normalize, signed_float.
  destruct z as [| p | p]; [reflexivity | |].
  - rewrite binary_round_exact by lia. reflexivity.
  - rewrite binary_round_exact by lia. reflexivity.
Qed.

Lemma float64_to_int64_signed (z : Z) :
  Z.abs z < 2 ^ 53 -> float64_to_int64 (signed_float z) = z.
Proof.
  intros Hz. destruct z as [| p | p]; [reflexivity | |].
  - apply float64_to_int64_exact. lia.
  - pose proof (float64_to_int64_exact (Zpos p) ltac:(lia)) as H.
    unfold signed_float, exact_float, SFopp, float64_to_int64 in *.
    cbn [negb].
    destruct (0 <=? Zdigits2 (Zpos p) - 53);
      match type of H with
      | (if ?c then _ else _) = _ =>
          destruct c eqn:Hc; [| apply andb_false_iff in Hc;
                                 destruct Hc as [Hc | Hc]; apply Z.leb_gt in Hc;
                                 revert Hc; range_lia]
      end;
      rewrite H;
      replace ((int64_min <=? - Zpos p) && (- Zpos p <=? int64_max)) with true;
      try reflexivity;
      symmetry; apply andb_true_iff; split; apply Z.leb_le; range_lia.
Qed.

Lemma float64_add_zero (z : Z) :
  float64_add (signed_float z) (S754_zero false) = signed_float z.
Proof. destruct z; reflexivity. Qed.

(** What an accessor returns on a whole number of its units. *)
Lemma whole_units (d unit : Z) (c : strconv.float64) :
  is_int64 d -> 10 ^ 9 <= unit -> Z.rem d unit = 0 ->
  float64_div (S754_zero false) c = S754_zero false ->
  float64_add (strconv.float64_of_Z (Z.quot d unit))
              (float64_div (strconv.float64_of_Z (Z.rem d unit)) c) =
    signed_float (Z.quot d unit) /\
  float64_to_int64 (signed_float (Z.quot d unit)) = Z.quot d unit.
Proof.
  intros Hd Hu Hrem Hc.
  assert (Hq : Z.abs (Z.quot d unit) < 2 ^ 53).
  { change (10 ^ 9) with 1000000000 in Hu.
    pose proof (Z.quot_rem' d unit) as E. rewrite Hrem in E.
    assert (Z.abs d = unit * Z.abs (Z.quot d unit)) by nia.
    assert (Z.abs d <= 2 ^ 63) by range_lia.
    change (2 ^ 53) with 9007199254740992. change (2 ^ 63) with 9223372036854775808 in *.
    nia. }
  rewrite Hrem. change (strconv.float64_of_Z 0) with (S754_zero false).
  rewrite Hc, (float64_of_Z_signed _ Hq), float64_add_zero.
  split; [reflexivity | exact (float64_to_int64_signed _ Hq)].
Qed.

(** On a duration of a whole number of seconds [Seconds] returns that
    number exactly, and so do [Minutes] on whole minutes and [Hours] on
    whole hours: the result is the [float64] of the quotient, and
    converting it back to [int64] gives the quotient. *)
Theorem accessors_exact_on_whole_units (d : Duration) :
  is_int64 d ->
  (Z.rem d Second = 0 ->
   Float64.Seconds d = signed_float (Z.quot d Second) /\
   float64_to_int64 (Float64.Seconds d) = Z.quot d Second) /\
  (Z.rem d Minute = 0 ->
   Float64.Minutes d = signed_float (Z.quot d Minute) /\
   float64_to_int64 (Float64.Minutes d) = Z.quot d Minute) /\
  (Z.rem d Hour = 0 ->
   Float64.Hours d = signed_float (Z.quot d Hour) /\
   float64_to_int64 (Float64.Hours d) = Z.quot d Hour).
Proof.
  intros Hd. split; [| split]; intros Hrem.
  - destruct (whole_units d Second (strconv.float64_of_Z (10 ^ 9)) Hd
                ltac:(vm_compute; discriminate) Hrem eq_refl) as [E1 E2].
    unfold Float64.Seconds. cbv zeta. rewrite E1. split; [reflexivity | exact E2].
  - destruct (whole_units d Minute (strconv.float64_of_Z (60 * 10 ^ 9)) Hd
                ltac:(vm_compute; discriminate) Hrem eq_refl) as [E1 E2].
    unfold Float64.Minutes. cbv zeta. rewrite E1. split; [reflexivity | exact E2].
  - destruct (whole_units d Hour (strconv.float64_of_Z (60 * 60 * 10 ^ 9)) Hd
                ltac:(vm_compute; discriminate) Hrem eq_refl) as [E1 E2].
    unfold Float64.Hours. cbv zeta. rewrite E1. split; [reflexivity | exact E2].
Qed.

Lemma accessors_exact_on_whole_units_witness :
  float64_to_int64 (Float64.Seconds (-7200 * Second)) = -7200 /\
  float64_to_int64 (Float64.Minutes (-7200 * Second)) = -120 /\
  float64_to_int64 (Float64.Hours (-7200 * Second)) = -2.
Proof.
  destruct (accessors_exact_on_whole_units (-7200 * Second)) as (Hs & Hm & Hh).
  - vm_compute. split; discriminate.
  - split; [apply Hs; reflexivity |]. split; [apply Hm | apply Hh]; reflexivity.
Defined.

(** ** Rounding stays between the neighbours on the grid *)

(** [binary_round_aux] on the mantissa [m] at the exponent [e] shifts
    [n] bits out; a multiple of [2^n] that is at most [m] stays at most
    the result, one that is above [m] stays at least the result. *)
Lemma binary_round_aux_bracket (s : bool) (m e : Z) (l : location) (A B : Z) :
  0 < m -> -1074 <= e ->
  e + Z.max 0 (Zdigits2 m - 53) <= 970 ->
  A mod 2 ^ Z.max 0 (Zdigits2 m - 53) = 0 ->
  B mod 2 ^ Z.max 0 (Zdigits2 m - 53) = 0 ->
  A <= m < B ->
  exists m' e',
    binary_round_aux strconv.prec strconv.emax s m e l = S754_finite s m' e' /\
    e <= e' /\ A <= Zpos m' * 2 ^ (e' - e) <= B /\
    (53 <= Zdigits2 m -> 2 ^ 52 <= Zpos m').
Proof.
  intros Hm He Hmax HA HB HAB. unfold binary_round_aux.
  destruct (shr_fexp_spec m e l ltac:(lia)) as (mrs & e1 & -> & He1 & Hm1).
  destruct (Zdigits2_range m Hm) as (Hd1 & Hlo & Hhi).
  rewrite fexp64 in He1.
  set (n := Z.max 0 (Zdigits2 m - 53)) in *.
  assert (Hn : e1 - e = n) by (subst n; lia).
  rewrite Hn in Hm1.
  assert (Hn0 : 0 <= n) by (subst n; lia).
  assert (Hpow : 0 < 2 ^ n) by (apply Z.pow_pos_nonneg; lia).
  set (f := m / 2 ^ n) in *.
  pose proof (Z.div_mod m (2 ^ n) ltac:(lia)) as Ediv. fold f in Ediv.
  pose proof (Z.mod_pos_bound m (2 ^ n) Hpow) as Hmod.
  (* the bounds, as multiples of [2^n] *)
  apply Z.mod_divide in HA; [| lia]. destruct HA as [a ->].
  apply Z.mod_divide in HB; [| lia]. destruct HB as [b ->].
  assert (Haf : a <= f) by nia.
  assert (Hfb : f + 1 <= b) by nia.
  (* the size of [f] *)
  assert (Hnorm : 53 <= Zdigits2 m -> 2 ^ 52 <= f).
  { intros H53. assert (En : n = Zdigits2 m - 53) by (subst n; lia).
    assert (E1 : 2 ^ (Zdigits2 m - 1) = 2 ^ 52 * 2 ^ n)
      by (rewrite <- Z.pow_add_r by lia; f_equal; lia).
    apply Z.div_le_lower_bound; lia. }
  assert (Hf : 0 < f < 2 ^ 53).
  { destruct (Z.le_gt_cases (Zdigits2 m) 53) as [Hle | Hgt].
    - assert (n = 0) by (subst n; lia).
      assert (Ef : f = m) by (subst f; replace n with 0 by lia; apply Z.div_1_r).
      rewrite Ef. split; [lia |].
      apply (Zdigits2_le_iff m 53); lia.
    - assert (En : n = Zdigits2 m - 53) by (subst n; lia).
      assert (E1 : 2 ^ (Zdigits2 m - 1) = 2 ^ 52 * 2 ^ n)
        by (rewrite <- Z.pow_add_r by lia; f_equal; lia).
      assert (E2 : 2 ^ Zdigits2 m = 2 ^ 53 * 2 ^ n)
        by (rewrite <- Z.pow_add_r by lia; f_equal; lia).
      split.
      + assert (2 ^ 52 <= f); [| lia].
        apply Z.div_le_lower_bound; lia.
      + apply Z.div_lt_upper_bound; lia. }
  rewrite Hm1.
  pose proof (round_nearest_even_range f (loc_of_shr_record mrs)) as Hr.
  set (r := round_nearest_even f (loc_of_shr_record mrs)) in *.
  destruct (shr_fexp_spec r e1 loc_Exact ltac:(lia)) as (mrs2 & e2 & -> & He2 & Hm2).
  rewrite fexp64 in He2.
  assert (Hcase : (e2 = e1 /\ shr_m mrs2 = r) \/
                  (e2 = e1 + 1 /\ r = 2 ^ 53 /\ shr_m mrs2 = 2 ^ 52)).
  { destruct (Z.eq_dec r (2 ^ 53)) as [E | NE].
    - right.
      assert (Hd : Zdigits2 r = 54) by (rewrite E; reflexivity).
      assert (E2 : e2 = e1 + 1) by lia.
      split; [exact E2 |]. split; [exact E |].
      rewrite Hm2, E2, E. replace (e1 + 1 - e1) with 1 by lia. reflexivity.
    - left.
      assert (Hr53 : Zdigits2 r <= 53) by (apply (Zdigits2_le_iff r 53); lia).
      assert (E2 : e2 = e1) by lia.
      split; [exact E2 |]. rewrite Hm2, E2, Z.sub_diag. apply Z.div_1_r. }
  clear He2 Hm2.
  destruct Hcase as [[-> Hs] | (-> & Er & Hs)]; rewrite Hs.
  - destruct r as [| p | p] eqn:Ep; try lia.
    replace (e1 <=? strconv.emax - strconv.prec) with true
      by (symmetry; apply Z.leb_le; unfold strconv.emax, strconv.prec; lia).
    exists p, e1. split; [reflexivity |]. split; [lia |].
    rewrite Hn. split; [nia | lia].
  - change (2 ^ 52) with (Zpos (2 ^ 52)%positive).
    replace (e1 + 1 <=? strconv.emax - strconv.prec) with true
      by (symmetry; apply Z.leb_le; unfold strconv.emax, strconv.prec; lia).
    exists (2 ^ 52)%positive, (e1 + 1). split; [reflexivity |]. split; [lia |].
    replace (e1 + 1 - e) with (Z.succ n) by lia.
    rewrite Z.pow_succ_r by lia.
    change (Zpos (2 ^ 52)%positive) with (2 ^ 52).
    change (2 ^ 53) with (2 * 2 ^ 52) in Er. split; [nia | lia].
Qed.

(** ** The quotient of two integers *)

Lemma exact_float_mantissa (z : Z) :
  0 < z < 2 ^ 53 ->
  2 ^ 52 <= z * 2 ^ (53 - Zdigits2 z) < 2 ^ 53 /\
  Zdigits2 (z * 2 ^ (53 - Zdigits2 z)) = 53 /\
  1 <= Zdigits2 z <= 53.
Proof.
  intros Hz. destruct (Zdigits2_range z ltac:(lia)) as (Hd1 & Hlo & Hhi).
  assert (Hd53 : Zdigits2 z <= 53) by (apply (Zdigits2_le_iff z 53); lia).
  assert (Hdm : Zdigits2 (z * 2 ^ (53 - Zdigits2 z)) = 53)
    by (rewrite Zdigits2_mul_pow2 by lia; lia).
  assert (Hpos : 0 < z * 2 ^ (53 - Zdigits2 z))
    by (apply Z.mul_pos_pos; [lia | apply Z.pow_pos_nonneg; lia]).
  destruct (Zdigits2_range _ Hpos) as (_ & Hlo' & Hhi').
  rewrite Hdm in Hlo', Hhi'. change (53 - 1) with 52 in Hlo'.
  split; [lia |]. split; [exact Hdm | lia].
Qed.

Lemma signed_float_finite (s : bool) (z : Z) :
  0 < z ->
  signed_float (cond_Zopp s z) =
  S754_finite s (Z.to_pos (z * 2 ^ (53 - Zdigits2 z))) (Zdigits2 z - 53).
Proof.
  intros Hz. destruct z as [| p | p]; try lia. destruct s; reflexivity.
Qed.

Lemma SFdiv_core_normal (ma ea mu eu : Z) :
  Zdigits2 ma = 53 -> Zdigits2 mu = 53 -> 0 < ma -> -1000 <= ea - eu ->
  SFdiv_core_binary strconv.prec strconv.emax ma ea mu eu =
  (ma * 2 ^ 53 / mu, ea - eu - 53,
   new_location mu (ma * 2 ^ 53 mod mu)).
Proof.
  intros Ha Hu Hpos He. unfold SFdiv_core_binary. rewrite Ha, Hu, fexp64.
  replace (Z.min (Z.max (53 + ea - (53 + eu) - 53) (-1074)) (ea - eu))
    with (ea - eu - 53) by lia.
  replace (ea - eu - (ea - eu - 53)) with 53 by lia.
  rewrite Z.shiftl_mul_pow2 by lia.
  unfold Z.div, Z.modulo.
  destruct (Z.div_eucl (ma * 2 ^ 53) mu) as [q r]. reflexivity.
Qed.

(** The quotient of [a] by a larger [u] below [2^b] is, once rounded,
    a normal number below [1 - 2^-b]. *)
Lemma div_below_one (s : bool) (a u b : Z) :
  0 < a < u -> u < 2 ^ b -> 1 <= b <= 52 ->
  u * 2 ^ b < (2 ^ b - u) * 2 ^ 52 ->
  exists mq eq,
    float64_div (signed_float (cond_Zopp s a)) (exact_float u) = S754_finite s mq eq /\
    -1074 <= eq <= -53 /\
    Zpos mq * 2 ^ b < (2 ^ b - 1) * 2 ^ (- eq).
Proof.
  intros Ha Hub Hb Hmargin.
  assert (Hb53 : 2 ^ b <= 2 ^ 52) by (apply Z.pow_le_mono_r; lia).
  assert (Hu53 : 0 < u < 2 ^ 53) by (change (2 ^ 53) with (2 * 2 ^ 52); lia).
  assert (Ha53 : 0 < a < 2 ^ 53) by lia.
  destruct (exact_float_mantissa a Ha53) as (Hma & Hda & Hdar).
  destruct (exact_float_mantissa u Hu53) as (Hmu & Hdu & Hdur).
  assert (Hdau : Zdigits2 a <= Zdigits2 u).
  { destruct (Zdigits2_range a ltac:(lia)) as (_ & Hlo & _).
    assert (a < 2 ^ Zdigits2 u)
      by (destruct (Zdigits2_range u ltac:(lia)) as (_ & _ & Hhi); lia).
    apply (Zdigits2_le_iff a (Zdigits2 u)); lia. }
  rewrite (signed_float_finite s a ltac:(lia)).
  unfold exact_float, float64_div, SFdiv.
  set (ma := a * 2 ^ (53 - Zdigits2 a)) in *.
  set (mu := u * 2 ^ (53 - Zdigits2 u)) in *.
  rewrite !Z2Pos.id by lia.
  rewrite (SFdiv_core_normal ma (Zdigits2 a - 53) mu (Zdigits2 u - 53)
             Hda Hdu ltac:(lia) ltac:(lia)).
  rewrite xorb_false_r.
  set (e' := Zdigits2 a - 53 - (Zdigits2 u - 53) - 53).
  set (q := ma * 2 ^ 53 / mu).
  (* the size of the quotient *)
  assert (Hq : 2 ^ 52 <= q < 2 ^ 54).
  { subst q. split.
    - apply Z.div_le_lower_bound; [lia |].
      change (2 ^ 53) with (2 * 2 ^ 52) in *. nia.
    - apply Z.div_lt_upper_bound; [lia |].
      change (2 ^ 54) with (2 * 2 ^ 53). change (2 ^ 53) with (2 * 2 ^ 52) in *. nia. }
  assert (Hdq : 53 <= Zdigits2 q <= 54).
  { split.
    - destruct (Z.le_gt_cases 53 (Zdigits2 q)) as [H | H]; [exact H |].
      assert (Zdigits2 q <= 52) by lia.
      apply (Zdigits2_le_iff q 52) in H0; lia.
    - apply (Zdigits2_le_iff q 54); lia. }
  (* the quotient against the bound *)
  set (E := 2 ^ (- b - e')).
  assert (HE : 2 ^ (- e') = 2 ^ b * E)
    by (subst E; rewrite <- Z.pow_add_r by (subst e'; lia); f_equal; lia).
  assert (HE2 : 2 ^ (53 - b) <= E)
    by (subst E; apply Z.pow_le_mono_r; subst e'; lia).
  assert (HE3 : E = 2 * 2 ^ (- b - e' - 1)).
  { subst E. rewrite <- Z.pow_succ_r by (subst e'; lia). f_equal. lia. }
  assert (Hqu : q * u <= a * (2 ^ b * E)).
  { rewrite <- HE.
    set (P := 2 ^ (53 - Zdigits2 u)) in *.
    assert (HP : 0 < P) by (subst P; apply Z.pow_pos_nonneg; lia).
    assert (Hnum : ma * 2 ^ 53 = a * 2 ^ (- e') * P).
    { subst ma P e'. rewrite <- !Z.mul_assoc, <- !Z.pow_add_r by lia.
      f_equal. f_equal. lia. }
    assert (Hle : q * mu <= ma * 2 ^ 53).
    { subst q. rewrite Z.mul_comm. apply Z.mul_div_le. lia. }
    rewrite Hnum in Hle. subst mu. fold P in Hle. nia. }
  assert (H53b : 2 ^ 53 = 2 ^ b * 2 ^ (53 - b))
    by (rewrite <- Z.pow_add_r by lia; f_equal; lia).
  assert (Hpb : 0 < 2 ^ b) by (apply Z.pow_pos_nonneg; lia).
  assert (HqB : q < (2 ^ b - 1) * E - 2).
  { assert (Hkey : 2 * u < E * (2 ^ b - u)).
    { change (2 ^ 53) with (2 * 2 ^ 52) in H53b.
      assert (2 * u * 2 ^ b < 2 ^ (53 - b) * (2 ^ b - u) * 2 ^ b) by nia.
      assert (2 * u < 2 ^ (53 - b) * (2 ^ b - u)) by nia.
      apply Z.lt_le_trans with (2 ^ (53 - b) * (2 ^ b - u)); [assumption |].
      apply Z.mul_le_mono_nonneg_r; lia. }
    assert (H1 : a * (2 ^ b * E) <= (u - 1) * (2 ^ b * E)).
    { apply Z.mul_le_mono_nonneg_r; [| lia].
      apply Z.mul_nonneg_nonneg; lia. }
    assert (H2 : q * u < ((2 ^ b - 1) * E - 2) * u).
    { clear - Hqu H1 Hkey. clearbody q E.
      set (X := 2 ^ b) in *. clearbody X. lia. }
    apply Z.mul_lt_mono_pos_r with u; lia. }
  destruct (binary_round_aux_bracket s q e'
              (new_location mu (ma * 2 ^ 53 mod mu)) 0 ((2 ^ b - 1) * E - 2))
    as (mq & eq & Hres & Hee & [_ HB] & Hnorm).
  - lia.
  - subst e'. lia.
  - subst e'. lia.
  - apply Z.mod_0_l. apply Z.pow_nonzero; lia.
  - destruct (Z.eq_dec (Zdigits2 q) 54) as [E54 | NE].
    + rewrite E54. change (Z.max 0 (54 - 53)) with 1. change (2 ^ 1) with 2.
      rewrite HE3.
      replace ((2 ^ b - 1) * (2 * 2 ^ (- b - e' - 1)) - 2)
        with (((2 ^ b - 1) * 2 ^ (- b - e' - 1) - 1) * 2) by lia.
      apply Z.mod_mul. lia.
    + replace (Z.max 0 (Zdigits2 q - 53)) with 0 by lia. apply Z.mod_1_r.
  - lia.
  - exists mq, eq. split; [exact Hres |].
    specialize (Hnorm ltac:(lia)).
    set (G := 2 ^ (eq - e')) in *.
    assert (HG : 0 < G) by (subst G; apply Z.pow_pos_nonneg; lia).
    assert (HEpos : 0 < E) by lia.
    assert (Hbelow : Zpos mq * G < 2 ^ (- e')).
    { rewrite HE. clear - HB Hpb HEpos. clearbody G E.
      set (X := 2 ^ b) in *. clearbody X. nia. }
    assert (Heq53 : eq <= -53).
    { destruct (Z.le_gt_cases eq (-53)) as [H | H]; [exact H | exfalso].
      assert (H0 : 2 ^ (- e') <= 2 ^ (52 + (eq - e')))
        by (apply Z.pow_le_mono_r; lia).
      rewrite Z.pow_add_r in H0 by lia. fold G in H0.
      assert (2 ^ 52 * G <= Zpos mq * G)
        by (apply Z.mul_le_mono_nonneg_r; lia).
      lia. }
    split; [subst e'; lia |].
    assert (Hsplit : 2 ^ (- e') = G * 2 ^ (- eq))
      by (subst G; rewrite <- Z.pow_add_r by lia; f_equal; lia).
    assert (T1 : Zpos mq * G * 2 ^ b <= ((2 ^ b - 1) * E - 2) * 2 ^ b)
      by (apply Z.mul_le_mono_nonneg_r; lia).
    assert (T2 : G * (Zpos mq * 2 ^ b) < G * ((2 ^ b - 1) * 2 ^ (- eq))).
    { replace (G * ((2 ^ b - 1) * 2 ^ (- eq)))
        with ((2 ^ b - 1) * (G * 2 ^ (- eq))) by ring.
      rewrite <- Hsplit, HE.
      clear - T1 Hpb. clearbody G E.
      set (X := 2 ^ b) in *. clearbody X.
      set (M := Zpos mq) in *. clearbody M.
      replace (G * (M * X)) with (M * G * X) by ring.
      replace ((X - 1) * (X * E)) with (((X - 1) * E) * X) by ring.
      lia. }
    apply Z.mul_lt_mono_pos_l in T2; assumption.
Qed.

(** ** The sum of an integer and a fraction below one *)

Lemma shl_align_left (mx : positive) (ex ez : Z) :
  ez < ex ->
  shl_align mx ex ez = (Z.to_pos (Zpos mx * 2 ^ (ex - ez)), ez).
Proof.
  intros H. unfold shl_align.
  destruct (ez - ex) as [| p | p] eqn:E; try lia.
  change (Pos.iter xO mx p) with (shift_pos p mx).
  f_equal. apply Pos2Z.inj. rewrite shift_pos_correct.
  assert (Hp : 0 < 2 ^ (ex - ez)) by (apply Z.pow_pos_nonneg; lia).
  rewrite Z2Pos.id by lia.
  change (Zpower_pos 2 p) with (2 ^ Zpos p).
  replace (ex - ez) with (Zpos p) by lia. lia.
Qed.

Lemma shl_align_none (mx : positive) (ex ex' : Z) :
  ex <= ex' -> shl_align mx ex ex' = (mx, ex).
Proof.
  intros H. unfold shl_align. destruct (ex' - ex) eqn:E; try lia; reflexivity.
Qed.

(** Adding a fraction below [1 - 2^-b] to a positive integer below
    [2^(53-b)] and dropping the fraction of the sum gives the integer
    back. *)
Lemma add_truncates (s : bool) (k b : Z) (mq : positive) (eq : Z) :
  0 < k < 2 ^ (53 - b) -> 1 <= b <= 52 -> -1074 <= eq <= -53 ->
  Zpos mq * 2 ^ b < (2 ^ b - 1) * 2 ^ (- eq) ->
  float64_to_int64
    (float64_add (signed_float (cond_Zopp s k)) (S754_finite s mq eq)) =
  cond_Zopp s k.
Proof.
  intros Hk Hb Heq Hq.
  assert (Hk53 : 0 < k < 2 ^ 53).
  { assert (2 ^ (53 - b) <= 2 ^ 53) by (apply Z.pow_le_mono_r; lia). lia. }
  destruct (exact_float_mantissa k Hk53) as (Hmk & Hdk & Hdkr).
  rewrite (signed_float_finite s k ltac:(lia)).
  unfold float64_add, SFadd.
  set (mk := k * 2 ^ (53 - Zdigits2 k)) in *.
  rewrite Z.min_r by lia.
  rewrite shl_align_left by lia.
  rewrite (shl_align_none mq eq eq) by lia.
  cbn [fst].
  rewrite !Z2Pos.id by lia.
  (* the powers involved *)
  set (Y := 2 ^ (- eq)) in *.
  assert (HY : 0 < Y) by (subst Y; apply Z.pow_pos_nonneg; lia).
  set (X := 2 ^ b) in *.
  assert (HX : 0 < X) by (subst X; apply Z.pow_pos_nonneg; lia).
  set (Z0 := 2 ^ (- b - eq)) in *.
  assert (HZ : 0 < Z0) by (subst Z0; apply Z.pow_pos_nonneg; lia).
  assert (HYZ : Y = X * Z0)
    by (subst Y X Z0; rewrite <- Z.pow_add_r by lia; f_equal; lia).
  assert (HA : mk * 2 ^ (Zdigits2 k - 53 - eq) = k * Y).
  { subst mk Y. rewrite <- Z.mul_assoc, <- Z.pow_add_r by lia. f_equal. f_equal. lia. }
  rewrite HA.
  assert (HkY : 2 ^ 53 <= k * Y).
  { rewrite <- HA.
    assert (2 <= 2 ^ (Zdigits2 k - 53 - eq)).
    { change 2 with (2 ^ 1) at 1. apply Z.pow_le_mono_r; lia. }
    change (2 ^ 53) with (2 ^ 52 * 2). apply Z.mul_le_mono_nonneg; lia. }
  assert (Hmq : Zpos mq < (X - 1) * Z0).
  { rewrite HYZ in Hq.
    replace ((X - 1) * (X * Z0)) with ((X - 1) * Z0 * X) in Hq by ring.
    apply Z.mul_lt_mono_pos_r in Hq; assumption. }
  set (M := k * Y + Zpos mq).
  assert (HM : 2 ^ 53 <= M) by (subst M; lia).
  assert (HMB : M < (k + 1) * Y - Z0).
  { subst M. rewrite HYZ. clear - Hmq. clearbody X Z0. lia. }
  assert (Hsum : cond_Zopp s (k * Y) + cond_Zopp s (Zpos mq) =
                 cond_Zopp s (Zpos (Z.to_pos M))).
  { rewrite Z2Pos.id by lia. subst M. destruct s; cbn [cond_Zopp]; lia. }
  rewrite Hsum. clear Hsum.
  replace (binary_normalize strconv.prec strconv.emax
             (cond_Zopp s (Zpos (Z.to_pos M))) eq false)
    with (binary_round strconv.prec strconv.emax s (Z.to_pos M) eq)
    by (destruct s; reflexivity).
  (* the digits of the sum *)
  assert (HMlt : M < 2 ^ (53 - b - eq)).
  { assert (E : 2 ^ (53 - b - eq) = 2 ^ (53 - b) * Y)
      by (subst Y; rewrite <- Z.pow_add_r by lia; f_equal; lia).
    rewrite E.
    assert ((k + 1) * Y <= 2 ^ (53 - b) * Y)
      by (apply Z.mul_le_mono_nonneg_r; lia).
    lia. }
  assert (HdM : 54 <= Zdigits2 M <= 53 - b - eq).
  { split.
    - destruct (Z.le_gt_cases 54 (Zdigits2 M)) as [H | H]; [exact H |].
      assert (H' : Zdigits2 M <= 53) by lia.
      apply (Zdigits2_le_iff M 53) in H'; lia.
    - apply (Zdigits2_le_iff M (53 - b - eq)); lia. }
  unfold binary_round.
  change (Zpos (digits2_pos (Z.to_pos M))) with (Zdigits2 (Zpos (Z.to_pos M))).
  rewrite Z2Pos.id by lia.
  rewrite shl_align_none by (rewrite fexp64; lia).
  rewrite Z2Pos.id by lia.
  set (n := Z.max 0 (Zdigits2 M - 53)).
  assert (Hn : 0 <= n <= - b - eq) by (subst n; lia).
  assert (HZn : Z0 = 2 ^ (- b - eq - n) * 2 ^ n)
    by (subst Z0; rewrite <- Z.pow_add_r by lia; f_equal; lia).
  destruct (binary_round_aux_bracket s M eq loc_Exact (k * Y) ((k + 1) * Y - Z0))
    as (m' & e3 & -> & He3 & [HlowA HupB] & _).
  - lia.
  - lia.
  - fold n. lia.
  - fold n. rewrite HYZ, HZn.
    replace (k * (X * (2 ^ (- b - eq - n) * 2 ^ n)))
      with (k * X * 2 ^ (- b - eq - n) * 2 ^ n) by ring.
    apply Z.mod_mul. apply Z.pow_nonzero; lia.
  - fold n. rewrite HYZ, HZn.
    replace ((k + 1) * (X * (2 ^ (- b - eq - n) * 2 ^ n)) - 2 ^ (- b - eq - n) * 2 ^ n)
      with (((k + 1) * X - 1) * 2 ^ (- b - eq - n) * 2 ^ n) by ring.
    apply Z.mod_mul. apply Z.pow_nonzero; lia.
  - subst M. lia.
  - (* the conversion to int64 *)
    assert (Hup : Zpos m' * 2 ^ (e3 - eq) < (k + 1) * Y) by lia.
    unfold float64_to_int64.
    assert (Ha : (if 0 <=? e3 then Zpos m' * 2 ^ e3 else Zpos m' / 2 ^ (- e3)) = k).
    { destruct (Z.leb_spec 0 e3) as [Hpos | Hneg].
      - assert (E : 2 ^ (e3 - eq) = 2 ^ e3 * Y)
          by (subst Y; rewrite <- Z.pow_add_r by lia; f_equal; lia).
        rewrite E, Z.mul_assoc in HlowA, Hup.
        apply Z.mul_le_mono_pos_r in HlowA; [| exact HY].
        apply Z.mul_lt_mono_pos_r in Hup; [| exact HY].
        lia.
      - set (G := 2 ^ (e3 - eq)) in *.
        assert (HG : 0 < G) by (subst G; apply Z.pow_pos_nonneg; lia).
        set (W := 2 ^ (- e3)).
        assert (HW : 0 < W) by (subst W; apply Z.pow_pos_nonneg; lia).
        assert (E : Y = W * G)
          by (subst Y W G; rewrite <- Z.pow_add_r by lia; f_equal; lia).
        rewrite E in HlowA, Hup. rewrite Z.mul_assoc in HlowA, Hup.
        apply Z.mul_le_mono_pos_r in HlowA; [| exact HG].
        apply Z.mul_lt_mono_pos_r in Hup; [| exact HG].
        symmetry. apply (Z.div_unique_pos _ _ k (Zpos m' - k * W)).
        + clear - HlowA Hup HW. clearbody W. lia.
        + clear. lia. }
    rewrite Ha.
    replace (if s then - k else k) with (cond_Zopp s k) by (destruct s; reflexivity).
    replace ((int64_min <=? cond_Zopp s k) && (cond_Zopp s k <=? int64_max)) with true;
      [reflexivity |].
    symmetry. apply andb_true_iff.
    change (2 ^ 53) with 9007199254740992 in Hk53.
    split; apply Z.leb_le; destruct s; cbn [cond_Zopp]; range_lia.
Qed.

(** ** Quotient plus fraction, truncated *)

Lemma quot_rem_sign (d u : Z) :
  0 < u ->
  Z.quot d u = cond_Zopp (d <? 0) (Z.abs d / u) /\
  Z.rem d u = cond_Zopp (d <? 0) (Z.abs d mod u).
Proof.
  intros Hu. destruct (Z.ltb_spec d 0) as [Hneg | Hpos]; cbn [cond_Zopp].
  - replace d with (- Z.abs d) at 1 3 by lia.
    rewrite Z.quot_opp_l, Z.rem_opp_l by lia.
    rewrite Z.quot_div_nonneg, Z.rem_mod_nonneg by lia. auto.
  - rewrite Z.abs_eq by lia.
    rewrite Z.quot_div_nonneg, Z.rem_mod_nonneg by lia. auto.
Qed.

Lemma cond_Zopp_zero (s : bool) : cond_Zopp s 0 = 0.
Proof. destruct s; reflexivity. Qed.

(** The sum of the quotient and the fraction the accessors compute,
    converted to [int64], is the quotient, when the quotient is below
    [2^(53-b)] for a [b] with [u < 2^b] (and not too close to it). *)
Lemma accessor_truncates (d u b : Z) :
  0 < u < 2 ^ b -> 1 <= b <= 52 ->
  u * 2 ^ b < (2 ^ b - u) * 2 ^ 52 ->
  Z.abs d < 2 ^ (53 - b) * u ->
  float64_to_int64
    (float64_add (strconv.float64_of_Z (Z.quot d u))
                 (float64_div (strconv.float64_of_Z (Z.rem d u))
                              (strconv.float64_of_Z u))) =
  Z.quot d u.
Proof.
  intros Hu Hb Hmargin Hd.
  destruct (quot_rem_sign d u ltac:(lia)) as [-> ->].
  set (s := d <? 0). set (k := Z.abs d / u). set (a := Z.abs d mod u).
  assert (Ha : 0 <= a < u) by (subst a; apply Z.mod_pos_bound; lia).
  assert (Hk : 0 <= k < 2 ^ (53 - b)).
  { subst k. split; [apply Z.div_pos; lia |].
    apply Z.div_lt_upper_bound; lia. }
  assert (Hb52 : 2 ^ b <= 2 ^ 52) by (apply Z.pow_le_mono_r; lia).
  assert (Hb53 : 2 ^ (53 - b) <= 2 ^ 52) by (apply Z.pow_le_mono_r; lia).
  change (2 ^ 52) with 4503599627370496 in Hb52, Hb53.
  assert (H53 : 2 ^ 53 = 9007199254740992) by reflexivity.
  assert (Hku : forall z, 0 <= z < 4503599627370496 ->
                          Z.abs (cond_Zopp s z) < 2 ^ 53).
  { intros z Hz. rewrite H53. destruct s; cbn [cond_Zopp]; lia. }
  rewrite (float64_of_Z_signed (cond_Zopp s k)) by (apply Hku; lia).
  rewrite (float64_of_Z_signed (cond_Zopp s a)) by (apply Hku; lia).
  rewrite (float64_of_Z_exact u) by lia.
  destruct (Z.eq_dec a 0) as [Ea | Na].
  - (* a whole number of units *)
    rewrite Ea, cond_Zopp_zero.
    replace (float64_div (signed_float 0) (exact_float u)) with (S754_zero false)
      by reflexivity.
    rewrite float64_add_zero.
    apply float64_to_int64_signed. apply Hku. lia.
  - destruct (div_below_one s a u b ltac:(lia) ltac:(lia) Hb Hmargin)
      as (mq & eq & -> & Heq & Hq).
    destruct (Z.eq_dec k 0) as [Ek | Nk].
    + (* less than one unit *)
      rewrite Ek, cond_Zopp_zero.
      change (float64_add (signed_float 0) (S754_finite s mq eq))
        with (S754_finite s mq eq).
      unfold float64_to_int64.
      replace (0 <=? eq) with false by (symmetry; apply Z.leb_gt; lia).
      assert (Hsmall : Zpos mq < 2 ^ (- eq)).
      { assert (Hp : 0 < 2 ^ b) by (apply Z.pow_pos_nonneg; lia).
        assert (Hy : 0 < 2 ^ (- eq)) by (apply Z.pow_pos_nonneg; lia).
        assert (H1 : Zpos mq * 2 ^ b < 2 ^ (- eq) * 2 ^ b).
        { apply Z.lt_le_trans with ((2 ^ b - 1) * 2 ^ (- eq)); [exact Hq |].
          rewrite (Z.mul_comm (2 ^ (- eq))).
          apply Z.mul_le_mono_nonneg_r; lia. }
        apply Z.mul_lt_mono_pos_r in H1; assumption. }
      rewrite Z.div_small by lia.
      destruct s; reflexivity.
    + apply (add_truncates s k b mq eq); try assumption; lia.
Qed.

(** Converting what [Seconds] returns to [int64] gives [d / Second],
    the quotient truncated toward zero, for every duration below [2^23]
    seconds in magnitude; likewise [Minutes] below [2^17] minutes and
    [Hours] below [2^11] hours.  The bound is needed: at [2^24] seconds
    and 999999999 nanoseconds the sum rounds up to the next second. *)
Theorem accessors_truncate_to_quotient (d : Duration) :
  (Z.abs d < 2 ^ 23 * Second ->
   float64_to_int64 (Float64.Seconds d) = Z.quot d Second) /\
  (Z.abs d < 2 ^ 17 * Minute ->
   float64_to_int64 (Float64.Minutes d) = Z.quot d Minute) /\
  (Z.abs d < 2 ^ 11 * Hour ->
   float64_to_int64 (Float64.Hours d) = Z.quot d Hour) /\
  float64_to_int64 (Float64.Seconds (2 ^ 24 * Second + 999999999)) =
    Z.quot (2 ^ 24 * Second + 999999999) Second + 1.
Proof.
  split; [| split; [| split]].
  - intros Hd. unfold Float64.Seconds. cbv zeta.
    change (10 ^ 9) with Second.
    apply (accessor_truncates d Second 30);
      change Second with 1000000000 in *;
      change (2 ^ 30) with 1073741824; change (2 ^ 52) with 4503599627370496;
      change (2 ^ (53 - 30)) with (2 ^ 23); lia.
  - intros Hd. unfold Float64.Minutes. cbv zeta.
    change (60 * 10 ^ 9) with Minute.
    apply (accessor_truncates d Minute 36);
      change Minute with 60000000000 in *;
      change (2 ^ 36) with 68719476736; change (2 ^ 52) with 4503599627370496;
      change (2 ^ (53 - 36)) with (2 ^ 17); lia.
  - intros Hd. unfold Float64.Hours. cbv zeta.
    change (60 * 60 * 10 ^ 9) with Hour.
    apply (accessor_truncates d Hour 42);
      change Hour with 3600000000000 in *;
      change (2 ^ 42) with 4398046511104; change (2 ^ 52) with 4503599627370496;
      change (2 ^ (53 - 42)) with (2 ^ 11); lia.
  - vm_compute. reflexivity.
Qed.

Lemma accessors_truncate_to_quotient_witness :
  float64_to_int64 (Float64.Seconds (-1500 * Millisecond)) = -1 /\
  float64_to_int64 (Float64.Minutes (90 * Second)) = 1 /\
  float64_to_int64 (Float64.Hours (-90 * Minute)) = -1.
Proof.
  split; [| split].
  - apply (proj1 (accessors_truncate_to_quotient (-1500 * Millisecond))).
    vm_compute. reflexivity.
  - apply (proj1 (proj2 (accessors_truncate_to_quotient (90 * Second)))).
    vm_compute. reflexivity.
  - apply (proj1 (proj2 (proj2 (accessors_truncate_to_quotient (-90 * Minute))))).
    vm_compute. reflexivity.
Defined.

(* ================================================================== *)
(** * Seconds with a fraction *)

(** Rounding moves a mantissa by less than one unit of the last place
    kept. *)
Lemma binary_round_aux_near (s : bool) (m e : Z) (l : location) :
  0 < m -> -1074 <= e ->
  e + Z.max 0 (Zdigits2 m - 53) <= 970 ->
  exists m' e',
    binary_round_aux strconv.prec strconv.emax s m e l = S754_finite s m' e' /\
    e <= e' /\
    m - 2 ^ Z.max 0 (Zdigits2 m - 53) < Zpos m' * 2 ^ (e' - e)
      <= m + 2 ^ Z.max 0 (Zdigits2 m - 53) /\
    (53 <= Zdigits2 m -> 2 ^ 52 <= Zpos m').
Proof.
  intros Hm He Hmax.
  set (n := Z.max 0 (Zdigits2 m - 53)) in *.
  assert (Hp : 0 < 2 ^ n) by (apply Z.pow_pos_nonneg; subst n; lia).
  pose proof (Z.div_mod m (2 ^ n) ltac:(lia)) as Ediv.
  pose proof (Z.mod_pos_bound m (2 ^ n) Hp) as Hmod.
  destruct (binary_round_aux_bracket s m e l
              (m / 2 ^ n * 2 ^ n) ((m / 2 ^ n + 1) * 2 ^ n))
    as (m' & e' & Hres & Hee & Hb & Hnorm); try assumption.
  - fold n. apply Z.mod_mul. lia.
  - fold n. apply Z.mod_mul. lia.
  - lia.
  - exists m', e'. split; [exact Hres |]. split; [exact Hee |].
    split; [lia | exact Hnorm].
Qed.

Lemma SFdiv_core_integers (n D : Z) :
  0 < n -> 0 < D -> -1000 <= Zdigits2 n - Zdigits2 D <= 52 ->
  SFdiv_core_binary strconv.prec strconv.emax n 0 D 0 =
  (n * 2 ^ (53 + Zdigits2 D - Zdigits2 n) / D,
   - (53 + Zdigits2 D - Zdigits2 n),
   new_location D (n * 2 ^ (53 + Zdigits2 D - Zdigits2 n) mod D)).
Proof.
  intros Hn HD Hd. unfold SFdiv_core_binary. rewrite fexp64.
  replace (Z.min (Z.max (Zdigits2 n + 0 - (Zdigits2 D + 0) - 53) (-1074)) (0 - 0))
    with (- (53 + Zdigits2 D - Zdigits2 n)) by lia.
  replace (0 - 0 - - (53 + Zdigits2 D - Zdigits2 n))
    with (53 + Zdigits2 D - Zdigits2 n) by lia.
  destruct (53 + Zdigits2 D - Zdigits2 n) as [| sh | sh] eqn:Es; try lia.
  rewrite Z.shiftl_mul_pow2 by lia.
  unfold Z.div, Z.modulo.
  destruct (Z.div_eucl (n * 2 ^ Zpos sh) D) as [q r]. reflexivity.
Qed.

(** The float of a decimal below 64, against the exact quotient: with
    [sh] the bits the dividend is shifted by, the result times the
    divisor is within two divisors of the shifted dividend. *)
Lemma round_decimal_near (n : Z) (k : nat) :
  0 < n -> (k <= 9)%nat -> n < 64 * 10 ^ Z.of_nat k ->
  exists mr er sh,
    strconv.round_decimal n k = S754_finite false mr er /\
    47 <= sh <= 82 /\ - sh <= er <= -46 /\
    n * 2 ^ sh - 2 * 10 ^ Z.of_nat k < Zpos mr * 2 ^ (er + sh) * 10 ^ Z.of_nat k
      <= n * 2 ^ sh + 2 * 10 ^ Z.of_nat k.
Proof.
  intros Hn Hk Hlt.
  set (D := 10 ^ Z.of_nat k) in *.
  assert (HD : 1 <= D <= 10 ^ 9).
  { subst D. split.
    - assert (0 < 10 ^ Z.of_nat k) by (apply Z.pow_pos_nonneg; lia). lia.
    - apply Z.pow_le_mono_r; lia. }
  change (10 ^ 9) with 1000000000 in HD.
  destruct (Zdigits2_range n Hn) as (Hd1 & Hnlo & Hnhi).
  destruct (Zdigits2_range D ltac:(lia)) as (Hd2 & HDlo & HDhi).
  assert (Hd2' : Zdigits2 D <= 30)
    by (apply (Zdigits2_le_iff D 30); [lia | lia | change (2 ^ 30) with 1073741824; lia]).
  assert (Hd12 : Zdigits2 n <= Zdigits2 D + 6).
  { apply (Zdigits2_le_iff n (Zdigits2 D + 6)); [lia | lia |].
    rewrite Z.pow_add_r by lia. change (2 ^ 6) with 64. lia. }
  set (sh := 53 + Zdigits2 D - Zdigits2 n).
  assert (Hsh : 47 <= sh <= 82) by (subst sh; lia).
  unfold strconv.round_decimal. destruct n as [| p | p]; try lia.
  fold D. unfold SFdiv.
  rewrite Z2Pos.id by lia.
  rewrite (SFdiv_core_integers (Zpos p) D) by lia.
  fold sh. cbn [xorb].
  set (q := Zpos p * 2 ^ sh / D).
  assert (Hpsh : 0 < 2 ^ sh) by (apply Z.pow_pos_nonneg; lia).
  pose proof (Z.div_mod (Zpos p * 2 ^ sh) D ltac:(lia)) as Ediv. fold q in Ediv.
  pose proof (Z.mod_pos_bound (Zpos p * 2 ^ sh) D ltac:(lia)) as Hmod.
  (* the size of the quotient *)
  assert (E1 : 2 ^ (Zdigits2 (Zpos p) - 1) * 2 ^ sh = 2 ^ 52 * 2 ^ Zdigits2 D)
    by (rewrite <- !Z.pow_add_r by lia; f_equal; subst sh; lia).
  assert (E2 : 2 ^ Zdigits2 (Zpos p) * 2 ^ sh = 2 ^ 54 * 2 ^ (Zdigits2 D - 1))
    by (rewrite <- !Z.pow_add_r by lia; f_equal; subst sh; lia).
  assert (Hnum_lo : 2 ^ 52 * 2 ^ Zdigits2 D <= Zpos p * 2 ^ sh)
    by (rewrite <- E1; apply Z.mul_le_mono_nonneg_r; lia).
  assert (Hnum_hi : Zpos p * 2 ^ sh < 2 ^ 54 * 2 ^ (Zdigits2 D - 1))
    by (rewrite <- E2; apply Z.mul_lt_mono_pos_r; lia).
  assert (Hq : 2 ^ 52 <= q < 2 ^ 54).
  { subst q. split.
    - apply Z.div_le_lower_bound; [lia |].
      apply Z.le_trans with (2 ^ 52 * 2 ^ Zdigits2 D); [| exact Hnum_lo].
      rewrite (Z.mul_comm D). apply Z.mul_le_mono_nonneg_l; lia.
    - apply Z.div_lt_upper_bound; [lia |].
      apply Z.lt_le_trans with (2 ^ 54 * 2 ^ (Zdigits2 D - 1)); [exact Hnum_hi |].
      rewrite (Z.mul_comm D). apply Z.mul_le_mono_nonneg_l; lia. }
  assert (Hdq : 53 <= Zdigits2 q <= 54).
  { split.
    - destruct (Z.le_gt_cases 53 (Zdigits2 q)) as [H | H]; [exact H |].
      assert (H' : Zdigits2 q <= 52) by lia.
      apply (Zdigits2_le_iff q 52) in H'; lia.
    - apply (Zdigits2_le_iff q 54); lia. }
  destruct (binary_round_aux_near false q (- sh)
              (new_location D (Zpos p * 2 ^ sh mod D)))
    as (mr & er & Hres & Hee & Hnear & Hnorm); try lia.
  specialize (Hnorm ltac:(lia)).
  assert (Hstep : 1 <= 2 ^ Z.max 0 (Zdigits2 q - 53) <= 2).
  { destruct (Z.eq_dec (Zdigits2 q) 54) as [E | NE].
    - rewrite E. change (2 ^ Z.max 0 (54 - 53)) with 2. lia.
    - replace (Z.max 0 (Zdigits2 q - 53)) with 0 by lia. change (2 ^ 0) with 1. lia. }
  replace (er - - sh) with (er + sh) in Hnear by lia.
  set (G := 2 ^ (er + sh)) in *.
  assert (HG : 0 < G) by (subst G; apply Z.pow_pos_nonneg; lia).
  assert (Hlow : Zpos p * 2 ^ sh - 2 * D < Zpos mr * G * D).
  { assert ((q - 1) * D <= Zpos mr * G * D)
      by (apply Z.mul_le_mono_nonneg_r; lia).
    lia. }
  assert (Hupp : Zpos mr * G * D <= Zpos p * 2 ^ sh + 2 * D).
  { assert (Zpos mr * G * D <= (q + 2) * D)
      by (apply Z.mul_le_mono_nonneg_r; lia).
    lia. }
  assert (Her : er <= -46).
  { destruct (Z.le_gt_cases er (-46)) as [H | H]; [exact H | exfalso].
    assert (H1 : 2 ^ (7 + sh) <= 2 ^ (52 + (er + sh)))
      by (apply Z.pow_le_mono_r; lia).
    rewrite !Z.pow_add_r in H1 by lia. fold G in H1.
    change (2 ^ 7) with 128 in H1.
    assert (H2 : 2 ^ 52 * G <= Zpos mr * G)
      by (apply Z.mul_le_mono_nonneg_r; lia).
    assert (H3 : Zpos mr * G * D < 128 * 2 ^ sh * D).
    { assert (Ha : Zpos p * 2 ^ sh <= (64 * D - 1) * 2 ^ sh)
        by (apply Z.mul_le_mono_nonneg_r; lia).
      assert (Hb : D * 1 <= D * 2 ^ sh)
        by (apply Z.mul_le_mono_nonneg_l; lia).
      clear - Hupp Ha Hb HD Hpsh. lia. }
    apply Z.mul_lt_mono_pos_r in H3; lia. }
  exists mr, er, sh. split; [exact Hres |].
  split; [lia |]. split; [lia |]. split; assumption.
Qed.

(** A float within less than half a nanosecond above and one below
    [S] nanoseconds gives, times [1e9] and converted to [int64], [S] or
    [S - 1]. *)
Lemma mul_billion_near (mr : positive) (er S : Z) :
  -200 <= er <= -1 -> 1 <= S < 2 ^ 36 ->
  (S - 1) * 2 ^ (- er) <= Zpos mr * 10 ^ 9 ->
  Zpos mr * 10 ^ 9 * 2 < (2 * S + 1) * 2 ^ (- er) ->
  S - 1 <= float64_to_int64
             (float64_mul (S754_finite false mr er)
                          (strconv.float64_of_Z time_Second)) <= S.
Proof.
  intros Her HS Hlow Hupp.
  rewrite (float64_of_Z_exact time_Second) by (unfold time_Second; lia).
  change (exact_float time_Second)
    with (S754_finite false 8388608000000000 (-23)).
  unfold float64_mul, SFmul. cbn [xorb].
  rewrite Pos2Z.inj_mul.
  change (Zpos 8388608000000000) with (10 ^ 9 * 2 ^ 23).
  set (P := Zpos mr * (10 ^ 9 * 2 ^ 23)).
  set (Y := 2 ^ (- er)) in *.
  assert (HY : 0 < Y) by (subst Y; apply Z.pow_pos_nonneg; lia).
  set (U := 2 ^ (23 - er)).
  assert (HU : U = Y * 2 ^ 23)
    by (subst U Y; rewrite <- Z.pow_add_r by lia; f_equal; lia).
  set (V := 2 ^ (22 - er)).
  assert (HV : V = Y * 2 ^ 22)
    by (subst V Y; rewrite <- Z.pow_add_r by lia; f_equal; lia).
  assert (HUV : U = 2 * V).
  { rewrite HU, HV. change (2 ^ 23) with (2 * 2 ^ 22). ring. }
  assert (HVpos : 0 < V) by (subst V; apply Z.pow_pos_nonneg; lia).
  assert (HP : 0 < P) by (subst P; lia).
  assert (HAP : (S - 1) * U <= P).
  { subst P. rewrite HU.
    replace ((S - 1) * (Y * 2 ^ 23)) with ((S - 1) * Y * 2 ^ 23) by ring.
    replace (Zpos mr * (10 ^ 9 * 2 ^ 23)) with (Zpos mr * 10 ^ 9 * 2 ^ 23) by ring.
    apply Z.mul_le_mono_nonneg_r; [lia | exact Hlow]. }
  assert (HPB : P < (2 * S + 1) * V).
  { subst P. rewrite HV.
    replace ((2 * S + 1) * (Y * 2 ^ 22)) with ((2 * S + 1) * Y * 2 ^ 22) by ring.
    replace (Zpos mr * (10 ^ 9 * 2 ^ 23)) with (Zpos mr * 10 ^ 9 * 2 * 2 ^ 22)
      by (change (2 ^ 23) with (2 * 2 ^ 22); ring).
    apply Z.mul_lt_mono_pos_r; [lia | exact Hupp]. }
  (* the digits of the product *)
  assert (HPlt : P < 2 ^ (75 - er)).
  { assert (E : 2 ^ (75 - er) = 2 ^ 53 * V)
      by (subst V; rewrite <- Z.pow_add_r by lia; f_equal; lia).
    rewrite E.
    apply Z.lt_le_trans with ((2 * S + 1) * V); [exact HPB |].
    apply Z.mul_le_mono_nonneg_r; [lia |].
    change (2 ^ 36) with 68719476736 in HS.
    change (2 ^ 53) with 9007199254740992. lia. }
  assert (HdP : Zdigits2 P <= 75 - er) by (apply (Zdigits2_le_iff P (75 - er)); lia).
  destruct (Zdigits2_range P HP) as (HdP1 & _ & _).
  set (n := Z.max 0 (Zdigits2 P - 53)).
  assert (Hn : 0 <= n <= 22 - er) by (subst n; lia).
  assert (HVn : V = 2 ^ (22 - er - n) * 2 ^ n)
    by (subst V; rewrite <- Z.pow_add_r by lia; f_equal; lia).
  destruct (binary_round_aux_bracket false P (er + -23) loc_Exact
              ((S - 1) * U) ((2 * S + 1) * V))
    as (mp & ep & -> & Hep & [HlowA HupB] & _).
  - exact HP.
  - lia.
  - fold n. lia.
  - fold n. rewrite HUV, HVn.
    replace ((S - 1) * (2 * (2 ^ (22 - er - n) * 2 ^ n)))
      with ((S - 1) * 2 * 2 ^ (22 - er - n) * 2 ^ n) by ring.
    apply Z.mod_mul. apply Z.pow_nonzero; lia.
  - fold n. rewrite HVn.
    replace ((2 * S + 1) * (2 ^ (22 - er - n) * 2 ^ n))
      with ((2 * S + 1) * 2 ^ (22 - er - n) * 2 ^ n) by ring.
    apply Z.mod_mul. apply Z.pow_nonzero; lia.
  - split; assumption.
  - (* the conversion to int64 *)
    replace (ep - (er + -23)) with (ep + (23 - er)) in * by lia.
    unfold float64_to_int64.
    assert (Ha : S - 1 <= (if 0 <=? ep then Zpos mp * 2 ^ ep
                           else Zpos mp / 2 ^ (- ep)) <= S).
    { destruct (Z.leb_spec 0 ep) as [Hpos | Hneg].
      - rewrite Z.pow_add_r in HlowA, HupB by lia. fold U in HlowA, HupB.
        rewrite Z.mul_assoc in HlowA, HupB.
        set (I := Zpos mp * 2 ^ ep) in *.
        rewrite HUV in HlowA, HupB.
        clear - HlowA HupB HVpos. clearbody I V.
        assert (H1 : (S - 1) * 2 * V <= I * 2 * V) by lia.
        assert (H2 : I * 2 * V <= (2 * S + 1) * V) by lia.
        apply Z.mul_le_mono_pos_r in H1; [| exact HVpos].
        apply Z.mul_le_mono_pos_r in H2; [| exact HVpos].
        lia.
      - set (G := 2 ^ (ep + (23 - er))) in *.
        assert (HG : 0 < G) by (subst G; apply Z.pow_pos_nonneg; lia).
        set (W := 2 ^ (- ep)).
        assert (HW : 0 < W) by (subst W; apply Z.pow_pos_nonneg; lia).
        assert (E : U = W * G)
          by (subst U W G; rewrite <- Z.pow_add_r by lia; f_equal; lia).
        assert (H1 : (S - 1) * W * G <= Zpos mp * G).
        { replace ((S - 1) * W * G) with ((S - 1) * (W * G)) by ring.
          rewrite <- E. exact HlowA. }
        assert (H2 : Zpos mp * 2 * G <= (2 * S + 1) * W * G).
        { replace ((2 * S + 1) * W * G) with ((2 * S + 1) * V * 2).
          - clear - HupB. lia.
          - replace ((2 * S + 1) * V * 2) with ((2 * S + 1) * (2 * V)) by ring.
            rewrite <- HUV, E. ring. }
        apply Z.mul_le_mono_pos_r in H1; [| exact HG].
        apply Z.mul_le_mono_pos_r in H2; [| exact HG].
        split.
        + apply Z.div_le_lower_bound; [exact HW |].
          rewrite Z.mul_comm. exact H1.
        + assert (Zpos mp / W < S + 1); [| lia].
          apply Z.div_lt_upper_bound; [exact HW |].
          clear - H2 HW. clearbody W. lia. }
    set (a := if 0 <=? ep then Zpos mp * 2 ^ ep else Zpos mp / 2 ^ (- ep)) in *.
    replace ((int64_min <=? a) && (a <=? int64_max)) with true; [exact Ha |].
    symmetry. apply andb_true_iff.
    change (2 ^ 36) with 68719476736 in HS.
    split; apply Z.leb_le; range_lia.
Qed.

(** The seconds a decimal with [k <= 9] decimals is read as: the
    nanoseconds it stands for, or one less. *)
Lemma seconds_fraction_value (n : Z) (k : nat) :
  0 < n -> (k <= 9)%nat -> n < 64 * 10 ^ Z.of_nat k ->
  (forall b, strconv.round_decimal n k <> S754_infinity b) /\
  n * 10 ^ Z.of_nat (9 - k) - 1 <=
    float64_to_int64 (float64_mul (strconv.round_decimal n k)
                                  (strconv.float64_of_Z time_Second))
    <= n * 10 ^ Z.of_nat (9 - k).
Proof.
  intros Hn Hk Hlt.
  destruct (round_decimal_near n k Hn Hk Hlt)
    as (mr & er & sh & -> & Hsh & Her & Hlow & Hupp).
  split; [discriminate |].
  set (D := 10 ^ Z.of_nat k) in *.
  set (T := 10 ^ Z.of_nat (9 - k)).
  assert (HD : 0 < D) by (subst D; apply Z.pow_pos_nonneg; lia).
  assert (HT : 0 < T) by (subst T; apply Z.pow_pos_nonneg; lia).
  assert (HDT : D * T = 10 ^ 9)
    by (subst D T; rewrite <- Z.pow_add_r by lia; f_equal; lia).
  set (S := n * T).
  set (G := 2 ^ (er + sh)) in *.
  assert (HG : 0 < G) by (subst G; apply Z.pow_pos_nonneg; lia).
  set (Y := 2 ^ (- er)).
  assert (HY : 0 < Y) by (subst Y; apply Z.pow_pos_nonneg; lia).
  assert (HYG : Y * G = 2 ^ sh)
    by (subst Y G; rewrite <- Z.pow_add_r by lia; f_equal; lia).
  assert (Hbig : 2 ^ 47 <= 2 ^ sh) by (apply Z.pow_le_mono_r; lia).
  change (2 ^ 47) with 140737488355328 in Hbig.
  (* both bounds, times the divisor's cofactor *)
  assert (HlowT : S * 2 ^ sh - 2 * 10 ^ 9 < Zpos mr * 10 ^ 9 * G).
  { assert (H : (n * 2 ^ sh - 2 * D) * T < Zpos mr * G * D * T)
      by (apply Z.mul_lt_mono_pos_r; assumption).
    rewrite <- HDT. subst S.
    replace (n * T * 2 ^ sh - 2 * (D * T)) with ((n * 2 ^ sh - 2 * D) * T) by ring.
    replace (Zpos mr * (D * T) * G) with (Zpos mr * G * D * T) by ring.
    exact H. }
  assert (HuppT : Zpos mr * 10 ^ 9 * G <= S * 2 ^ sh + 2 * 10 ^ 9).
  { assert (H : Zpos mr * G * D * T <= (n * 2 ^ sh + 2 * D) * T)
      by (apply Z.mul_le_mono_nonneg_r; [lia | assumption]).
    rewrite <- HDT. subst S.
    replace (n * T * 2 ^ sh + 2 * (D * T)) with ((n * 2 ^ sh + 2 * D) * T) by ring.
    replace (Zpos mr * (D * T) * G) with (Zpos mr * G * D * T) by ring.
    exact H. }
  change (10 ^ 9) with 1000000000 in HlowT, HuppT, HDT.
  assert (HS : 1 <= S < 2 ^ 36).
  { subst S. split; [clear - Hn HT; nia |].
    assert (n * T < 64 * D * T) by (apply Z.mul_lt_mono_pos_r; assumption).
    change (2 ^ 36) with 68719476736. clear - H HDT. lia. }
  apply mul_billion_near; try lia.
  - (* from below *)
    fold Y.
    apply Z.mul_le_mono_pos_r with G; [exact HG |].
    replace ((S - 1) * Y * G) with ((S - 1) * (Y * G)) by ring.
    rewrite HYG. change (10 ^ 9) with 1000000000.
    clear - HlowT Hbig. lia.
  - (* from above *)
    fold Y.
    apply Z.mul_lt_mono_pos_r with G; [exact HG |].
    replace ((2 * S + 1) * Y * G) with ((2 * S + 1) * (Y * G)) by ring.
    rewrite HYG. change (10 ^ 9) with 1000000000.
    clear - HuppT Hbig. lia.
Qed.

(** ** The seconds field String writes, read back *)

Lemma all_in_app (cls : regexp.CharClass) (s t : string) :
  all_in cls (s ++ t) = all_in cls s && all_in cls t.
Proof.
  induction s as [| a s IH]; cbn [append all_in]; [reflexivity |].
  rewrite IH. apply andb_assoc.
Qed.

Lemma all_digits_in_seconds (s : string) :
  strconv.all_digits s = true -> all_in digit_or_dot s = true.
Proof.
  intros H. apply all_in_digit_sub. rewrite all_in_digit. exact H.
Qed.

Lemma split_dot_point (ip fp : string) :
  strconv.all_digits ip = true ->
  strconv.split_dot (ip ++ "." ++ fp) = (ip, Some fp).
Proof.
  induction ip as [| a s IH]; intros Hall.
  - reflexivity.
  - cbn [strconv.all_digits] in Hall. apply andb_true_iff in Hall.
    destruct Hall as [Ha Hs].
    cbn [append strconv.split_dot].
    destruct (Ascii.eqb_spec a ".") as [-> | _]; [discriminate Ha |].
    change (s ++ String "." fp) with (s ++ "." ++ fp).
    rewrite (IH Hs). reflexivity.
Qed.

Lemma decimal_shift (t : string) :
  forall acc,
    strconv.decimal acc t =
    acc * 10 ^ Z.of_nat (String.length t) + strconv.decimal 0 t.
Proof.
  induction t as [| c t IH]; intros acc.
  - cbn [strconv.decimal String.length Z.of_nat]. change (10 ^ 0) with 1. lia.
  - cbn [strconv.decimal String.length].
    rewrite (IH (10 * acc + strconv.digit_val c)), (IH (10 * 0 + strconv.digit_val c)).
    rewrite Nat2Z.inj_succ, Z.pow_succ_r by lia. ring.
Qed.

Lemma decimal_app (s t : string) :
  strconv.decimal 0 (s ++ t) =
  strconv.decimal 0 s * 10 ^ Z.of_nat (String.length t) + strconv.decimal 0 t.
Proof.
  rewrite <- decimal_shift. generalize 0.
  induction s as [| c s IH]; intros acc; cbn [append strconv.decimal];
    [reflexivity | apply IH].
Qed.

(** The seconds numeral with its fraction, as [String] writes them, is
    read as the nanoseconds it stands for, or one less. *)
Lemma seconds_text_value (sv r : Z) (secs frac : string) :
  numeral sv secs -> 0 <= sv < 60 -> fraction 9 r frac -> 0 < r ->
  exists f,
    strconv.ParseFloat (secs ++ frac) = inl f /\
    sv * 10 ^ 9 + r - 1 <=
      float64_to_int64 (float64_mul f (strconv.float64_of_Z time_Second))
      <= sv * 10 ^ 9 + r.
Proof.
  intros (Hsd & Hsv & Hsne) Hsv60 [[H0 _] | (ds & c & -> & Hall & Hc & Hlen & Hr)] Hpos;
    [lia |].
  set (fp := ds ++ String c "") in *.
  set (k := String.length fp) in *.
  assert (Hfne : fp <> "") by (subst fp; destruct ds; discriminate).
  pose proof (decimal_range fp 0 ltac:(lia) Hall) as Hfr. fold k in Hfr.
  assert (Hpk : 0 < 10 ^ Z.of_nat k) by (apply Z.pow_pos_nonneg; lia).
  assert (Hpt : 0 < 10 ^ Z.of_nat (9 - k)) by (apply Z.pow_pos_nonneg; lia).
  assert (Hkt : 10 ^ Z.of_nat k * 10 ^ Z.of_nat (9 - k) = 10 ^ 9)
    by (rewrite <- Z.pow_add_r by lia; f_equal; lia).
  set (n := strconv.decimal 0 (secs ++ fp)).
  assert (Hn : n = sv * 10 ^ Z.of_nat k + strconv.decimal 0 fp)
    by (subst n; rewrite decimal_app, Hsv; reflexivity).
  assert (Hfpos : 0 < strconv.decimal 0 fp).
  { destruct (Z.eq_dec (strconv.decimal 0 fp) 0) as [E | NE]; [| lia].
    rewrite E in Hr. lia. }
  assert (Hn0 : 0 < n).
  { rewrite Hn. assert (0 <= sv * 10 ^ Z.of_nat k) by (apply Z.mul_nonneg_nonneg; lia). lia. }
  assert (Hn64 : n < 64 * 10 ^ Z.of_nat k).
  { rewrite Hn.
    assert (sv * 10 ^ Z.of_nat k <= 59 * 10 ^ Z.of_nat k)
      by (apply Z.mul_le_mono_nonneg_r; lia).
    lia. }
  assert (HS : n * 10 ^ Z.of_nat (9 - k) = sv * 10 ^ 9 + r).
  { rewrite Hn, Z.mul_add_distr_r, <- Z.mul_assoc, Hkt, Hr. reflexivity. }
  destruct (seconds_fraction_value n k Hn0 Hlen Hn64) as [Hfin Hval].
  rewrite HS in Hval.
  exists (strconv.round_decimal n k). split; [| exact Hval].
  unfold strconv.ParseFloat.
  change ("." ++ ds ++ String c "") with ("." ++ fp).
  rewrite (split_dot_point secs fp Hsd), Hsd, Hall.
  replace (String.eqb (secs ++ fp) "") with false
    by (destruct secs; [contradiction | reflexivity]).
  cbn [andb negb]. fold k. fold n.
  destruct (strconv.round_decimal n k) as [b | b | | b m e] eqn:E; try reflexivity.
  exfalso. exact (Hfin b eq_refl).
Qed.

Lemma fractional_seconds_text (d : Duration) :
  is_int64 d -> Second <= d -> d mod Second <> 0 ->
  exists s d',
    Duration.String d = Done s /\ parseDuration s = Ok d' /\ d - 1 <= d' <= d.
Proof.
  intros Hd Hbig Hfracnz. change Second with 1000000000 in *.
  destruct (String_from_second d Hd) as (hm & secs & frac & Hhm & Hsecs & Hfrac & Hs).
  { rewrite Z.abs_eq by lia. change (10 ^ 9) with 1000000000. lia. }
  rewrite Z.abs_eq in * by lia.
  replace (d <? 0) with false in Hs by (symmetry; apply Z.ltb_ge; lia).
  change (10 ^ 9) with 1000000000 in *.
  set (u1 := d / 1000000000) in *.
  set (r := d mod 1000000000) in *.
  pose proof (Z.mod_pos_bound d 1000000000 ltac:(lia)) as Hr. fold r in Hr.
  pose proof (Z.div_mod d 1000000000 ltac:(lia)) as E3. fold u1 r in E3.
  assert (Hu1 : 0 <= u1) by (apply Z.div_pos; lia).
  assert (Hq : 0 <= u1 / 60) by (apply Z.div_pos; lia).
  pose proof (Z.mod_pos_bound u1 60 ltac:(lia)) as Hs60.
  pose proof (Z.div_mod u1 60 ltac:(lia)) as E1.
  pose proof (Z.div_mod (u1 / 60) 60 ltac:(lia)) as E2.
  destruct (hours_minutes_fields _ _ Hq Hhm) as (hh & mm & -> & Fh & Fm & Vh & Vm).
  destruct (seconds_text_value (u1 mod 60) r secs frac Hsecs ltac:(lia) Hfrac ltac:(lia))
    as (f & Hf & Hv).
  change (10 ^ 9) with 1000000000 in Hv.
  set (v := float64_to_int64 (float64_mul f (strconv.float64_of_Z time_Second))) in *.
  (* the seconds field *)
  assert (Hbody : all_in digit_or_dot (secs ++ frac) = true).
  { rewrite all_in_app. destruct Hsecs as (Hsd & _ & _).
    rewrite (all_digits_in_seconds secs Hsd). cbn [andb].
    destruct Hfrac as [[H0 _] | (ds & c & -> & Hall & _)]; [lia |].
    change ("." ++ ds ++ String c "") with (String "." (ds ++ String c "")).
    cbn [all_in]. rewrite (all_digits_in_seconds _ Hall). reflexivity. }
  assert (Hne : secs ++ frac <> "")
    by (destruct Hsecs as (_ & _ & Hne); destruct secs; [contradiction | discriminate]).
  assert (Fs : field digit_or_dot "S" ((secs ++ frac) ++ "S")).
  { right. exists (secs ++ frac). split; [exact Hne |]. split; [exact Hbody | reflexivity]. }
  assert (Ts : strings.TrimRight ((secs ++ frac) ++ "S") "S" = secs ++ frac)
    by (apply (TrimRight_field digit_or_dot "S" _ eq_refl Hbody)).
  exists ("PT" ++ "" ++ (hh ++ mm) ++ secs ++ frac ++ "S").
  exists (field_number "D" "" * 24 * time_Hour + field_number "H" hh * time_Hour +
          field_number "M" mm * time_Minute + v).
  split; [exact Hs |].
  assert (Ht : duration_text ("PT" ++ "" ++ (hh ++ mm) ++ secs ++ frac ++ "S")
                             "" hh mm ((secs ++ frac) ++ "S")).
  { split; [left; reflexivity |]. split; [exact Fh |]. split; [exact Fm |].
    split; [exact Fs |]. right.
    cbn [append]. rewrite !append_assoc. reflexivity. }
  pose proof (numeral_len _ _ Hsecs) as Hls.
  assert (Hsum : field_number "D" "" * 24 * time_Hour + field_number "H" hh * time_Hour +
                 field_number "M" mm * time_Minute + (u1 mod 60 * 1000000000 + r) = d).
  { rewrite Vh, Vm. change (field_number "D" "") with 0.
    unfold time_Hour, time_Minute, time_Second. lia. }
  split; [| lia].
  apply (parseDuration_total _ _ _ _ _ v Ht).
  - unfold len in *. rewrite !length_append. cbn [String.length]. lia.
  - right. split; [apply field_not_empty |].
    exists f. rewrite Ts. split; [exact Hf | reflexivity].
  - lia.
  - range_lia.
Qed.

Lemma from_second_text (d : Duration) :
  is_int64 d -> Second <= d ->
  exists s d',
    Duration.String d = Done s /\ parseDuration s = Ok d' /\
    d - 1 <= d' <= d /\ (d mod Second = 0 -> d' = d).
Proof.
  intros Hd Hbig.
  destruct (Z.eq_dec (d mod Second) 0) as [Hz | Hnz].
  - destruct (whole_seconds_text d Hd) as (s & Hs & Hp);
      [change Second with 1000000000 in Hbig; lia | exact Hz |].
    exists s, d. split; [exact Hs |]. split; [exact Hp |]. split; [lia | auto].
  - destruct (fractional_seconds_text d Hd Hbig Hnz) as (s & d' & Hs & Hp & Hb).
    exists s, d'. split; [exact Hs |]. split; [exact Hp |]. split; [exact Hb |].
    intros Hz. contradiction.
Qed.

(** From one second on, a non-negative duration survives the trip
    through the attribute up to one nanosecond: [UnmarshalXMLAttr] on
    what [MarshalXMLAttr] made stores the duration or the duration less
    one nanosecond, never more, and returns no error; a whole number of
    seconds comes back as it was. *)
Theorem round_trip_within_one_tick (d d0 : Duration) (name : xml_Name) :
  is_int64 d -> Second <= d ->
  exists attr d',
    Duration.MarshalXMLAttr d name = Done attr /\
    Name attr = name /\
    parseDuration (Value attr) = Ok d' /\
    Duration.UnmarshalXMLAttr d0 attr = (d', None) /\
    d - 1 <= d' <= d /\
    (d mod Second = 0 -> d' = d).
Proof.
  intros Hd Hbig.
  destruct (from_second_text d Hd Hbig) as (s & d' & Hs & Hp & Hb & Hw).
  unfold Duration.MarshalXMLAttr. rewrite Hs.
  eexists. exists d'. split; [reflexivity |]. split; [reflexivity |].
  cbn [Value]. split; [exact Hp |]. split; [| split; assumption].
  unfold Duration.UnmarshalXMLAttr. cbn [Value]. rewrite Hp. reflexivity.
Qed.

Lemma round_trip_within_one_tick_witness :
  exists attr d',
    Duration.MarshalXMLAttr (1001 * Millisecond) {| Space := ""; Local := "d" |}
      = Done attr /\
    Name attr = {| Space := ""; Local := "d" |} /\
    parseDuration (Value attr) = Ok d' /\
    Duration.UnmarshalXMLAttr 7 attr = (d', None) /\
    1001 * Millisecond - 1 <= d' <= 1001 * Millisecond /\
    ((1001 * Millisecond) mod Second = 0 -> d' = 1001 * Millisecond).
Proof.
  apply (round_trip_within_one_tick (1001 * Millisecond) 7
                                    {| Space := ""; Local := "d" |}).
  - vm_compute. split; discriminate.
  - vm_compute. discriminate.
Defined.

(* ================================================================== *)
(** * The conversions of the fields, exactly *)

(** ** Where a quotient of integers leaves float64 *)

Lemma shr_1_round (mrs : shr_record) :
  0 <= shr_m mrs -> shr_r (shr_1 mrs) = Z.odd (shr_m mrs).
Proof.
  destruct mrs as [m r s]. cbn [shr_m]. intros Hm.
  destruct m as [| [p | p |] | p]; try reflexivity; lia.
Qed.

(** The round bit after shifting [p] bits out is the last bit shifted
    out. *)
Lemma iter_shr_1_round (p : positive) :
  forall mrs, 0 <= shr_m mrs ->
              shr_r (iter_pos shr_1 p mrs) = Z.odd (shr_m mrs / 2 ^ (Zpos p - 1)).
Proof.
  assert (Hnn : forall a b, 0 <= a -> 0 < b -> 0 <= a / b)
    by (intros; apply Z.div_pos; lia).
  induction p as [p IH | p IH |]; intros mrs Hm; cbn [iter_pos].
  - assert (H1 : 0 <= shr_m (shr_1 mrs)) by (rewrite shr_1_half; auto with zarith).
    assert (H2 : 0 <= shr_m (iter_pos shr_1 p (shr_1 mrs)))
      by (rewrite iter_shr_1 by exact H1; apply Hnn;
          [exact H1 | apply Z.pow_pos_nonneg; lia]).
    rewrite IH by exact H2. rewrite iter_shr_1 by exact H1.
    rewrite shr_1_half by exact Hm.
    assert (Hp : 0 < 2 ^ Zpos p) by (apply Z.pow_pos_nonneg; lia).
    assert (Hp1 : 0 < 2 ^ (Zpos p - 1)) by (apply Z.pow_pos_nonneg; lia).
    rewrite !Z.div_div by lia. f_equal. f_equal.
    rewrite Pos2Z.inj_xI.
    replace (2 * Zpos p + 1 - 1) with (1 + Zpos p + (Zpos p - 1)) by lia.
    rewrite !Z.pow_add_r by lia. rewrite Z.pow_1_r. ring.
  - assert (H2 : 0 <= shr_m (iter_pos shr_1 p mrs))
      by (rewrite iter_shr_1 by exact Hm; apply Hnn;
          [exact Hm | apply Z.pow_pos_nonneg; lia]).
    rewrite IH by exact H2. rewrite iter_shr_1 by exact Hm.
    assert (Hp : 0 < 2 ^ Zpos p) by (apply Z.pow_pos_nonneg; lia).
    assert (Hp1 : 0 < 2 ^ (Zpos p - 1)) by (apply Z.pow_pos_nonneg; lia).
    rewrite Z.div_div by lia. f_equal. f_equal.
    replace (Zpos p~0 - 1) with (Zpos p + (Zpos p - 1)) by lia.
    rewrite Z.pow_add_r by lia. reflexivity.
  - rewrite shr_1_round by exact Hm. change (2 ^ (1 - 1)) with 1.
    rewrite Z.div_1_r. reflexivity.
Qed.

(** Rounding a mantissa of more than 53 bits, given at the exponent 0:
    the bits shifted out decide through the last of them. *)
Lemma round_large_shape (s : bool) (q : Z) (l : location) :
  2 ^ 53 <= q ->
  exists r2,
    q / 2 ^ (Zdigits2 q - 53) <= r2 <= q / 2 ^ (Zdigits2 q - 53) + 1 /\
    (Z.odd (q / 2 ^ (Zdigits2 q - 53 - 1)) = false ->
     r2 = q / 2 ^ (Zdigits2 q - 53)) /\
    (Z.odd (q / 2 ^ (Zdigits2 q - 53 - 1)) = true ->
     Z.odd (q / 2 ^ (Zdigits2 q - 53)) = true ->
     r2 = q / 2 ^ (Zdigits2 q - 53) + 1) /\
    binary_round_aux strconv.prec strconv.emax s q 0 l =
    (let '(mrs2, e2) :=
       shr_fexp strconv.prec strconv.emax r2 (Zdigits2 q - 53) loc_Exact in
     match shr_m mrs2 with
     | 0 => S754_zero s
     | Zpos m => if e2 <=? strconv.emax - strconv.prec
                 then S754_finite s m e2 else S754_infinity s
     | Zneg _ => S754_nan
     end).
Proof.
  intros Hq.
  assert (Hq0 : 0 < q) by (change (2 ^ 53) with 9007199254740992 in Hq; lia).
  assert (Hd : 54 <= Zdigits2 q).
  { destruct (Z.le_gt_cases 54 (Zdigits2 q)) as [H | H]; [exact H |].
    assert (H' : Zdigits2 q <= 53) by lia.
    apply (Zdigits2_le_iff q 53) in H'; lia. }
  unfold binary_round_aux. unfold shr_fexp at 1. rewrite fexp64.
  replace (Z.max (Zdigits2 q + 0 - 53) (-1074) - 0) with (Zdigits2 q - 53) by lia.
  unfold shr.
  destruct (Zdigits2 q - 53) as [| p | p] eqn:Ep; try lia.
  pose proof (iter_shr_1 p (shr_record_of_loc q l)) as Hm.
  pose proof (iter_shr_1_round p (shr_record_of_loc q l)) as Hr.
  rewrite shr_m_of_loc in Hm, Hr.
  specialize (Hm ltac:(lia)). specialize (Hr ltac:(lia)).
  destruct (iter_pos shr_1 p (shr_record_of_loc q l)) as [m1 r1 s1].
  cbn [shr_m shr_r] in Hm, Hr. subst m1 r1.
  cbn [shr_m].
  exists (round_nearest_even (q / 2 ^ Zpos p)
            (loc_of_shr_record
               {| shr_m := q / 2 ^ Zpos p;
                  shr_r := Z.odd (q / 2 ^ (Zpos p - 1));
                  shr_s := s1 |})).
  split; [apply round_nearest_even_range |].
  split; [| split].
  - intros ->. destruct s1; reflexivity.
  - intros -> Hodd. destruct s1; cbn [loc_of_shr_record round_nearest_even];
      [reflexivity |].
    rewrite <- Z.negb_odd, Hodd. reflexivity.
  - replace (0 + Zpos p) with (Zpos p) by lia. reflexivity.
Qed.

(** Below [2^1024 - 2^970] the rounded mantissa stays finite. *)
Lemma round_large_finite (s : bool) (q : Z) (l : location) :
  2 ^ 1023 <= q < 2 ^ 1024 - 2 ^ 970 ->
  forall b, binary_round_aux strconv.prec strconv.emax s q 0 l <> S754_infinity b.
Proof.
  intros [Hlo Hhi] b.
  assert (H53 : 2 ^ 53 <= 2 ^ 1023) by (apply Z.pow_le_mono_r; lia).
  assert (Hq0 : 0 < q) by (change (2 ^ 53) with 9007199254740992 in H53; lia).
  assert (H24 : 0 < 2 ^ 970) by (apply Z.pow_pos_nonneg; lia).
  assert (Hd : Zdigits2 q = 1024).
  { assert (H1 : Zdigits2 q <= 1024) by (apply (Zdigits2_le_iff q 1024); lia).
    destruct (Z.le_gt_cases 1024 (Zdigits2 q)) as [H | H]; [lia |].
    assert (H' : Zdigits2 q <= 1023) by lia.
    apply (Zdigits2_le_iff q 1023) in H'; lia. }
  destruct (round_large_shape s q l ltac:(lia)) as (r2 & Hr2 & Hdown & _ & ->).
  rewrite Hd in *. change (1024 - 53) with 971 in *. change (971 - 1) with 970 in *.
  (* the mantissa kept and the bit below it *)
  set (h := q / 2 ^ 970) in *.
  assert (E971 : 2 ^ 971 = 2 ^ 970 * 2) by reflexivity.
  assert (Hm1 : q / 2 ^ 971 = h / 2)
    by (subst h; rewrite E971, Z.div_div by lia; reflexivity).
  rewrite Hm1 in *.
  assert (Hh : 2 ^ 53 <= h < 2 ^ 54 - 1).
  { subst h. split.
    - apply Z.div_le_lower_bound; [lia |].
      replace (2 ^ 970 * 2 ^ 53) with (2 ^ 1023) by reflexivity. exact Hlo.
    - apply Z.div_lt_upper_bound; [lia |].
      replace (2 ^ 970 * (2 ^ 54 - 1)) with (2 ^ 1024 - 2 ^ 970) by reflexivity.
      exact Hhi. }
  change (2 ^ 53) with 9007199254740992 in Hh.
  change (2 ^ 54) with 18014398509481984 in Hh.
  pose proof (Z.div_mod h 2 ltac:(lia)) as Eh.
  pose proof (Z.mod_pos_bound h 2 ltac:(lia)) as Hmod.
  assert (Hr53 : 0 < r2 < 2 ^ 53).
  { change (2 ^ 53) with 9007199254740992.
    destruct (Z.odd h) eqn:Hodd.
    - (* the bit is set: the mantissa is not the largest *)
      rewrite Zodd_mod in Hodd. apply Z.eqb_eq in Hodd. lia.
    - rewrite (Hdown eq_refl). lia. }
  clear Hdown Hr2.
  destruct (shr_fexp_spec r2 971 loc_Exact ltac:(lia)) as (mrs2 & e2 & -> & He2 & Hm2).
  rewrite fexp64 in He2.
  assert (Hdr : Zdigits2 r2 <= 53) by (apply (Zdigits2_le_iff r2 53); lia).
  assert (E2 : e2 = 971) by lia.
  rewrite E2 in *. rewrite Z.sub_diag, Z.div_1_r in Hm2. rewrite Hm2.
  destruct r2; try discriminate.
Qed.

(** From [2^1024 - 2^970] on it is an infinity. *)
Lemma round_large_infinite (s : bool) (q : Z) (l : location) :
  2 ^ 1024 - 2 ^ 970 <= q ->
  binary_round_aux strconv.prec strconv.emax s q 0 l = S754_infinity s.
Proof.
  intros Hq.
  assert (H53 : 2 ^ 53 <= 2 ^ 1024 - 2 ^ 970) by (apply Z.leb_le; reflexivity).
  assert (H24 : 0 < 2 ^ 970) by (apply Z.pow_pos_nonneg; lia).
  assert (Hq0 : 0 < q) by (change (2 ^ 53) with 9007199254740992 in H53; lia).
  assert (Hlo : 2 ^ 1023 <= q).
  { assert (2 ^ 1023 <= 2 ^ 1024 - 2 ^ 970) by (apply Z.leb_le; reflexivity). lia. }
  assert (Hd : 1024 <= Zdigits2 q).
  { destruct (Z.le_gt_cases 1024 (Zdigits2 q)) as [H | H]; [exact H |].
    assert (H' : Zdigits2 q <= 1023) by lia.
    apply (Zdigits2_le_iff q 1023) in H'; lia. }
  destruct (round_large_shape s q l ltac:(lia)) as (r2 & Hr2 & _ & Hup & ->).
  assert (Hfin : exists mrs2 e2,
             shr_fexp strconv.prec strconv.emax r2 (Zdigits2 q - 53) loc_Exact =
               (mrs2, e2) /\
             0 < shr_m mrs2 /\ 971 < e2).
  { destruct (Z.eq_dec (Zdigits2 q) 1024) as [E | NE].
    - (* the largest mantissa, rounded up *)
      rewrite E in *. change (1024 - 53) with 971 in *. change (971 - 1) with 970 in *.
      set (h := q / 2 ^ 970) in *.
      assert (E971 : 2 ^ 971 = 2 ^ 970 * 2) by reflexivity.
      assert (Hm1 : q / 2 ^ 971 = h / 2)
        by (subst h; rewrite E971, Z.div_div by lia; reflexivity).
      rewrite Hm1 in *.
      assert (Hq24 : q < 2 ^ 1024) by (apply (Zdigits2_le_iff q 1024); lia).
      assert (Hh : h = 2 ^ 54 - 1).
      { assert (2 ^ 54 - 1 <= h).
        { subst h. apply Z.div_le_lower_bound; [lia |].
          replace (2 ^ 970 * (2 ^ 54 - 1)) with (2 ^ 1024 - 2 ^ 970) by reflexivity.
          exact Hq. }
        assert (h < 2 ^ 54).
        { subst h. apply Z.div_lt_upper_bound; [lia |].
          replace (2 ^ 970 * 2 ^ 54) with (2 ^ 1024) by reflexivity. exact Hq24. }
        lia. }
      rewrite Hh in Hup.
      specialize (Hup eq_refl eq_refl).
      change ((2 ^ 54 - 1) / 2 + 1) with (2 ^ 53) in Hup. subst r2.
      eexists _, 972. split; [reflexivity |]. split; [reflexivity | lia].
    - (* beyond every finite number *)
      set (p := Zdigits2 q - 53) in *.
      assert (Hp : 972 <= p) by (subst p; lia).
      assert (Hm1 : 2 ^ 52 <= q / 2 ^ p).
      { destruct (Zdigits2_range q Hq0) as (_ & Hql & _).
        apply Z.div_le_lower_bound; [apply Z.pow_pos_nonneg; lia |].
        rewrite <- Z.pow_add_r by lia.
        replace (p + 52) with (Zdigits2 q - 1) by (subst p; lia). exact Hql. }
      change (2 ^ 52) with 4503599627370496 in Hm1.
      destruct (shr_fexp_spec r2 p loc_Exact ltac:(lia)) as (mrs2 & e2 & Hs & He2 & Hm2).
      rewrite fexp64 in He2.
      assert (Hr2hi : r2 <= 2 ^ 53).
      { assert (q / 2 ^ p < 2 ^ 53); [| lia].
        destruct (Zdigits2_range q Hq0) as (_ & _ & Hqh).
        apply Z.div_lt_upper_bound; [apply Z.pow_pos_nonneg; lia |].
        rewrite <- Z.pow_add_r by lia.
        replace (p + 53) with (Zdigits2 q) by (subst p; lia). exact Hqh. }
      assert (Hdr : Zdigits2 r2 <= 54).
      { apply (Zdigits2_le_iff r2 54); [lia | lia |].
        change (2 ^ 54) with (2 * 2 ^ 53). lia. }
      assert (He : p <= e2 <= p + 1) by lia.
      exists mrs2, e2. split; [exact Hs |]. split; [| lia].
      rewrite Hm2.
      assert (2 ^ (e2 - p) <= 2) by
          (change 2 with (2 ^ 1) at 2; apply Z.pow_le_mono_r; lia).
      assert (0 < 2 ^ (e2 - p)) by (apply Z.pow_pos_nonneg; lia).
      apply Z.div_str_pos. lia. }
  destruct Hfin as (mrs2 & e2 & -> & Hpos & He2).
  destruct (shr_m mrs2) as [| m | m]; try lia.
  replace (e2 <=? strconv.emax - strconv.prec) with false; [reflexivity |].
  symmetry. apply Z.leb_gt. unfold strconv.emax, strconv.prec. lia.
Qed.

Lemma SFdiv_core_large (n D : Z) :
  0 < D -> 2 ^ 1023 * D <= n ->
  SFdiv_core_binary strconv.prec strconv.emax n 0 D 0 =
  (n / D, 0, new_location D (n mod D)).
Proof.
  intros HD Hn.
  destruct (Zdigits2_range D HD) as (Hd2 & HDlo & HDhi).
  assert (Hpd : 0 < 2 ^ (Zdigits2 D - 1)) by (apply Z.pow_pos_nonneg; lia).
  assert (H23 : 0 < 2 ^ 1023) by (apply Z.pow_pos_nonneg; lia).
  assert (Hn0 : 0 < n) by nia.
  assert (Hd1 : Zdigits2 D + 1023 <= Zdigits2 n).
  { destruct (Z.le_gt_cases (Zdigits2 D + 1023) (Zdigits2 n)) as [H | H]; [exact H |].
    assert (H' : Zdigits2 n <= Zdigits2 D + 1022) by lia.
    apply (Zdigits2_le_iff n (Zdigits2 D + 1022)) in H'; [| lia | lia].
    replace (Zdigits2 D + 1022) with (1023 + (Zdigits2 D - 1)) in H' by lia.
    rewrite Z.pow_add_r in H' by lia.
    assert (2 ^ 1023 * 2 ^ (Zdigits2 D - 1) <= 2 ^ 1023 * D)
      by (apply Z.mul_le_mono_nonneg_l; lia).
    lia. }
  unfold SFdiv_core_binary. rewrite fexp64.
  replace (Z.min (Z.max (Zdigits2 n + 0 - (Zdigits2 D + 0) - 53) (-1074)) (0 - 0))
    with 0 by lia.
  cbn [Z.sub Z.opp Z.add].
  unfold Z.div, Z.modulo. destruct (Z.div_eucl n D) as [q r]. reflexivity.
Qed.

(** [ParseFloat] leaves [float64] exactly from [2^1024 - 2^970] on, the
    middle between the largest [float64] and [2^1024]. *)
Lemma round_decimal_overflow (n : Z) (k : nat) :
  0 <= n ->
  ((2 ^ 1024 - 2 ^ 970) * 10 ^ Z.of_nat k <= n ->
   strconv.round_decimal n k = S754_infinity false) /\
  (n < (2 ^ 1024 - 2 ^ 970) * 10 ^ Z.of_nat k ->
   forall b, strconv.round_decimal n k <> S754_infinity b).
Proof.
  intros Hn.
  set (D := 10 ^ Z.of_nat k).
  assert (HD : 0 < D) by (subst D; apply Z.pow_pos_nonneg; lia).
  set (T := 2 ^ 1024 - 2 ^ 970).
  assert (HT : 2 ^ 1023 <= T) by (apply Z.leb_le; reflexivity).
  assert (H23 : 0 < 2 ^ 1023) by (apply Z.pow_pos_nonneg; lia).
  assert (HTD : 2 ^ 1023 * D <= T * D) by (apply Z.mul_le_mono_nonneg_r; lia).
  destruct n as [| p | p]; [| | lia].
  { split; [intros H; exfalso; clear - H H23 HTD HD; nia | intros _ b; discriminate]. }
  unfold strconv.round_decimal. fold D. unfold SFdiv.
  rewrite Z2Pos.id by lia.
  destruct (Z.le_gt_cases (2 ^ 1023 * D) (Zpos p)) as [Hbig | Hsmall].
  - (* the quotient has 1024 bits at least *)
    rewrite (SFdiv_core_large (Zpos p) D HD Hbig). cbn [xorb].
    assert (Hq : 2 ^ 1023 <= Zpos p / D)
      by (apply Z.div_le_lower_bound; [lia | rewrite Z.mul_comm; exact Hbig]).
    split.
    + intros Hge. apply round_large_infinite. fold T.
      apply Z.div_le_lower_bound; [lia | rewrite Z.mul_comm; exact Hge].
    + intros Hlt b. apply round_large_finite. fold T.
      split; [exact Hq |].
      apply Z.div_lt_upper_bound; [lia | rewrite Z.mul_comm; exact Hlt].
  - (* below [2^1023] *)
    split; [intros Hge; exfalso; lia |]. intros _ b.
    unfold SFdiv_core_binary.
    set (e' := Z.min (fexp strconv.prec strconv.emax
                        (Zdigits2 (Zpos p) + 0 - (Zdigits2 D + 0))) (0 - 0)).
    assert (He' : -1074 <= e' <= 0) by (subst e'; rewrite fexp64; lia).
    set (m' := match 0 - 0 - e' with
               | 0 => Zpos p
               | Zpos _ => Z.shiftl (Zpos p) (0 - 0 - e')
               | Zneg _ => 0
               end).
    assert (Hm' : m' = Zpos p * 2 ^ (- e')).
    { subst m'. destruct (0 - 0 - e') as [| sh | sh] eqn:Hs; try lia.
      - replace (- e') with 0 by lia. lia.
      - rewrite Z.shiftl_mul_pow2 by lia. f_equal. f_equal. lia. }
    assert (Hpow : 0 < 2 ^ (- e')) by (apply Z.pow_pos_nonneg; lia).
    assert (Hq : 0 <= m' / D < 2 ^ (1023 - e')).
    { split; [apply Z.div_pos; [rewrite Hm'|]; lia |].
      apply Z.div_lt_upper_bound; [lia |].
      rewrite Hm'.
      replace (1023 - e') with (1023 + - e') by lia.
      rewrite Z.pow_add_r by lia.
      replace (D * (2 ^ 1023 * 2 ^ (- e'))) with (2 ^ 1023 * D * 2 ^ (- e')) by ring.
      apply Z.mul_lt_mono_pos_r; assumption. }
    unfold Z.div in Hq. destruct (Z.div_eucl m' D) as [q r]. cbn [fst] in Hq.
    apply binary_round_aux_finite; lia.
Qed.

(** ** The digits and the decimals of a numeral *)

Lemma digits_of_app (s t : string) :
  digits_of (s ++ t) = digits_of s ++ digits_of t.
Proof.
  induction s as [| a s IH]; cbn [append digits_of]; [reflexivity |].
  destruct (strconv.is_digit a); cbn [append]; rewrite IH; reflexivity.
Qed.

Lemma digits_of_digits (s : string) :
  strconv.all_digits s = true -> digits_of s = s.
Proof.
  induction s as [| a s IH]; cbn [strconv.all_digits digits_of]; [reflexivity |].
  intros H. apply andb_true_iff in H. destruct H as [Ha Hs].
  rewrite Ha, (IH Hs). reflexivity.
Qed.

Lemma digits_no_dots (s : string) :
  strconv.all_digits s = true -> count_dots s = O.
Proof.
  induction s as [| a s IH]; cbn [strconv.all_digits count_dots]; [reflexivity |].
  intros H. apply andb_true_iff in H. destruct H as [Ha Hs].
  destruct (Ascii.eqb_spec a ".") as [-> | _]; [discriminate Ha |].
  rewrite (IH Hs). reflexivity.
Qed.

Lemma decimals_digits (s : string) :
  strconv.all_digits s = true -> decimals s = O.
Proof.
  induction s as [| a s IH]; cbn [strconv.all_digits decimals]; [reflexivity |].
  intros H. apply andb_true_iff in H. destruct H as [Ha Hs].
  destruct (Ascii.eqb_spec a ".") as [-> | _]; [discriminate Ha |].
  exact (IH Hs).
Qed.

Lemma decimals_point (ip f : string) :
  strconv.all_digits ip = true ->
  decimals (ip ++ "." ++ f) = String.length (digits_of f).
Proof.
  induction ip as [| a s IH]; cbn [strconv.all_digits append decimals].
  - intros _. reflexivity.
  - intros H. apply andb_true_iff in H. destruct H as [Ha Hs].
    destruct (Ascii.eqb_spec a ".") as [-> | _]; [discriminate Ha |].
    exact (IH Hs).
Qed.

Lemma has_digit_digits (s : string) :
  has_digit s = negb (String.eqb (digits_of s) "").
Proof.
  induction s as [| a s IH]; cbn [has_digit digits_of]; [reflexivity |].
  destruct (strconv.is_digit a); [reflexivity | exact IH].
Qed.

(** A designator adds nothing to the dots, digits and decimals of the
    text before it. *)
Lemma numeral_before_designator (body : string) (des : ascii) :
  strconv.is_digit des = false -> Ascii.eqb des "." = false ->
  count_dots (body ++ String des "") = count_dots body /\
  has_digit (body ++ String des "") = has_digit body /\
  digits_of (body ++ String des "") = digits_of body /\
  decimals (body ++ String des "") = decimals body.
Proof.
  intros Hd Hp.
  assert (Hdig : digits_of (body ++ String des "") = digits_of body).
  { rewrite digits_of_app. cbn [digits_of]. rewrite Hd. apply append_nil_r. }
  split; [| split; [| split]].
  - rewrite count_dots_app. cbn [count_dots]. rewrite Hp. lia.
  - rewrite has_digit_app. cbn [has_digit]. rewrite Hd. cbn [orb].
    apply orb_false_r.
  - exact Hdig.
  - induction body as [| a s IH]; cbn [append decimals].
    + rewrite Hp. reflexivity.
    + destruct (Ascii.eqb a ".").
      * rewrite digits_of_app. cbn [digits_of]. rewrite Hd, append_nil_r. reflexivity.
      * apply IH. rewrite digits_of_app. cbn [digits_of]. rewrite Hd. apply append_nil_r.
Qed.

(** ** ParseFloat, case by case *)

(** What [ParseFloat] makes of a text of digits and dots: a number
    exactly when the text has one ['.'] at most, one digit at least,
    and a value below [2^1024 - 2^970]. *)
Lemma ParseFloat_decides (body : string) :
  all_in digit_or_dot body = true ->
  ((count_dots body <= 1)%nat /\ has_digit body = true /\
   strconv.decimal 0 (digits_of body) <
     (2 ^ 1024 - 2 ^ 970) * 10 ^ Z.of_nat (decimals body) /\
   exists f, strconv.ParseFloat body = inl f) \/
  (~ ((count_dots body <= 1)%nat /\ has_digit body = true /\
      strconv.decimal 0 (digits_of body) <
        (2 ^ 1024 - 2 ^ 970) * 10 ^ Z.of_nat (decimals body)) /\
   exists e, strconv.ParseFloat body = inr e).
Proof.
  intros Hall. unfold strconv.ParseFloat.
  destruct (split_dot_spec body Hall) as (ip & fo & -> & Hip & Hfo).
  set (fp := match fo with Some f => f | None => "" end).
  rewrite Hip. cbn [andb].
  (* the text in terms of its two parts *)
  assert (Hparts :
            count_dots body = (match fo with Some f => S (count_dots f) | None => O end) /\
            (strconv.all_digits fp = true ->
             digits_of body = ip ++ fp /\ decimals body = String.length fp)).
  { subst fp. destruct fo as [f |].
    - destruct Hfo as [-> Hf]. split.
      + rewrite count_dots_app, (digits_no_dots ip Hip). reflexivity.
      + intros Hfd. split.
        * rewrite digits_of_app, (digits_of_digits ip Hip).
          change ("." ++ f) with (String "." f). cbn [digits_of].
          change (strconv.is_digit ".") with false. cbv iota.
          rewrite (digits_of_digits f Hfd). reflexivity.
        * rewrite (decimals_point ip f Hip), (digits_of_digits f Hfd). reflexivity.
    - subst body. split; [apply digits_no_dots; exact Hip |].
      intros _. rewrite append_nil_r.
      split; [apply digits_of_digits; exact Hip | apply decimals_digits; exact Hip]. }
  destruct Hparts as [Hdots Hval].
  destruct (strconv.all_digits fp) eqn:Hfpd.
  - destruct (Hval eq_refl) as [Hdig Hdec]. clear Hval.
    assert (Hd1 : (count_dots body <= 1)%nat).
    { rewrite Hdots. subst fp. destruct fo as [f |]; [| lia].
      rewrite (digits_no_dots f Hfpd). lia. }
    rewrite has_digit_digits, Hdig, Hdec.
    destruct (String.eqb (ip ++ fp) "") eqn:Hempty; cbn [negb].
    + right. split; [| eexists; reflexivity].
      intros (_ & H & _). discriminate H.
    + assert (Hn : 0 <= strconv.decimal 0 (ip ++ fp)).
      { apply (decimal_range (ip ++ fp) 0); [lia |].
        rewrite all_digits_app, Hip, Hfpd. reflexivity. }
      destruct (round_decimal_overflow _ (String.length fp) Hn) as [Hinf Hfin].
      destruct (Z.lt_ge_cases (strconv.decimal 0 (ip ++ fp))
                              ((2 ^ 1024 - 2 ^ 970) * 10 ^ Z.of_nat (String.length fp)))
        as [Hlt | Hge].
      * left. split; [exact Hd1 |]. split; [reflexivity |]. split; [exact Hlt |].
        specialize (Hfin Hlt).
        destruct (strconv.round_decimal _ _) as [b | b | | b m e];
          try (eexists; reflexivity).
        exfalso. exact (Hfin b eq_refl).
      * right. split; [intros (_ & _ & H); lia |].
        rewrite (Hinf Hge). eexists. reflexivity.
  - right. split; [| eexists; reflexivity].
    intros (H & _). rewrite Hdots in H. subst fp.
    destruct fo as [f |]; [| discriminate Hfpd].
    destruct Hfo as [_ Hf].
    assert (count_dots f = O) by lia.
    rewrite (no_dots_digits f Hf H0) in Hfpd. discriminate Hfpd.
Qed.

(** ** The fields, case by case *)

Lemma Atoi_decides (s : string) :
  s <> "" -> strconv.all_digits s = true ->
  (strconv.decimal 0 s <= MaxInt /\ strconv.Atoi s = inl (strconv.decimal 0 s)) \/
  (MaxInt < strconv.decimal 0 s /\ strconv.Atoi s = inr strconv.ErrRange).
Proof.
  intros Hne Hall.
  destruct (Z.le_gt_cases (strconv.decimal 0 s) MaxInt) as [Hle | Hgt].
  - left. split; [exact Hle | apply Atoi_digits_value; assumption].
  - right. split; [exact Hgt |]. unfold strconv.Atoi.
    destruct s as [| a s]; [congruence |].
    assert (Ha : strconv.is_digit a = true).
    { cbn [strconv.all_digits] in Hall. apply andb_true_iff in Hall. tauto. }
    destruct (Ascii.eqb_spec a "-") as [-> | _]; [discriminate Ha |].
    destruct (Ascii.eqb_spec a "+") as [-> | _]; [discriminate Ha |].
    rewrite Hall.
    replace (strconv.decimal 0 (String a s) <=? int64_max) with false
      by (symmetry; apply Z.leb_gt; exact Hgt).
    rewrite andb_false_r. reflexivity.
Qed.

Lemma int_field_decides (des : ascii) (x : string) :
  field regexp.digit des x -> regexp.in_class regexp.digit des = false ->
  (x = "" /\ int_field_fits des x) \/
  (String.eqb x "" = false /\ int_field_fits des x /\
   exists n, strconv.Atoi (strings.TrimRight x (String des "")) = inl n) \/
  (String.eqb x "" = false /\ ~ int_field_fits des x /\
   strconv.Atoi (strings.TrimRight x (String des "")) = inr strconv.ErrRange).
Proof.
  unfold int_field_fits, field_number.
  intros [-> | (body & Hne & Hall & ->)] Hdes.
  - left. split; [reflexivity |]. cbn. unfold MaxInt. range_lia.
  - right. rewrite field_not_empty, (TrimRight_field _ _ _ Hdes Hall).
    rewrite all_in_digit in Hall.
    destruct (Atoi_decides body Hne Hall) as [[Hle ->] | [Hgt ->]].
    + left. split; [reflexivity |]. split; [exact Hle | eexists; reflexivity].
    + right. split; [reflexivity |]. split; [lia | reflexivity].
Qed.

Lemma seconds_field_decides (x : string) :
  field digit_or_dot "S" x ->
  (x = "" /\ seconds_field_plain x) \/
  (String.eqb x "" = false /\ seconds_field_plain x /\
   exists f, strconv.ParseFloat (strings.TrimRight x "S") = inl f) \/
  (String.eqb x "" = false /\ ~ seconds_field_plain x /\
   exists e, strconv.ParseFloat (strings.TrimRight x "S") = inr e).
Proof.
  unfold seconds_field_plain.
  intros [-> | (body & Hne & Hall & ->)].
  - left. split; [reflexivity | left; reflexivity].
  - right. rewrite field_not_empty.
    rewrite (TrimRight_field digit_or_dot "S" body eq_refl Hall).
    destruct (numeral_before_designator body "S" eq_refl eq_refl)
      as (-> & -> & -> & ->).
    destruct (ParseFloat_decides body Hall) as [(H1 & H2 & H3 & Hf) | (Hn & He)].
    + left. split; [reflexivity |]. split; [right; auto | exact Hf].
    + right. split; [reflexivity |]. split; [| exact He].
      intros [E | H]; [destruct body; discriminate E | exact (Hn H)].
Qed.

(** After the three checks [parseDuration] either converts every field
    and returns a duration, or stops at the first field that does not
    convert with the error of that field. *)
Lemma conversions_decide (str : string) :
  (len str <? 3) = false ->
  strings.Contains str "-" = false ->
  regexp.Match xmlDurationRegex str = true ->
  let parts := regexp.FindStringSubmatch xmlDurationRegex str in
  ((int_field_fits "D" (part parts 1) /\ int_field_fits "H" (part parts 2) /\
    int_field_fits "M" (part parts 3) /\ seconds_field_plain (part parts 4)) /\
   exists d, parseDuration str = Ok d) \/
  (~ (int_field_fits "D" (part parts 1) /\ int_field_fits "H" (part parts 2) /\
      int_field_fits "M" (part parts 3) /\ seconds_field_plain (part parts 4)) /\
   exists f e, parseDuration str = Err (ErrField f e)).
Proof.
  intros Hlen Hneg Hm parts. subst parts.
  destruct (Match_parts str Hm) as (dd & hh & mm & ss & Hparts & Ht).
  unfold parseDuration. rewrite Hlen, Hneg, Hm, Hparts. cbn [negb part nth].
  destruct Ht as (Fd & Fh & Fm & Fs & _).
  destruct (int_field_decides "D" dd Fd eq_refl)
    as [(-> & F1) | [(-> & F1 & n1 & ->) | (-> & F1 & ->)]];
    cbn [String.eqb]; cbv beta iota;
    [| | right; split; [tauto | eexists _, _; reflexivity]];
  (destruct (int_field_decides "H" hh Fh eq_refl)
     as [(-> & F2) | [(-> & F2 & n2 & ->) | (-> & F2 & ->)]];
   cbn [String.eqb]; cbv beta iota;
   [| | right; split; [tauto | eexists _, _; reflexivity]]);
  (destruct (int_field_decides "M" mm Fm eq_refl)
     as [(-> & F3) | [(-> & F3 & n3 & ->) | (-> & F3 & ->)]];
   cbn [String.eqb]; cbv beta iota;
   [| | right; split; [tauto | eexists _, _; reflexivity]]);
  (destruct (seconds_field_decides ss Fs)
     as [(-> & F4) | [(-> & F4 & f & ->) | (-> & F4 & e & ->)]];
   cbn [String.eqb]; cbv beta iota;
   [left; split; [tauto | eexists; reflexivity] ..
   | right; split; [tauto | eexists _, _; reflexivity]]).
Qed.

(** C3, as the claim states it, fails: each of these texts passes the
    length, sign and grammar checks and has a field that does not
    convert: a seconds field without a digit, one with two dots, one
    too large for [float64], and a days field beyond [int]. *)
Lemma conversion_failure_reachable :
  ((len "PT.S" <? 3) = false /\
   strings.Contains "PT.S" "-" = false /\
   regexp.Match xmlDurationRegex "PT.S" = true /\
   parseDuration "PT.S" = Err (ErrField Seconds strconv.ErrSyntax)) /\
  (regexp.Match xmlDurationRegex "PT1.2.3S" = true /\
   parseDuration "PT1.2.3S" = Err (ErrField Seconds strconv.ErrSyntax)) /\
  (regexp.Match xmlDurationRegex ("PT1" ++ zeros 309 ++ "S") = true /\
   parseDuration ("PT1" ++ zeros 309 ++ "S") =
     Err (ErrField Seconds strconv.ErrRange)) /\
  (regexp.Match xmlDurationRegex "P9223372036854775808D" = true /\
   parseDuration "P9223372036854775808D" = Err (ErrField Days strconv.ErrRange)).
Proof. repeat split; vm_compute; reflexivity. Qed.

(** C3 (amended). For every input that passes the length check, the
    sign check and the grammar check, all the field conversions succeed
    and [parseDuration] returns a duration exactly when the number of
    each of the days, hours and minutes fields is at most the largest
    [int] and the seconds field, when present, has at most one ['.'],
    at least one digit and a value below [2^1024 - 2^970]; otherwise
    [parseDuration] returns the conversion error of a field. *)
Theorem field_conversions_succeed (str : string) :
  (len str <? 3) = false ->
  strings.Contains str "-" = false ->
  regexp.Match xmlDurationRegex str = true ->
  let parts := regexp.FindStringSubmatch xmlDurationRegex str in
  ((int_field_fits "D" (part parts 1) /\ int_field_fits "H" (part parts 2) /\
    int_field_fits "M" (part parts 3) /\ seconds_field_plain (part parts 4))
   <-> exists d, parseDuration str = Ok d) /\
  (~ (int_field_fits "D" (part parts 1) /\ int_field_fits "H" (part parts 2) /\
      int_field_fits "M" (part parts 3) /\ seconds_field_plain (part parts 4))
   -> exists f e, parseDuration str = Err (ErrField f e)).
Proof.
  intros Hlen Hneg Hm parts.
  destruct (conversions_decide str Hlen Hneg Hm) as [[Hc Hok] | [Hn Herr]];
    fold parts in Hc || fold parts in Hn.
  - split; [split; [intros _; exact Hok | intros _; exact Hc] |].
    intros Hn. contradiction.
  - split; [| intros _; exact Herr].
    split; [intros Hc; contradiction |].
    intros [d Hd]. destruct Herr as (f & e & He). congruence.
Qed.

Lemma field_conversions_succeed_witness :
  exists d, parseDuration "P1DT2H3M4.5S" = Ok d.
Proof.
  apply (proj1 (field_conversions_succeed "P1DT2H3M4.5S" eq_refl eq_refl eq_refl)).
  unfold int_field_fits, seconds_field_plain.
  split; [vm_compute; discriminate |].
  split; [vm_compute; discriminate |].
  split; [vm_compute; discriminate |].
  right. split; [vm_compute; lia |]. split; [reflexivity |].
  vm_compute. reflexivity.
Defined.
